(** * UnixSockTwoWayStream: the connection lifecycle of a unix-socket carrier

    A shallow embedding of [src/carriers/unix/UnixSockTwoWayStream.cpp].
    The object is a record of its member fields.  Every method is a
    function of the object and of a [World]: the answers the operating
    system will give, what the other threads will do to the object while
    this thread is suspended, and the log of the calls made so far.  A
    method either returns, or waits forever in one of the polling loops
    ([Spin]). *)

From Stdlib Require Import ZArith List String Bool Lia Arith.
Import ListNotations.
Open Scope Z_scope.

(** ** Machine integers *)

(** [int] is 32 bits wide; the result of [::read] and [::write] (a 64 bit
    [ssize_t]) is stored in an [int]. *)
Definition to_int (z : Z) : Z := (z + 2 ^ 31) mod 2 ^ 32 - 2 ^ 31.

(** Value of [ETIMEDOUT] in [<cerrno>] on Linux. *)
Definition ETIMEDOUT : Z := 110.

(** [sizeof(addr.sun_path)] in [<sys/un.h>] on Linux. *)
Definition sun_path_size : nat := 108.

(** ** The object *)

(** [yarp::os::Contact] belongs to the middleware; only its identity matters. *)
Definition Contact := string.

Record Stream := mkStream {
  socketPath : string;
  reader_fd : Z;
  sender_fd : Z;
  openedAsReader : bool;
  closed : bool;
  interrupting : bool;
  happy : bool;
  monitor : list Byte.byte;
  localAddress : Contact;
  remoteAddress : Contact
}.

Definition set_reader_fd (v : Z) (s : Stream) : Stream :=
  mkStream (socketPath s) v (sender_fd s) (openedAsReader s) (closed s)
           (interrupting s) (happy s) (monitor s) (localAddress s) (remoteAddress s).
Definition set_sender_fd (v : Z) (s : Stream) : Stream :=
  mkStream (socketPath s) (reader_fd s) v (openedAsReader s) (closed s)
           (interrupting s) (happy s) (monitor s) (localAddress s) (remoteAddress s).
Definition set_openedAsReader (v : bool) (s : Stream) : Stream :=
  mkStream (socketPath s) (reader_fd s) (sender_fd s) v (closed s)
           (interrupting s) (happy s) (monitor s) (localAddress s) (remoteAddress s).
Definition set_closed (v : bool) (s : Stream) : Stream :=
  mkStream (socketPath s) (reader_fd s) (sender_fd s) (openedAsReader s) v
           (interrupting s) (happy s) (monitor s) (localAddress s) (remoteAddress s).
Definition set_interrupting (v : bool) (s : Stream) : Stream :=
  mkStream (socketPath s) (reader_fd s) (sender_fd s) (openedAsReader s) (closed s)
           v (happy s) (monitor s) (localAddress s) (remoteAddress s).
Definition set_happy (v : bool) (s : Stream) : Stream :=
  mkStream (socketPath s) (reader_fd s) (sender_fd s) (openedAsReader s) (closed s)
           (interrupting s) v (monitor s) (localAddress s) (remoteAddress s).
Definition set_monitor (v : list Byte.byte) (s : Stream) : Stream :=
  mkStream (socketPath s) (reader_fd s) (sender_fd s) (openedAsReader s) (closed s)
           (interrupting s) (happy s) v (localAddress s) (remoteAddress s).
Definition set_localAddress (v : Contact) (s : Stream) : Stream :=
  mkStream (socketPath s) (reader_fd s) (sender_fd s) (openedAsReader s) (closed s)
           (interrupting s) (happy s) (monitor s) v (remoteAddress s).
Definition set_remoteAddress (v : Contact) (s : Stream) : Stream :=
  mkStream (socketPath s) (reader_fd s) (sender_fd s) (openedAsReader s) (closed s)
           (interrupting s) (happy s) (monitor s) (localAddress s) v.

(** Modelled from the spec: the member initialisers of the class declaration
    ([UnixSockTwoWayStream.h], not among the sources).  The constructor of
    the .cpp file only stores the socket name; the spec has a new object
    usable ([happy], not [closed]), no interrupt in flight, and the invalid
    descriptor written as the sentinel -1. *)
Definition UnixSockTwoWayStream (_socketPath : string) : Stream :=
  mkStream _socketPath (-1) (-1) false false false true [] EmptyString EmptyString.

(** ** The operating system and the other threads *)

(** The address built in [open].  [SunPath p] is a [sun_path] that holds
    the characters of [p], none of them NUL, and NUL from there on;
    [SunAbstract] is the one of the empty name, a leading NUL followed by
    what lies behind the empty name in memory. *)
Inductive sockaddr_un :=
| SunPath (path : string)
| SunAbstract.

Inductive event :=
| Socket (ret : Z)
| Unlink (path : string)
| Connect (fd : Z) (addr : sockaddr_un) (ret : Z)
| Bind (fd : Z) (addr : sockaddr_un) (ret : Z)
| Listen (fd : Z) (backlog : Z) (ret : Z)
| Accept (fd : Z) (ret : Z)
| Shutdown (fd : Z)
| CloseFd (fd : Z)
| ReadFd (fd : Z) (len : Z) (ret : Z)
| WriteFd (fd : Z) (data : list Byte.byte) (ret : Z) (err : Z)
| Delay (ms : Z)
| Diag (msg : string).

(** What one system call answers: its return value and the [errno] it
    leaves; and what [errno] holds once [perror] has reported the call.
    [perror] writes to the standard error stream, and where that fails, or
    whenever the C library sees fit, it leaves an [errno] of its own; it is
    [errno] again when [perror] leaves it alone. *)
Record Answer := mkAnswer { ret_val : Z; errno : Z; errno_after_perror : Z }.

(** [os] lists the answers of the operating system in the order of the
    calls, [tick] counts the answers used.  [env] lists what the other
    threads do to the object, one entry for each time this thread is
    suspended in a call that blocks or sleeps; once the list is used up the
    other threads have finished.  [trace] is the log of calls, oldest
    first. *)
Record World := mkWorld {
  os : nat -> Answer;
  tick : nat;
  env : list (Stream -> Stream);
  trace : list event
}.

Definition set_env (e : list (Stream -> Stream)) (w : World) : World :=
  mkWorld (os w) (tick w) e (trace w).
Definition log (e : event) (w : World) : World :=
  mkWorld (os w) (tick w) (env w) (trace w ++ [e]).
Definition next (w : World) : World :=
  mkWorld (os w) (S (tick w)) (env w) (trace w).

(** ** Computations on the object *)

Inductive outcome (A : Type) :=
| Ret (a : A) (s : Stream) (w : World)
| Spin (s : Stream) (w : World).
Arguments Ret {A} a s w.
Arguments Spin {A} s w.

Definition M (A : Type) := Stream -> World -> outcome A.

Definition ret {A} (a : A) : M A := fun s w => Ret a s w.
Definition bind {A B} (m : M A) (k : A -> M B) : M B :=
  fun s w => match m s w with
             | Ret a s' w' => k a s' w'
             | Spin s' w' => Spin s' w'
             end.

Notation "x <- m ;; k" := (bind m (fun x => k))
  (at level 61, m at next level, right associativity).
Notation "m ;; k" := (bind m (fun _ => k))
  (at level 61, right associativity).

Definition get : M Stream := fun s w => Ret s s w.
Definition modify (f : Stream -> Stream) : M unit := fun s w => Ret tt (f s) w.
Definition emit (e : event) : M unit := fun s w => Ret tt s (log e w).
Definition ask : M Answer := fun s w => Ret (os w (tick w)) s (next w).

(** The other threads act on the object while this one is suspended. *)
Definition yield : M unit :=
  fun s w => match env w with
             | [] => Ret tt s w
             | f :: e => Ret tt (f s) (set_env e w)
             end.

Definition state_of {A} (o : outcome A) : Stream :=
  match o with Ret _ s _ => s | Spin s _ => s end.
Definition world_of {A} (o : outcome A) : World :=
  match o with Ret _ _ w => w | Spin _ w => w end.
Definition returns {A} (o : outcome A) : bool :=
  match o with Ret _ _ _ => true | Spin _ _ => false end.

(** *** System calls *)

Definition sys_socket : M Z :=
  a <- ask ;; emit (Socket (ret_val a)) ;; ret (ret_val a).
(** [::unlink(path.c_str())]: the event names the string, the call reads
    its [c_str]. *)
Definition sys_unlink (path : string) : M unit := emit (Unlink path).
Definition sys_connect (fd : Z) (addr : sockaddr_un) : M Z :=
  a <- ask ;; emit (Connect fd addr (ret_val a)) ;; yield ;; ret (ret_val a).
Definition sys_bind (fd : Z) (addr : sockaddr_un) : M Z :=
  a <- ask ;; emit (Bind fd addr (ret_val a)) ;; ret (ret_val a).
Definition sys_listen (fd : Z) (backlog : Z) : M Z :=
  a <- ask ;; emit (Listen fd backlog (ret_val a)) ;; ret (ret_val a).
Definition sys_accept (fd : Z) : M Z :=
  a <- ask ;; emit (Accept fd (ret_val a)) ;; yield ;; ret (ret_val a).
Definition sys_shutdown (fd : Z) : M unit := emit (Shutdown fd).
Definition sys_close (fd : Z) : M unit := emit (CloseFd fd).
Definition sys_read (fd : Z) (len : Z) : M Z :=
  a <- ask ;; emit (ReadFd fd len (ret_val a)) ;; yield ;; ret (ret_val a).
Definition sys_write (fd : Z) (data : list Byte.byte) : M Answer :=
  a <- ask ;; emit (WriteFd fd data (ret_val a) (errno a)) ;; yield ;; ret a.

(** [yarp::os::Time::delay] and [SystemClock::delaySystem], in milliseconds. *)
Definition delay (ms : Z) : M unit := emit (Delay ms) ;; yield.

(** [yCDebug] and [yDebug]; and [perror] where [errno] is not read after
    it. *)
Definition diag (msg : string) : M unit := emit (Diag msg).

(** [perror] reporting the call that answered [a], where [errno] is read
    after it: the message is printed, and the result is what [errno] holds
    then. *)
Definition perror (msg : string) (a : Answer) : M Z :=
  emit (Diag msg) ;; ret (errno_after_perror a).

(** ** Connection establishment *)

(** [std::string::c_str()] as [strncpy] and [::unlink] read it: the
    characters before the first NUL.  A [std::string] may hold NUL
    characters; [empty()] looks at its length, not at them. *)
Fixpoint c_str (s : string) : string :=
  match s with
  | EmptyString => EmptyString
  | String c s' =>
      if Ascii.eqb c Ascii.zero then EmptyString else String c (c_str s')
  end.

Definition make_addr (path : string) : sockaddr_un :=
  match path with
  | EmptyString => SunAbstract
  | _ => SunPath (substring 0 (sun_path_size - 1) (c_str path))
  end.

(** The loop [while (attempts < 5)] of [open]; [budget] bounds the
    iterations left and is 5 when [attempts] is 0.  The result is the final
    value of [attempts]. *)
Fixpoint connect_loop (budget : nat) (addr : sockaddr_un) (attempts : Z) : M Z :=
  match budget with
  | O => ret attempts
  | S budget' =>
      if attempts <? 5 then
        s <- get ;;
        result <- sys_connect (reader_fd s) addr ;;
        if result =? 0 then ret attempts
        else delay 10 ;; connect_loop budget' addr (attempts + 1)
      else ret attempts
  end.

Definition open (sender : bool) : M bool :=
  modify (set_openedAsReader (negb sender)) ;;
  fd <- sys_socket ;;
  modify (set_reader_fd fd) ;;
  if fd =? -1 then
    diag "UnixSockTwoWayStream error:" ;; ret false
  else
    s <- get ;;
    let addr := make_addr (socketPath s) in
    match socketPath s with
    | EmptyString => ret tt
    | _ => if negb sender then sys_unlink (socketPath s) else ret tt
    end ;;
    if sender then
      attempts <- connect_loop 5 addr 0 ;;
      if attempts >=? 5 then
        diag "UnixSockTwoWayStream connect error, I tried 5 times..." ;; ret false
      else ret true
    else
      s <- get ;;
      r <- sys_bind (reader_fd s) addr ;;
      if r =? -1 then
        diag "UnixSockTwoWayStream bind error" ;; ret false
      else
        s <- get ;;
        r <- sys_listen (reader_fd s) 2 ;;
        if r =? -1 then
          diag "UnixSockTwoWayStream listen error" ;; ret false
        else
          s <- get ;;
          fd <- sys_accept (reader_fd s) ;;
          modify (set_sender_fd fd) ;;
          if fd =? -1 then
            diag "UnixSockTwoWayStream accept error" ;; ret false
          else ret true.

(** ** Interrupt, close, read and write *)

(** The section of [interrupt] between [mutex.lock()] and [mutex.unlock()]:
    one step on the object, whose result is the local [act]. *)
Definition interrupt_lock : M bool :=
  fun s w =>
    if negb (closed s) && negb (interrupting s) && happy s
    then Ret true (set_closed true (set_interrupting true s)) w
    else Ret false s w.

(** [while (interrupting) { body; delaySystem(0.1); }].  Neither [body]
    nor the sleep writes the flag: each sleep lets the other threads act
    once, [turns] counts the times they still will, and when they have
    finished with the flag still set the loop goes round for ever. *)
Fixpoint await (turns : nat) (body : M unit) : M unit :=
  fun s w =>
    if interrupting s then
      match turns with
      | O => match (body ;; delay 100) s w with
             | Ret _ s' w' => Spin s' w'
             | Spin s' w' => Spin s' w'
             end
      | S turns' => (body ;; delay 100 ;; await turns' body) s w
      end
    else Ret tt s w.

Definition while_interrupting (body : M unit) : M unit :=
  fun s w => await (List.length (env w)) body s w.

(** A call on an object that only this thread can reach: nobody else acts
    on that object, and the other threads go on acting on this one. *)
Definition private {A} (m : M A) (tmp : Stream) : M (A * Stream) :=
  fun s w =>
    match m tmp (set_env [] w) with
    | Ret a tmp' w' => (yield ;; ret (a, tmp')) s (set_env (env w) w')
    | Spin _ w' => Spin s (set_env (env w) w')
    end.

Section Methods.

(** The body of [if (openedAsReader) { ... }] in [interrupt].  It calls
    [write] and [close] on a second object, which call [interrupt] in
    turn, so the three methods are first written over it. *)
Variable unblock : M unit.

Definition interrupt_over : M unit :=
  diag " interrupting socket" ;;
  act <- interrupt_lock ;;
  if act then
    s <- get ;;
    (if openedAsReader s then unblock else ret tt) ;;
    modify (set_interrupting false)
  else
    (* wait for interruption to be done *)
    while_interrupting (diag "waiting for dgram interrupt to be finished...").

Definition close_over : M unit :=
  s <- get ;;
  (if reader_fd s >? 0 then
     interrupt_over ;;
     modify (set_closed true) ;;
     while_interrupting (modify (set_happy false)) ;;
     s <- get ;;
     (if openedAsReader s then
        sys_shutdown (sender_fd s) ;;
        sys_close (sender_fd s) ;;
        sys_unlink (socketPath s) ;;
        modify (set_sender_fd (-1))
      else
        sys_shutdown (reader_fd s) ;;
        sys_close (reader_fd s) ;;
        modify (set_reader_fd (-1))) ;;
     modify (set_happy false)
   else ret tt) ;;
  modify (set_happy false).

Definition write_over (b : list Byte.byte) : M unit :=
  s <- get ;;
  if reader_fd s <? 0 then close_over
  else
    a <- sys_write (if openedAsReader s then sender_fd s else reader_fd s) b ;;
    if to_int (ret_val a) <? 0 then
      e <- perror "unixSock::write:Packet payload" a ;;
      if negb (e =? ETIMEDOUT) then close_over else ret tt
    else ret tt.

End Methods.

Definition flush : M unit := ret tt.

(** [ManagedBytes empty(10)] with every byte set to 0. *)
Definition empty : list Byte.byte := repeat Byte.x00 10.

(** One turn of the loop of [interrupt], after [ct--], given what the
    calls [tmp.write] and [tmp.close] on the throwaway object run.  The
    object [tmp] goes out of scope at the end of the turn, where its
    destructor calls [close] once more. *)
Definition attempt_with (tmp_write : list Byte.byte -> M unit) (tmp_close : M unit) :
  M unit :=
  s <- get ;;
  let tmp := UnixSockTwoWayStream (socketPath s) in
  r <- private (open true) tmp ;;
  s <- get ;;
  (* this allows the fake stream to write on the socket waiting something to read. *)
  let tmp := set_reader_fd (sender_fd s) (snd r) in
  r <- private (tmp_write empty) tmp ;;
  r <- private flush (snd r) ;;
  r <- private tmp_close (snd r) ;;
  s <- get ;;
  (if happy s then delay 250 else ret tt) ;;
  r <- private tmp_close (snd r) ;;
  ret tt.

(** [write] and [close] as the throwaway object runs them.  It is opened
    as sender, so its own [interrupt] never reaches the body of
    [if (openedAsReader)] and what stands for that body does not matter:
    [attempt_as_written] below shows that the turn is the one in which the
    throwaway object runs [write] and [close] themselves. *)
Definition tmp_close : M unit := close_over (ret tt).
Definition tmp_write (b : list Byte.byte) : M unit := write_over (ret tt) b.

Definition attempt : M unit := attempt_with tmp_write tmp_close.

(** [int ct = 3; while (happy && ct > 0) { ct--; ... }] *)
Fixpoint unblock_loop (ct : nat) : M unit :=
  match ct with
  | O => ret tt
  | S ct' =>
      s <- get ;;
      if happy s then attempt ;; unblock_loop ct' else ret tt
  end.

Definition unblock : M unit :=
  unblock_loop 3 ;; diag "dgram interrupt done".

Definition interrupt : M unit := interrupt_over unblock.
Definition close : M unit := close_over unblock.
Definition write (b : list Byte.byte) : M unit := write_over unblock b.

(** [~UnixSockTwoWayStream()] *)
Definition destructor : M unit := close.

Definition read (len : Z) : M Z :=
  s <- get ;;
  if closed s || negb (happy s) then ret (-1)
  else
    r <- sys_read (if openedAsReader s then sender_fd s else reader_fd s) len ;;
    let result := to_int r in
    s <- get ;;
    if closed s || (result =? 0) then
      modify (set_happy false) ;; ret (-1)
    else if result <? 0 then
      diag "unixSock::read():Packet payload" ;; ret (-1)
    else ret result.

Definition isOk : M bool := s <- get ;; ret (happy s).
Definition reset : M unit := ret tt.
Definition beginPacket : M unit := ret tt.
Definition endPacket : M unit := ret tt.

Definition getMonitor : M (list Byte.byte) := s <- get ;; ret (monitor s).
Definition setMonitor (data : list Byte.byte) : M unit := modify (set_monitor data).
Definition removeMonitor : M unit := modify (set_monitor []).

Definition getLocalAddress : M Contact := s <- get ;; ret (localAddress s).
Definition getRemoteAddress : M Contact := s <- get ;; ret (remoteAddress s).
Definition setLocalAddress (a : Contact) : M unit := modify (set_localAddress a).
Definition setRemoteAddress (a : Contact) : M unit := modify (set_remoteAddress a).

(** ** Sequences of calls on one object *)

Inductive call :=
| Open (sender : bool)
| Read (len : Z)
| Write (b : list Byte.byte)
| Flush
| Interrupt
| Close
| IsOk
| Reset
| BeginPacket
| EndPacket
| GetMonitor
| SetMonitor (data : list Byte.byte)
| RemoveMonitor
| GetLocalAddress
| GetRemoteAddress
| SetLocalAddress (a : Contact)
| SetRemoteAddress (a : Contact).

Definition run_call (c : call) : M unit :=
  match c with
  | Open sender => open sender ;; ret tt
  | Read len => read len ;; ret tt
  | Write b => write b
  | Flush => flush
  | Interrupt => interrupt
  | Close => close
  | IsOk => isOk ;; ret tt
  | Reset => reset
  | BeginPacket => beginPacket
  | EndPacket => endPacket
  | GetMonitor => getMonitor ;; ret tt
  | SetMonitor data => setMonitor data
  | RemoveMonitor => removeMonitor
  | GetLocalAddress => getLocalAddress ;; ret tt
  | GetRemoteAddress => getRemoteAddress ;; ret tt
  | SetLocalAddress a => setLocalAddress a
  | SetRemoteAddress a => setRemoteAddress a
  end.

Fixpoint run (cs : list call) : M unit :=
  match cs with
  | [] => ret tt
  | c :: cs' => run_call c ;; run cs'
  end.

(** ** Reading the results of a call *)

(** The object and the world when a call that blocks, logged as [e], comes
    back: the answer is used up, the call is logged, and the other threads
    have had their turn. *)
Definition resumed (e : event) (s : Stream) (w : World) : Stream * World :=
  match env w with
  | [] => (s, log e (next w))
  | f :: rest => (f s, set_env rest (log e (next w)))
  end.

(** The events logged between two worlds of one run. *)
Definition since (w w' : World) : list event :=
  skipn (List.length (trace w)) (trace w').

(** The descriptor [read] and [write] work on. *)
Definition io_fd (s : Stream) : Z :=
  if openedAsReader s then sender_fd s else reader_fd s.

(** What a connect loop logs: the attempts that failed, on descriptor
    [fst] with result [snd], each followed by its 10 ms sleep. *)
Definition retries (addr : sockaddr_un) (fails : list (Z * Z)) : list event :=
  flat_map (fun p => [Connect (fst p) addr (snd p); Delay 10]) fails.

Definition is_connect (e : event) : bool :=
  match e with Connect _ _ _ => true | _ => false end.
Definition is_socket (e : event) : bool :=
  match e with Socket _ => true | _ => false end.
Definition is_write (e : event) : bool :=
  match e with WriteFd _ _ _ _ => true | _ => false end.
Definition is_nap (e : event) : bool :=
  match e with Delay ms => ms =? 250 | _ => false end.
Definition count (p : event -> bool) (tr : list event) : nat :=
  List.length (filter p tr).

(** Answers of the operating system read off a list of (result, errno),
    and (0, 0) ever after; [perror] leaves [errno] alone. *)
Definition script (l : list (Z * Z)) : nat -> Answer :=
  fun n => mkAnswer (fst (nth n l (0, 0))) (snd (nth n l (0, 0))) (snd (nth n l (0, 0))).

(** The same answers under a [perror] that leaves [e] in [errno]. *)
Definition clobbered (e : Z) (o : nat -> Answer) : nat -> Answer :=
  fun n => mkAnswer (ret_val (o n)) (errno (o n)) e.

(** A world at its start, with given answers and given other threads. *)
Definition world (l : list (Z * Z)) (others : list (Stream -> Stream)) : World :=
  mkWorld (script l) 0 others [].

(** One turn of the other threads on the object, and [n] turns. *)
Definition turn (p : Stream * list (Stream -> Stream)) : Stream * list (Stream -> Stream) :=
  match snd p with
  | [] => (fst p, [])
  | f :: rest => (f (fst p), rest)
  end.
Definition turns (n : nat) (p : Stream * list (Stream -> Stream)) :
  Stream * list (Stream -> Stream) := Nat.iter n turn p.

(** What the unblock sequence of an object with socket address [addr] and
    accepted peer handle [peer] may log: sockets of throwaway objects and
    their connection attempts to [addr] with the sleeps of 10 ms between
    them, writes of ten zero bytes on [peer], shutdown and close of [peer],
    sleeps of 250 ms, and diagnostics; no bind, listen, accept, unlink or
    read. *)
Definition unblock_event (addr : sockaddr_un) (peer : Z) (e : event) : Prop :=
  match e with
  | Socket _ => True
  | Connect _ a _ => a = addr
  | WriteFd fd data _ _ =>
      fd = peer /\ data = [Byte.x00; Byte.x00; Byte.x00; Byte.x00; Byte.x00;
                          Byte.x00; Byte.x00; Byte.x00; Byte.x00; Byte.x00]
  | Shutdown fd => fd = peer
  | CloseFd fd => fd = peer
  | Delay ms => ms = 10 \/ ms = 250
  | Diag _ => True
  | _ => False
  end.


(** A step of another thread that leaves the socket name and the accepted
    peer handle alone. *)
Definition bystander (f : Stream -> Stream) : Prop :=
  forall x, socketPath (f x) = socketPath x /\ sender_fd (f x) = sender_fd x.

(** A step of another thread that leaves the object unhappy, as the loop of
    a concurrent [close] does. *)
Definition sour (f : Stream -> Stream) : Prop :=
  forall x, happy (f x) = false.

(** ** Relations kept along a run *)

(** A relation [R] between the object and the world before a call and
    after it (or where it waits for ever) that the computation [m] keeps. *)
Definition keeps (R : Stream -> World -> Stream -> World -> Prop) {A} (m : M A) : Prop :=
  forall s w, R s w (state_of (m s w)) (world_of (m s w)).

(** A step of some thread that moves the object along the order [I]. *)
Definition within (I : Stream -> Stream -> Prop) (f : Stream -> Stream) : Prop :=
  forall s, I s (f s).

(** If the other threads move the object along [I], so has this run, and
    so will the other threads go on doing. *)
Definition rely (I : Stream -> Stream -> Prop)
           (s : Stream) (w : World) (s' : Stream) (w' : World) : Prop :=
  Forall (within I) (env w) -> I s s' /\ Forall (within I) (env w').

(** [happy] may only fall and [closed] may only rise. *)
Definition flags_le (s s' : Stream) : Prop :=
  (happy s' = true -> happy s = true) /\ (closed s = true -> closed s' = true).

(** A step of another thread under which [happy] only falls and [closed]
    only rises, as under every method of the class. *)
Definition tame : (Stream -> Stream) -> Prop := within flags_le.

(** A step of another thread that leaves the two flags and the role alone. *)
Definition neutral (f : Stream -> Stream) : Prop :=
  forall x, happy (f x) = happy x /\ closed (f x) = closed x /\
            openedAsReader (f x) = openedAsReader x.

(** The flags are as before, and the role, once [role], stays so. *)
Definition same_flags (role : bool) (s s' : Stream) : Prop :=
  happy s' = happy s /\ closed s' = closed s /\
  (openedAsReader s = role -> openedAsReader s' = role).

(** The log after is the log before with more at its end. *)
Definition extends (s : Stream) (w : World) (s' : Stream) (w' : World) : Prop :=
  exists tr, trace w' = trace w ++ tr.

(** An object on which [read] delivers nothing. *)
Definition dead (s : Stream) : Prop := closed s = true \/ happy s = false.

(** A computation that returns from every object in every world. *)
Definition total {A} (m : M A) : Prop := forall s w, returns (m s w) = true.

(** ** Counting and the throwaway object *)

(** Failed connection attempts in a log. *)
Definition connect_failures (tr : list event) : nat :=
  count (fun e => match e with Connect _ _ r => negb (r =? 0) | _ => false end) tr.

(** An event that counts neither as a socket, nor as a write, nor as a
    sleep of 250 ms. *)
Definition plain (e : event) : Prop :=
  is_socket e = false /\ is_write e = false /\ is_nap e = false.

(** The throwaway object between its calls: opened as sender, with no
    interrupt in flight, and its descriptor either the peer handle it was
    pointed at or the sentinel. *)
Definition tmp_ok (peer : Z) (tmp : Stream) : Prop :=
  openedAsReader tmp = false /\ interrupting tmp = false /\
  (reader_fd tmp = peer \/ reader_fd tmp = -1).

(** ** Further vocabulary *)

(** What [open(false)] logs for the socket name before it binds: the stale
    name is unlinked, unless the name is empty. *)
Definition unlinked (path : string) : list event :=
  match path with
  | EmptyString => []
  | _ => [Unlink path]
  end.

(** The event hands no address to the system but [addr]. *)
Definition to_addr (addr : sockaddr_un) (e : event) : Prop :=
  match e with
  | Connect _ a _ | Bind _ a _ => a = addr
  | _ => True
  end.

(** What a caller of [interrupt] logs while it waits [n] times for the
    actor: the debug line and the sleep of 100 ms, [n] times over. *)
Definition polls (n : nat) : list event :=
  List.concat (repeat [Diag "waiting for dgram interrupt to be finished..."; Delay 100] n).

(** Shutdowns and closes of a descriptor in a log. *)
Definition is_shutdown (e : event) : bool :=
  match e with Shutdown _ => true | _ => false end.
Definition is_closefd (e : event) : bool :=
  match e with CloseFd _ => true | _ => false end.

(** The number of times [close] shuts down and closes descriptor [fd]:
    once if it is above 0, else never. *)
Definition due (fd : Z) : nat := if fd >? 0 then 1%nat else 0%nat.

(** An event that is neither a shutdown nor a close of a descriptor. *)
Definition calm (e : event) : Prop :=
  is_shutdown e = false /\ is_closefd e = false.

(** The sender-side handle is as before. *)
Definition same_peer (s s' : Stream) : Prop := sender_fd s' = sender_fd s.

(** The socket name, the monitor buffer and the two addresses are as
    before. *)
Definition same_tap (s s' : Stream) : Prop :=
  socketPath s' = socketPath s /\ monitor s' = monitor s /\
  localAddress s' = localAddress s /\ remoteAddress s' = remoteAddress s.

(** The socket name is as before. *)
Definition same_name (s s' : Stream) : Prop := socketPath s' = socketPath s.

(** The calls other than the four that store a monitor buffer or an
    address. *)
Definition transport (c : call) : bool :=
  match c with
  | SetMonitor _ | RemoveMonitor | SetLocalAddress _ | SetRemoteAddress _ => false
  | _ => true
  end.



(** The flag [interrupting] is as before. *)
Definition same_interrupting (s s' : Stream) : Prop :=
  interrupting s' = interrupting s.

(** Once the other threads have finished they do not come back. *)
Definition quiet (s : Stream) (w : World) (s' : Stream) (w' : World) : Prop :=
  env w = [] -> env w' = [].

(** An object whose [interrupting] flag is set only while [closed] is. *)
Definition guarded (s : Stream) : Prop :=
  interrupting s = true -> closed s = true.

(** A step that leaves a guarded object guarded. *)
Definition guard_kept (s s' : Stream) : Prop := guarded s -> guarded s'.

(** ** Objects and answers of the examples *)

(** The socket name of the examples. *)
Definition test_sock : string := "/tmp/test.sock".

(** Answers for a receiver that opens (socket 3, bind, listen, accept 4)
    and then runs the unblock sequence: three throwaway sockets that
    connect at once, the first write passing and the next two failing with
    [EBADF] on the handle the first turn has closed. *)
Definition receiver_script : list (Z * Z) :=
  [(3, 0); (0, 0); (0, 0); (4, 0);
   (5, 0); (0, 0); (10, 0);
   (5, 0); (0, 0); (-1, 9);
   (5, 0); (0, 0); (-1, 9)].

(** A receiver as a successful [open(false)] leaves it. *)
Definition a_receiver : Stream :=
  mkStream test_sock 3 4 true false false true [] EmptyString EmptyString.

(** A sender as a successful [open(true)] leaves it. *)
Definition a_sender : Stream :=
  mkStream test_sock 3 (-1) false false false true [] EmptyString EmptyString.

(** A world whose [::write] times out and whose [perror] leaves [EBADF]. *)
Definition a_clobbering : World :=
  mkWorld (clobbered 9 (script [(-1, 110)])) 0 [] [].

(** An object on which another thread is the actor of an interrupt. *)
Definition a_waiter : Stream :=
  set_interrupting true (set_closed true a_receiver).

(** A socket name too long for [sun_path]. *)
Definition long_sock : string :=
  String.concat "/" (repeat ("0123456789abcdef")%string 8).

(** * Properties *)

Lemma set_env_same (w : World) : set_env (env w) w = w.
Proof. destruct w; reflexivity. Qed.

Lemma to_int_small (z : Z) : - 2 ^ 31 <= z < 2 ^ 31 -> to_int z = z.
Proof.
  intros H. unfold to_int.
  rewrite Z.mod_small by lia. lia.
Qed.

Lemma trace_log (e : event) (w : World) : trace (log e w) = trace w ++ [e].
Proof. reflexivity. Qed.

Lemma resumed_trace e s w : trace (snd (resumed e s w)) = trace w ++ [e].
Proof. unfold resumed. destruct (env w); reflexivity. Qed.

Lemma resumed_alone e s w :
  env w = [] ->
  fst (resumed e s w) = s /\ env (snd (resumed e s w)) = [].
Proof. intros E. unfold resumed. rewrite E. cbn. auto. Qed.

Lemma since_app (w w' : World) (tr : list event) :
  trace w' = trace w ++ tr -> since w w' = tr.
Proof.
  intros H. unfold since. rewrite H.
  rewrite skipn_app, skipn_all, Nat.sub_diag. reflexivity.
Qed.

Lemma count_app p tr1 tr2 : count p (tr1 ++ tr2) = (count p tr1 + count p tr2)%nat.
Proof. unfold count. rewrite filter_app, length_app. reflexivity. Qed.

(** ** The I/O path *)

Lemma read_unfold (len : Z) (s : Stream) (w : World) :
  read len s w =
  if closed s || negb (happy s) then Ret (-1) s w
  else
    let r := ret_val (os w (tick w)) in
    let (s1, w1) := resumed (ReadFd (io_fd s) len r) s w in
    if closed s1 || (to_int r =? 0) then Ret (-1) (set_happy false s1) w1
    else if to_int r <? 0
         then Ret (-1) s1 (log (Diag "unixSock::read():Packet payload") w1)
         else Ret (to_int r) s1 w1.
Proof.
  unfold read, bind, get, ret, sys_read, ask, emit, yield, modify, diag, resumed, io_fd.
  destruct (closed s || negb (happy s)); [reflexivity|].
  unfold log, next; cbn. destruct (env w) as [|f rest]; cbn.
  - destruct (closed s || _); [reflexivity|]. destruct (_ <? 0); reflexivity.
  - destruct (closed (f s) || _); [reflexivity|]. destruct (_ <? 0); reflexivity.
Qed.

(** C6, as the code has it.  [read] answers -1 at once, touching nothing,
    when the object is closed or unhappy.  Otherwise it makes one [::read]
    on the descriptor of its role (the accepted peer handle for a receiver,
    the connect handle for a sender).  A result of zero bytes clears
    [happy] and gives -1, and so does any result on an object that has been
    closed while the call was blocked.  On an object still not closed when
    the call comes back (as it is when no other thread acts meanwhile) a
    negative result gives -1 and leaves the object, [happy] included, as it
    is, and a positive one is returned. *)
Theorem read_contract (len : Z) (s : Stream) (w : World) :
  (closed s = true \/ happy s = false -> read len s w = Ret (-1) s w) /\
  (closed s = false -> happy s = true ->
   let fd := if openedAsReader s then sender_fd s else reader_fd s in
   let r := ret_val (os w (tick w)) in
   let s1 := fst (resumed (ReadFd fd len r) s w) in
   let w1 := snd (resumed (ReadFd fd len r) s w) in
   trace w1 = trace w ++ [ReadFd fd len r] /\
   tick w1 = S (tick w) /\
   (env w = [] -> s1 = s) /\
   (to_int r = 0 ->
    read len s w = Ret (-1) (set_happy false s1) w1) /\
   (closed s1 = true ->
    read len s w = Ret (-1) (set_happy false s1) w1) /\
   (closed s1 = false -> to_int r < 0 ->
    read len s w = Ret (-1) s1 (log (Diag "unixSock::read():Packet payload") w1)) /\
   (closed s1 = false -> 0 < to_int r ->
    read len s w = Ret (to_int r) s1 w1)).
Proof.
  split.
  - intros H. rewrite read_unfold.
    destruct H as [H|H]; rewrite H; [reflexivity|].
    rewrite orb_true_r. reflexivity.
  - intros Hc Hh fd r s1 w1.
    assert (E : resumed (ReadFd fd len r) s w = (s1, w1))
      by (subst s1 w1; destruct (resumed _ s w); reflexivity).
    assert (Hread : read len s w =
                    if closed s1 || (to_int r =? 0) then Ret (-1) (set_happy false s1) w1
                    else if to_int r <? 0
                         then Ret (-1) s1 (log (Diag "unixSock::read():Packet payload") w1)
                         else Ret (to_int r) s1 w1).
    { rewrite read_unfold, Hc, Hh. cbn [negb orb].
      fold r. unfold io_fd. fold fd. cbv zeta. rewrite E. reflexivity. }
    split; [subst w1; unfold resumed; destruct (env w); reflexivity|].
    split; [subst w1; unfold resumed; destruct (env w); reflexivity|].
    split; [intros E0; apply (resumed_alone _ s w E0)|].
    rewrite Hread. repeat split.
    + intros Hr. rewrite Hr, orb_true_r. reflexivity.
    + intros Hc1. rewrite Hc1. reflexivity.
    + intros Hc1 Hr. rewrite Hc1. cbn [orb].
      destruct (Z.eqb_spec (to_int r) 0); [lia|].
      destruct (Z.ltb_spec (to_int r) 0); [reflexivity|lia].
    + intros Hc1 Hr. rewrite Hc1. cbn [orb].
      destruct (Z.eqb_spec (to_int r) 0); [lia|].
      destruct (Z.ltb_spec (to_int r) 0); [lia|reflexivity].
Qed.

(** ** What every call keeps

    A relation [R] between the object and the world before and after is
    kept by every method as soon as it is a preorder kept by the primitive
    steps.  The assignments a method makes ([sound]) and the calls it makes
    on a second object ([trusted]) are what an instance has to allow. *)

Section Keeps.

Variable R : Stream -> World -> Stream -> World -> Prop.

Hypothesis R_refl : forall s w, R s w s w.
Hypothesis R_trans : forall s1 w1 s2 w2 s3 w3,
    R s1 w1 s2 w2 -> R s2 w2 s3 w3 -> R s1 w1 s3 w3.

Lemma keeps_ret {A} (a : A) : keeps R (ret a).
Proof. intros s w. apply R_refl. Qed.

Lemma keeps_get : keeps R get.
Proof. intros s w. apply R_refl. Qed.

Lemma keeps_bind {A B} (m : M A) (k : A -> M B) :
  keeps R m -> (forall a, keeps R (k a)) -> keeps R (bind m k).
Proof.
  intros Hm Hk s w. unfold bind.
  specialize (Hm s w). destruct (m s w) as [a s1 w1|s1 w1]; cbn in *.
  - eapply R_trans; [exact Hm|apply Hk].
  - exact Hm.
Qed.

Hypothesis keeps_emit : forall e, keeps R (emit e).
Hypothesis keeps_ask : keeps R ask.
Hypothesis keeps_yield : keeps R yield.

Variable sound : (Stream -> Stream) -> Prop.
Hypothesis keeps_modify : forall f, sound f -> keeps R (modify f).

Variable trusted : forall A, M A -> Prop.
Hypothesis keeps_private :
  forall A (m : M A) tmp, trusted A m -> keeps R (private m tmp).

Ltac keeps_step :=
  first [ apply keeps_ret | apply keeps_get | apply keeps_emit
        | apply keeps_ask | apply keeps_yield
        | apply keeps_modify; assumption
        | apply keeps_private; assumption
        | assumption
        | apply keeps_bind; [|intros ?] ].
Ltac keeps_branch :=
  match goal with
  | |- keeps R (if ?b then _ else _) => destruct b
  | |- keeps R (match ?x with EmptyString => _ | String _ _ => _ end) => destruct x
  end.
Ltac keeps_all := repeat first [ keeps_step | keeps_branch ].

Lemma keeps_delay ms : keeps R (delay ms).
Proof. unfold delay. keeps_all. Qed.

Lemma keeps_diag msg : keeps R (diag msg).
Proof. apply keeps_emit. Qed.

Lemma keeps_sys_socket : keeps R sys_socket.
Proof. unfold sys_socket. keeps_all. Qed.

Lemma keeps_sys_connect fd addr : keeps R (sys_connect fd addr).
Proof. unfold sys_connect. keeps_all. Qed.

Lemma keeps_sys_write fd b : keeps R (sys_write fd b).
Proof. unfold sys_write. keeps_all. Qed.

Lemma keeps_sys_read fd len : keeps R (sys_read fd len).
Proof. unfold sys_read. keeps_all. Qed.

Lemma keeps_connect_loop budget addr attempts :
  keeps R (connect_loop budget addr attempts).
Proof.
  revert attempts. induction budget as [|budget IH]; intros attempts; cbn.
  - apply keeps_ret.
  - destruct (attempts <? 5); [|apply keeps_ret].
    apply keeps_bind; [apply keeps_get|intros s].
    apply keeps_bind; [apply keeps_sys_connect|intros r].
    destruct (r =? 0); [apply keeps_ret|].
    apply keeps_bind; [apply keeps_delay|intros _]. apply IH.
Qed.

Hypothesis sound_reader_fd : forall v, sound (set_reader_fd v).
Hypothesis sound_sender_fd : forall v, sound (set_sender_fd v).
Hypothesis sound_closed : sound (set_closed true).
Hypothesis sound_lock : sound (fun s => set_closed true (set_interrupting true s)).
Hypothesis sound_unlock : sound (set_interrupting false).
Hypothesis sound_happy : sound (set_happy false).
Hypothesis sound_monitor : forall v, sound (set_monitor v).
Hypothesis sound_localAddress : forall v, sound (set_localAddress v).
Hypothesis sound_remoteAddress : forall v, sound (set_remoteAddress v).

Lemma keeps_open sender :
  sound (set_openedAsReader (negb sender)) -> keeps R (open sender).
Proof.
  intros sound_role.
  unfold open, sys_unlink, sys_bind, sys_listen, sys_accept, diag.
  apply keeps_bind; [apply keeps_modify, sound_role|intros _].
  apply keeps_bind; [apply keeps_sys_socket|intros fd].
  apply keeps_bind; [apply keeps_modify, sound_reader_fd|intros _].
  destruct (fd =? -1); [keeps_all|].
  apply keeps_bind; [apply keeps_get|intros s].
  apply keeps_bind; [destruct (socketPath s), sender; keeps_all|intros _].
  destruct sender.
  - apply keeps_bind; [apply keeps_connect_loop|intros n].
    destruct (n >=? 5); keeps_all.
  - repeat first [ apply keeps_modify, sound_sender_fd | keeps_step | keeps_branch ].
Qed.

Lemma keeps_interrupt_lock : keeps R interrupt_lock.
Proof.
  intros s w. unfold interrupt_lock.
  destruct (negb (closed s) && negb (interrupting s) && happy s); cbn.
  - apply (keeps_modify _ sound_lock s w).
  - apply R_refl.
Qed.

Lemma keeps_await turns body : keeps R body -> keeps R (await turns body).
Proof.
  intros Hb. induction turns as [|turns IH]; intros s w; cbn.
  - destruct (interrupting s); [|apply R_refl].
    pose proof (keeps_bind body (fun _ => delay 100) Hb
                  (fun _ => keeps_delay 100) s w) as H.
    destruct ((body ;; delay 100) s w); exact H.
  - destruct (interrupting s); [|apply R_refl].
    apply (keeps_bind body _ Hb).
    intros _. apply keeps_bind; [apply keeps_delay|intros _; exact IH].
Qed.

Lemma keeps_while_interrupting body : keeps R body -> keeps R (while_interrupting body).
Proof. intros Hb s w. apply keeps_await, Hb. Qed.

Section Over.

Variable u : M unit.
Hypothesis keeps_u : keeps R u.

Lemma keeps_interrupt_over : keeps R (interrupt_over u).
Proof.
  unfold interrupt_over.
  apply keeps_bind; [apply keeps_diag|intros _].
  apply keeps_bind; [apply keeps_interrupt_lock|intros act].
  destruct act.
  - apply keeps_bind; [apply keeps_get|intros s].
    apply keeps_bind; [destruct (openedAsReader s); [exact keeps_u|apply keeps_ret]|intros _].
    apply keeps_modify, sound_unlock.
  - apply keeps_while_interrupting, keeps_diag.
Qed.

Lemma keeps_close_over : keeps R (close_over u).
Proof.
  unfold close_over, sys_shutdown, sys_close, sys_unlink.
  apply keeps_bind; [apply keeps_get|intros s].
  apply keeps_bind; [|intros _; apply keeps_modify, sound_happy].
  destruct (reader_fd s >? 0); [|apply keeps_ret].
  apply keeps_bind; [apply keeps_interrupt_over|intros _].
  apply keeps_bind; [apply keeps_modify, sound_closed|intros _].
  apply keeps_bind;
    [apply keeps_while_interrupting, keeps_modify, sound_happy|intros _].
  apply keeps_bind; [apply keeps_get|intros s'].
  apply keeps_bind; [|intros _; apply keeps_modify, sound_happy].
  destruct (openedAsReader s');
    repeat first [ apply keeps_modify, sound_sender_fd
                 | apply keeps_modify, sound_reader_fd | keeps_step ].
Qed.

Lemma keeps_write_over b : keeps R (write_over u b).
Proof.
  unfold write_over.
  apply keeps_bind; [apply keeps_get|intros s].
  destruct (reader_fd s <? 0); [apply keeps_close_over|].
  apply keeps_bind; [apply keeps_sys_write|intros a].
  destruct (to_int (ret_val a) <? 0); [|apply keeps_ret].
  apply keeps_bind; [unfold perror; keeps_all|intros e].
  destruct (negb (e =? ETIMEDOUT)); [apply keeps_close_over|apply keeps_ret].
Qed.

End Over.

Hypothesis trusted_open : trusted _ (open true).
Hypothesis trusted_write : trusted _ (tmp_write empty).
Hypothesis trusted_flush : trusted _ flush.
Hypothesis trusted_close : trusted _ tmp_close.

Lemma keeps_attempt : keeps R attempt.
Proof.
  unfold attempt, attempt_with.
  repeat first [ keeps_step | keeps_branch | apply keeps_delay ].
Qed.

Lemma keeps_unblock : keeps R unblock.
Proof.
  unfold unblock.
  apply keeps_bind; [|intros _; apply keeps_diag].
  generalize 3%nat as ct. induction ct as [|ct IH]; cbn.
  - apply keeps_ret.
  - apply keeps_bind; [apply keeps_get|intros s].
    destruct (happy s); [|apply keeps_ret].
    apply keeps_bind; [apply keeps_attempt|intros _; exact IH].
Qed.

Lemma keeps_interrupt : keeps R interrupt.
Proof. apply keeps_interrupt_over, keeps_unblock. Qed.

Lemma keeps_close : keeps R close.
Proof. apply keeps_close_over, keeps_unblock. Qed.

Lemma keeps_write b : keeps R (write b).
Proof. apply keeps_write_over, keeps_unblock. Qed.

Lemma keeps_read len : keeps R (read len).
Proof.
  unfold read.
  apply keeps_bind; [apply keeps_get|intros s].
  destruct (closed s || negb (happy s)); [apply keeps_ret|].
  apply keeps_bind; [apply keeps_sys_read|intros r].
  apply keeps_bind; [apply keeps_get|intros s'].
  destruct (closed s' || (to_int r =? 0)).
  - apply keeps_bind; [apply keeps_modify, sound_happy|intros _; apply keeps_ret].
  - destruct (to_int r <? 0); [|apply keeps_ret].
    apply keeps_bind; [apply keeps_diag|intros _; apply keeps_ret].
Qed.

Hypothesis sound_openedAsReader : forall v, sound (set_openedAsReader v).

Lemma keeps_run_call c : keeps R (run_call c).
Proof.
  destruct c; cbn;
    unfold flush, isOk, reset, beginPacket, endPacket, getMonitor, setMonitor,
      removeMonitor, getLocalAddress, getRemoteAddress, setLocalAddress,
      setRemoteAddress;
    repeat first [ apply keeps_open, sound_openedAsReader
                 | apply keeps_read | apply keeps_write
                 | apply keeps_interrupt | apply keeps_close
                 | apply keeps_modify, sound_monitor
                 | apply keeps_modify, sound_localAddress
                 | apply keeps_modify, sound_remoteAddress
                 | keeps_step ].
Qed.

Lemma keeps_run cs : keeps R (run cs).
Proof.
  induction cs as [|c cs IH]; cbn.
  - apply keeps_ret.
  - apply keeps_bind; [apply keeps_run_call|intros _; exact IH].
Qed.

End Keeps.

(** ** An order on objects kept by this thread and by the others *)

Section Rely.

Variable I : Stream -> Stream -> Prop.
Hypothesis I_refl : forall s, I s s.
Hypothesis I_trans : forall s1 s2 s3, I s1 s2 -> I s2 s3 -> I s1 s3.

Lemma rely_refl s w : rely I s w s w.
Proof. intros H. split; [apply I_refl|exact H]. Qed.

Lemma rely_trans s1 w1 s2 w2 s3 w3 :
  rely I s1 w1 s2 w2 -> rely I s2 w2 s3 w3 -> rely I s1 w1 s3 w3.
Proof.
  intros H12 H23 H. destruct (H12 H) as [Ha Hb]. destruct (H23 Hb) as [Hc Hd].
  split; [eapply I_trans; eassumption|exact Hd].
Qed.

Lemma rely_emit e : keeps (rely I) (emit e).
Proof. intros s w H. split; [apply I_refl|exact H]. Qed.

Lemma rely_ask : keeps (rely I) ask.
Proof. intros s w H. split; [apply I_refl|exact H]. Qed.

Lemma rely_yield : keeps (rely I) yield.
Proof.
  intros s w H. unfold yield. destruct (env w) as [|f e] eqn:E; cbn.
  - rewrite E. split; [apply I_refl|constructor].
  - inversion H; subst. split; [auto|assumption].
Qed.

Lemma rely_modify f : within I f -> keeps (rely I) (modify f).
Proof. intros Hf s w H. split; [apply Hf|exact H]. Qed.

Lemma rely_private A (m : M A) tmp : True -> keeps (rely I) (private m tmp).
Proof.
  intros _ s w H. unfold private.
  destruct (m tmp (set_env [] w)) as [a tmp' w'|tmp' w']; cbn.
  - unfold bind, yield, ret. cbn. destruct (env w) as [|f e]; cbn.
    + split; [apply I_refl|constructor].
    + inversion H; subst. split; [auto|assumption].
  - split; [apply I_refl|exact H].
Qed.

End Rely.

Lemma flags_le_refl s : flags_le s s.
Proof. split; auto. Qed.

Lemma flags_le_trans s1 s2 s3 : flags_le s1 s2 -> flags_le s2 s3 -> flags_le s1 s3.
Proof. unfold flags_le. intuition. Qed.

Lemma run_flags_le (cs : list call) : keeps (rely flags_le) (run cs).
Proof.
  apply keeps_run with (sound := within flags_le) (trusted := fun _ _ => True).
  1: exact (rely_refl _ flags_le_refl).
  1: exact (rely_trans _ flags_le_trans).
  1: exact (rely_emit _ flags_le_refl).
  1: exact (rely_ask _ flags_le_refl).
  1: exact (rely_yield _ flags_le_refl).
  1: exact (rely_modify flags_le).
  1: exact (rely_private _ flags_le_refl).
  all: first [ exact I | intros; intros s; split; cbn; auto; discriminate ].
Qed.

Lemma run_app (cs1 cs2 : list call) (s : Stream) (w : World) :
  run (cs1 ++ cs2) s w = (run cs1 ;; run cs2) s w.
Proof.
  revert s w. induction cs1 as [|c cs1 IH]; intros s w; cbn.
  - reflexivity.
  - unfold bind in *. destruct (run_call c s w); [apply IH|reflexivity].
Qed.

(** C3.  Take any sequence of calls on one object, and any later point of
    the same run: [happy] is not true there unless it was true before, and
    [closed], once true, is true there.  The other threads are any that
    keep to the same rule. *)
Theorem flags_monotonic (cs1 cs2 : list call) (s : Stream) (w : World) :
  Forall tame (env w) ->
  let s1 := state_of (run cs1 s w) in
  let s2 := state_of (run (cs1 ++ cs2) s w) in
  ((happy s1 = true -> happy s = true) /\ (closed s = true -> closed s1 = true)) /\
  ((happy s2 = true -> happy s1 = true) /\ (closed s1 = true -> closed s2 = true)).
Proof.
  intros H s1 s2.
  destruct (run_flags_le cs1 s w H) as [H1 He].
  split; [exact H1|].
  subst s1 s2. rewrite run_app. unfold bind.
  destruct (run cs1 s w) as [[] s' w'|s' w']; cbn in *.
  - apply (run_flags_le cs2 s' w' He).
  - apply flags_le_refl.
Qed.

(** ** Connection establishment *)

Lemma sys_connect_unfold fd addr s w :
  sys_connect fd addr s w =
  let r := ret_val (os w (tick w)) in
  Ret r (fst (resumed (Connect fd addr r) s w)) (snd (resumed (Connect fd addr r) s w)).
Proof.
  unfold sys_connect, bind, ask, emit, yield, ret, resumed, log, next; cbn.
  destruct (env w); reflexivity.
Qed.

Lemma delay_unfold ms s w :
  delay ms s w =
  match env w with
  | [] => Ret tt s (log (Delay ms) w)
  | f :: rest => Ret tt (f s) (set_env rest (log (Delay ms) w))
  end.
Proof.
  unfold delay, bind, emit, yield, log; cbn. destruct (env w); reflexivity.
Qed.

(** The shape of the connect loop entered with [attempts] = 5 - [budget]:
    it returns, having logged some failed attempts with their sleeps and
    then, unless five attempts have failed by then, one attempt that
    succeeded. *)
Lemma connect_loop_shape (budget : nat) (addr : sockaddr_un) :
  forall (attempts : Z) (s : Stream) (w : World),
    attempts = 5 - Z.of_nat budget ->
    exists (n : Z) (s' : Stream) (w' : World) (fails : list (Z * Z)) (last : list event),
      connect_loop budget addr attempts s w = Ret n s' w' /\
      trace w' = trace w ++ retries addr fails ++ last /\
      Forall (fun p => snd p <> 0) fails /\
      n = attempts + Z.of_nat (List.length fails) /\
      ((n < 5 /\ exists fd, last = [Connect fd addr 0]) \/ (n = 5 /\ last = [])) /\
      (env w = [] ->
       s' = s /\ env w' = [] /\ Forall (fun p => fst p = reader_fd s) fails /\
       (n < 5 -> last = [Connect (reader_fd s) addr 0])).
Proof.
  induction budget as [|budget IH]; intros attempts s w Ha.
  - exists attempts, s, w, [], []. cbn.
    rewrite app_nil_r. cbn in Ha. repeat split; auto; try lia.
  - cbn [connect_loop].
    destruct (Z.ltb_spec attempts 5) as [Hlt|Hge]; [|lia].
    unfold bind at 1, get. unfold bind at 1. rewrite sys_connect_unfold. cbv zeta.
    set (r := ret_val (os w (tick w))).
    set (e := Connect (reader_fd s) addr r). cbv beta iota.
    destruct (r =? 0) eqn:Hr; [apply Z.eqb_eq in Hr|apply Z.eqb_neq in Hr].
    + unfold ret.
      exists attempts, (fst (resumed e s w)), (snd (resumed e s w)), [], [e].
      rewrite resumed_trace. cbn.
      split; [reflexivity|]. split; [reflexivity|]. split; [constructor|].
      split; [lia|]. split.
      * left. split; [lia|]. exists (reader_fd s). subst e. rewrite Hr. reflexivity.
      * intros E. destruct (resumed_alone e s w E) as [H1 H2].
        repeat split; auto. intros _. subst e. rewrite Hr. reflexivity.
    + unfold bind at 1. rewrite delay_unfold.
      set (s1 := fst (resumed e s w)). set (w1 := snd (resumed e s w)).
      assert (Ht1 : trace w1 = trace w ++ [e]) by apply resumed_trace.
      assert (Hq : forall (s2 : Stream) (w2 : World),
                 trace w2 = trace w1 ++ [Delay 10] ->
                 (env w = [] -> s2 = s /\ env w2 = []) ->
                 exists n s' w' fails last,
                   connect_loop budget addr (attempts + 1) s2 w2 = Ret n s' w' /\
                   trace w' = trace w ++ retries addr fails ++ last /\
                   Forall (fun p => snd p <> 0) fails /\
                   n = attempts + Z.of_nat (List.length fails) /\
                   ((n < 5 /\ exists fd, last = [Connect fd addr 0]) \/ (n = 5 /\ last = [])) /\
                   (env w = [] ->
                    s' = s /\ env w' = [] /\ Forall (fun p => fst p = reader_fd s) fails /\
                    (n < 5 -> last = [Connect (reader_fd s) addr 0]))).
      { intros s2 w2 Ht2 Hal.
        destruct (IH (attempts + 1) s2 w2 ltac:(lia))
          as (n & s' & w' & fails & last & Hrun & Htr & Hf & Hn & Hlast & Hq).
        exists n, s', w', ((reader_fd s, r) :: fails), last.
        split; [exact Hrun|]. split.
        { rewrite Htr, Ht2, Ht1. subst e. cbn. rewrite <- !app_assoc. reflexivity. }
        split; [constructor; [exact Hr|exact Hf]|].
        split; [cbn [List.length]; lia|].
        split; [exact Hlast|].
        intros E. destruct (Hal E) as [-> E2].
        destruct (Hq E2) as (-> & E3 & Hfd & Hl).
        repeat split; auto. }
      destruct (env w1) as [|f rest] eqn:E1.
      * apply Hq; [reflexivity|].
        intros E. destruct (resumed_alone e s w E) as [Hs _].
        split; [exact Hs|exact E1].
      * apply Hq; [reflexivity|].
        intros E. destruct (resumed_alone e s w E) as [_ He].
        fold w1 in He. congruence.
Qed.

Lemma open_sender_unfold (s : Stream) (w : World) :
  open true s w =
  let fd := ret_val (os w (tick w)) in
  let s0 := set_reader_fd fd (set_openedAsReader false s) in
  let w0 := log (Socket fd) (next w) in
  if fd =? -1 then Ret false s0 (log (Diag "UnixSockTwoWayStream error:") w0)
  else
    match connect_loop 5 (make_addr (socketPath s)) 0 s0 w0 with
    | Ret attempts s' w' =>
        if attempts >=? 5
        then Ret false s'
               (log (Diag "UnixSockTwoWayStream connect error, I tried 5 times...") w')
        else Ret true s' w'
    | Spin s' w' => Spin s' w'
    end.
Proof.
  unfold open, sys_socket, bind, modify, ask, emit, ret, get, diag.
  cbn -[connect_loop make_addr].
  destruct (ret_val (os w (tick w)) =? -1); [reflexivity|].
  change (socketPath (set_reader_fd (ret_val (os w (tick w)))
                        (set_openedAsReader false s))) with (socketPath s).
  destruct (socketPath s) as [|c path];
    match goal with
    | |- context [connect_loop 5 ?a 0 ?x ?y] => destruct (connect_loop 5 a 0 x y) as [n ? ?|? ?]
    end; try reflexivity; destruct (n >=? 5); reflexivity.
Qed.

Lemma connect_failures_retries addr fails :
  Forall (fun p => snd p <> 0) fails ->
  connect_failures (retries addr fails) = List.length fails.
Proof.
  induction 1 as [|[fd r] fails Hr _ IH]; [reflexivity|].
  change (retries addr ((fd, r) :: fails))
    with ([Connect fd addr r; Delay 10] ++ retries addr fails).
  unfold connect_failures in *. rewrite count_app, IH.
  unfold count. cbn in *.
  destruct (Z.eqb_spec r 0); [contradiction|]. reflexivity.
Qed.

Lemma count_connect_retries addr fails :
  count is_connect (retries addr fails) = List.length fails.
Proof.
  induction fails as [|[fd r] fails IH]; [reflexivity|].
  change (retries addr ((fd, r) :: fails))
    with ([Connect fd addr r; Delay 10] ++ retries addr fails).
  rewrite count_app, IH. reflexivity.
Qed.

(** C8, as the code has it.  Once [open(true)] has its socket, it returns;
    what it logs after the socket is a run of failed connection attempts,
    each followed by a sleep of 10 ms, then, when it returns true, the one
    attempt that succeeded and nothing more; at most 5 attempts are made;
    and it returns false exactly when 5 attempts have failed. *)
Theorem open_sender_retries (s : Stream) (w : World) :
  ret_val (os w (tick w)) <> -1 ->
  exists (b : bool) (s' : Stream) (w' : World) (fails : list (Z * Z)) (last : list event),
    open true s w = Ret b s' w' /\
    since w w' =
      Socket (ret_val (os w (tick w))) ::
      retries (make_addr (socketPath s)) fails ++ last ++
      (if b then []
       else [Diag "UnixSockTwoWayStream connect error, I tried 5 times..."]) /\
    Forall (fun p => snd p <> 0) fails /\
    (b = true -> exists fd, last = [Connect fd (make_addr (socketPath s)) 0]) /\
    (b = false -> last = []) /\
    (count is_connect (since w w') <= 5)%nat /\
    connect_failures (since w w') = List.length fails /\
    (b = false <-> connect_failures (since w w') = 5%nat).
Proof.
  intros Hfd. rewrite open_sender_unfold. cbv zeta.
  destruct (Z.eqb_spec (ret_val (os w (tick w))) (-1)) as [|_]; [contradiction|].
  set (fd := ret_val (os w (tick w))).
  set (s0 := set_reader_fd fd (set_openedAsReader false s)).
  set (w0 := log (Socket fd) (next w)).
  set (addr := make_addr (socketPath s)).
  destruct (connect_loop_shape 5 addr 0 s0 w0 eq_refl)
    as (n & s' & w' & fails & last & Hrun & Htr & Hf & Hn & Hlast & _).
  rewrite Hrun.
  assert (Hc : forall tail, count is_connect tail = 0%nat ->
             count is_connect (Socket fd :: retries addr fails ++ last ++ tail)
             = (List.length fails + List.length last)%nat).
  { intros tail Ht. change (Socket fd :: ?l) with ([Socket fd] ++ l).
    rewrite !count_app, count_connect_retries, Ht.
    destruct Hlast as [[_ [fd' ->]]|[_ ->]]; cbn; lia. }
  assert (Hk : forall tail, connect_failures tail = 0%nat ->
             connect_failures (Socket fd :: retries addr fails ++ last ++ tail)
             = List.length fails).
  { intros tail Ht. change (Socket fd :: ?l) with ([Socket fd] ++ l).
    unfold connect_failures in *.
    rewrite !count_app. fold (connect_failures (retries addr fails)).
    rewrite connect_failures_retries by assumption. rewrite Ht.
    destruct Hlast as [[_ [fd' ->]]|[_ ->]]; cbn; lia. }
  destruct (Z.geb_spec n 5) as [Hge|Hlt].
  - destruct Hlast as [[Hlt _]|[Hn5 ->]]; [lia|].
    set (d := Diag "UnixSockTwoWayStream connect error, I tried 5 times...").
    exists false, s', (log d w'), fails, [].
    assert (Hs : since w (log d w') = Socket fd :: retries addr fails ++ [] ++ [d]).
    { apply since_app. rewrite trace_log, Htr. subst w0. cbn.
      rewrite <- !app_assoc. reflexivity. }
    rewrite Hs.
    split; [reflexivity|]. split; [reflexivity|]. split; [exact Hf|].
    split; [discriminate|]. split; [reflexivity|].
    rewrite Hc, Hk by reflexivity. cbn [List.length].
    split; [lia|]. split; [reflexivity|]. split; [intros _; lia|reflexivity].
  - destruct Hlast as [[_ [fd' ->]]|[Hn5 _]]; [|lia].
    exists true, s', w', fails, [Connect fd' addr 0].
    assert (Hs : since w w' = Socket fd :: retries addr fails ++ [Connect fd' addr 0] ++ []).
    { apply since_app. rewrite Htr. subst w0. cbn.
      rewrite <- !app_assoc. reflexivity. }
    rewrite Hs.
    split; [reflexivity|]. split; [reflexivity|]. split; [exact Hf|].
    split; [intros _; exists fd'; reflexivity|]. split; [discriminate|].
    rewrite Hc, Hk by reflexivity. cbn [List.length].
    split; [lia|]. split; [reflexivity|]. split; [discriminate|lia].
Qed.

(** ** Interrupt and close on the sender side *)

Lemma await_idle turns body s w :
  interrupting s = false -> await turns body s w = Ret tt s w.
Proof. intros H. destruct turns; cbn; rewrite H; reflexivity. Qed.

Lemma interrupt_over_unfold (u : M unit) (s : Stream) (w : World) :
  interrupt_over u s w =
  let w0 := log (Diag " interrupting socket") w in
  if negb (closed s) && negb (interrupting s) && happy s then
    let s0 := set_closed true (set_interrupting true s) in
    if openedAsReader s then
      match u s0 w0 with
      | Ret _ s' w' => Ret tt (set_interrupting false s') w'
      | Spin s' w' => Spin s' w'
      end
    else Ret tt (set_interrupting false s0) w0
  else
    while_interrupting (diag "waiting for dgram interrupt to be finished...") s w0.
Proof.
  unfold interrupt_over, bind, diag, emit, interrupt_lock, get, modify, ret.
  cbv zeta.
  destruct (negb (closed s) && negb (interrupting s) && happy s); [|reflexivity].
  change (openedAsReader (set_closed true (set_interrupting true s)))
    with (openedAsReader s).
  destruct (openedAsReader s); reflexivity.
Qed.

(** On an object opened as sender, with no interrupt in flight, [interrupt]
    makes no system call: it closes the object if it was open and happy. *)
Lemma interrupt_sender (u : M unit) (s : Stream) (w : World) :
  openedAsReader s = false -> interrupting s = false ->
  interrupt_over u s w =
  Ret tt (if negb (closed s) && happy s then set_closed true s else s)
      (log (Diag " interrupting socket") w).
Proof.
  intros Hr Hi. rewrite interrupt_over_unfold. cbv zeta. rewrite Hr, Hi.
  rewrite andb_true_r.
  destruct (negb (closed s) && happy s).
  - f_equal. destruct s; cbn in *; subst; reflexivity.
  - unfold while_interrupting. apply await_idle. exact Hi.
Qed.

(** The same for [close]: no call when the descriptor is not above 0, else
    shutdown and close of the connect handle. *)
Lemma close_sender (u : M unit) (s : Stream) (w : World) :
  openedAsReader s = false -> interrupting s = false ->
  close_over u s w =
  if reader_fd s >? 0 then
    Ret tt (set_happy false (set_reader_fd (-1) (set_closed true s)))
        (log (CloseFd (reader_fd s))
           (log (Shutdown (reader_fd s)) (log (Diag " interrupting socket") w)))
  else Ret tt (set_happy false s) w.
Proof.
  intros Hr Hi. unfold close_over. unfold bind at 1, get. unfold bind at 1.
  destruct (reader_fd s >? 0) eqn:Hfd; [|reflexivity].
  unfold bind at 1. rewrite (interrupt_sender u s w Hr Hi).
  unfold bind, modify, while_interrupting, get, sys_shutdown, sys_close, emit.
  rewrite await_idle by (destruct (negb (closed s) && happy s); exact Hi).
  cbn. destruct (negb (closed s) && happy s); cbn; rewrite Hr; cbn;
    f_equal; destruct s; cbn in *; subst; reflexivity.
Qed.

Lemma write_over_unfold (u : M unit) (b : list Byte.byte) (s : Stream) (w : World) :
  write_over u b s w =
  if reader_fd s <? 0 then close_over u s w
  else
    let a := os w (tick w) in
    let e := WriteFd (io_fd s) b (ret_val a) (errno a) in
    let s1 := fst (resumed e s w) in
    let w1 := snd (resumed e s w) in
    if to_int (ret_val a) <? 0 then
      let w2 := log (Diag "unixSock::write:Packet payload") w1 in
      if negb (errno_after_perror a =? ETIMEDOUT) then close_over u s1 w2
      else Ret tt s1 w2
    else Ret tt s1 w1.
Proof.
  unfold write_over. unfold bind at 1, get.
  destruct (reader_fd s <? 0); [reflexivity|].
  unfold sys_write, perror, bind, ask, emit, yield, ret, resumed, io_fd. cbv zeta.
  change (env (log ?e (next w))) with (env w).
  destruct (env w); cbn [fst snd];
    (destruct (to_int (ret_val (os w (tick w))) <? 0); [|reflexivity]);
    destruct (negb (errno_after_perror (os w (tick w)) =? ETIMEDOUT)); reflexivity.
Qed.

(** On an object opened as sender the three methods do not depend on the
    body of [if (openedAsReader)]: the throwaway object of [interrupt] runs
    the methods of the class. *)
Lemma interrupt_over_sender (u u' : M unit) (s : Stream) (w : World) :
  openedAsReader s = false -> interrupt_over u s w = interrupt_over u' s w.
Proof.
  intros Hr. rewrite !interrupt_over_unfold. cbv zeta. rewrite Hr. reflexivity.
Qed.

Lemma close_over_sender (u u' : M unit) (s : Stream) (w : World) :
  openedAsReader s = false -> close_over u s w = close_over u' s w.
Proof.
  intros Hr. unfold close_over, bind, get.
  destruct (reader_fd s >? 0); [|reflexivity].
  rewrite (interrupt_over_sender u u' s w Hr). reflexivity.
Qed.

Lemma write_over_sender (u u' : M unit) (b : list Byte.byte) (s : Stream) (w : World) :
  openedAsReader s = false -> env w = [] ->
  write_over u b s w = write_over u' b s w.
Proof.
  intros Hr E. rewrite !write_over_unfold. cbv zeta.
  destruct (reader_fd s <? 0); [apply close_over_sender, Hr|].
  destruct (to_int (ret_val (os w (tick w))) <? 0); [|reflexivity].
  destruct (negb (errno_after_perror (os w (tick w)) =? ETIMEDOUT)); [|reflexivity].
  match goal with
  | |- close_over u (fst (resumed ?e s w)) _ = _ =>
      destruct (resumed_alone e s w E) as [Hs _]; rewrite Hs
  end.
  apply close_over_sender, Hr.
Qed.

(** ** The unblock sequence *)

Lemma private_unfold {A} (m : M A) (tmp s : Stream) (w : World) :
  private m tmp s w =
  match m tmp (set_env [] w) with
  | Ret a tmp' w' =>
      Ret (a, tmp') (fst (turn (s, env w))) (set_env (snd (turn (s, env w))) w')
  | Spin _ w' => Spin s (set_env (env w) w')
  end.
Proof.
  unfold private. destruct (m tmp (set_env [] w)) as [a tmp' w'|tmp' w']; [|reflexivity].
  unfold bind, yield, ret, turn. cbn.
  destruct (env w) as [|f rest]; cbn; [|reflexivity].
  destruct w'; reflexivity.
Qed.

Lemma delay_turn ms s w :
  delay ms s w =
  Ret tt (fst (turn (s, env w))) (set_env (snd (turn (s, env w))) (log (Delay ms) w)).
Proof.
  rewrite delay_unfold. unfold turn. cbn.
  destruct (env w) as [|f rest] eqn:E; cbn; [|reflexivity].
  f_equal. destruct w; cbn in *. subst. reflexivity.
Qed.

Lemma turns_S n p : turns (S n) p = turn (turns n p).
Proof. reflexivity. Qed.

Lemma turns_quiet n s : turns n (s, []) = (s, []).
Proof. induction n; [reflexivity|]. rewrite turns_S, IHn. reflexivity. Qed.

Lemma turns_bystander n s e :
  Forall bystander e ->
  socketPath (fst (turns n (s, e))) = socketPath s /\
  sender_fd (fst (turns n (s, e))) = sender_fd s /\
  Forall bystander (snd (turns n (s, e))).
Proof.
  intros H. induction n as [|n (Hp & Hf & He)]; [cbn; auto|].
  rewrite turns_S. destruct (turns n (s, e)) as [s1 e1]. cbn in *.
  unfold turn; cbn. destruct e1 as [|f e1]; cbn; [auto|].
  inversion He as [|? ? Hb He1]; subst. destruct (Hb s1) as [H1 H2].
  repeat split; congruence || assumption.
Qed.

Lemma turns_sour n s e :
  Forall sour e -> e <> [] ->
  happy (fst (turns (S n) (s, e))) = false /\ Forall sour (snd (turns (S n) (s, e))).
Proof.
  intros H Hne. induction n as [|n [Hh He]].
  - destruct e as [|f e]; [contradiction|]. cbn.
    inversion H; subst. split; auto.
  - rewrite turns_S. destruct (turns (S n) (s, e)) as [s1 e1]. cbn in *.
    unfold turn; cbn. destruct e1 as [|f e1]; cbn; [auto|].
    inversion He; subst. split; auto.
Qed.

Lemma count_plain tr :
  Forall plain tr ->
  count is_socket tr = 0%nat /\ count is_write tr = 0%nat /\ count is_nap tr = 0%nat.
Proof.
  induction 1 as [|e tr (H1 & H2 & H3) _ (I1 & I2 & I3)]; [auto|].
  unfold count in *. cbn. rewrite H1, H2, H3. auto.
Qed.

Lemma retries_events addr peer fails :
  Forall (unblock_event addr peer) (retries addr fails) /\
  Forall plain (retries addr fails).
Proof.
  induction fails as [|[fd r] fails [I1 I2]]; cbn; [split; constructor|].
  split; repeat constructor; auto.
Qed.

Lemma tmp_close_run (addr : sockaddr_un) (peer : Z) (tmp : Stream) (w : World) :
  tmp_ok peer tmp ->
  exists tmp' w' tr,
    tmp_close tmp w = Ret tt tmp' w' /\ tmp_ok peer tmp' /\ env w' = env w /\
    trace w' = trace w ++ tr /\
    Forall (unblock_event addr peer) tr /\ Forall plain tr.
Proof.
  intros (Hr & Hi & Hfd). unfold tmp_close. rewrite close_sender by assumption.
  destruct (reader_fd tmp >? 0) eqn:Hpos.
  - assert (Hp : reader_fd tmp = peer) by (destruct Hfd as [H|H]; [exact H|rewrite H in Hpos; discriminate]).
    eexists _, _, [Diag _; Shutdown _; CloseFd _].
    split; [reflexivity|]. split; [|split; [reflexivity|]].
    + unfold tmp_ok. cbn. auto.
    + split; [cbn; rewrite <- !app_assoc; reflexivity|].
      split; repeat constructor; cbn; auto.
  - eexists _, _, []. split; [reflexivity|]. split; [|split; [reflexivity|]].
    + unfold tmp_ok. cbn. auto.
    + split; [now rewrite app_nil_r|]. split; constructor.
Qed.

Lemma tmp_write_run (addr : sockaddr_un) (peer : Z) (tmp : Stream) (w : World) :
  tmp_ok peer tmp -> env w = [] ->
  exists tmp' w' tr,
    tmp_write empty tmp w = Ret tt tmp' w' /\ tmp_ok peer tmp' /\ env w' = [] /\
    trace w' = trace w ++ tr /\
    Forall (unblock_event addr peer) tr /\
    count is_socket tr = 0%nat /\ count is_nap tr = 0%nat /\
    (count is_write tr <= 1)%nat /\
    (reader_fd tmp = peer -> 0 <= peer -> count is_write tr = 1%nat).
Proof.
  intros Hok E. unfold tmp_write. rewrite write_over_unfold.
  destruct (reader_fd tmp <? 0) eqn:Hneg.
  - destruct (tmp_close_run addr peer tmp w Hok)
      as (tmp' & w' & tr & Hrun & Hok' & He & Htr & Hev & Hpl).
    exists tmp', w', tr. destruct (count_plain tr Hpl) as (C1 & C2 & C3).
    apply Z.ltb_lt in Hneg.
    repeat split; try assumption; try congruence; try apply Hok'; lia.
  - cbv zeta.
    set (a := os w (tick w)).
    set (e := WriteFd (io_fd tmp) empty (ret_val a) (errno a)).
    destruct (resumed_alone e tmp w E) as [Hs He].
    pose proof (resumed_trace e tmp w) as Ht.
    rewrite Hs.
    assert (Hio : io_fd tmp = peer).
    { destruct Hok as (Hr & _ & [H|H]); unfold io_fd; rewrite Hr; [exact H|].
      rewrite H in Hneg. discriminate. }
    assert (Hue : unblock_event addr peer e) by (subst e; cbn; auto).
    assert (Hone : forall tr, Forall plain tr ->
              count is_socket (e :: tr) = 0%nat /\ count is_nap (e :: tr) = 0%nat /\
              (count is_write (e :: tr) <= 1)%nat /\
              (reader_fd tmp = peer -> 0 <= peer -> count is_write (e :: tr) = 1%nat)).
    { intros tr Hpl. destruct (count_plain tr Hpl) as (C1 & C2 & C3).
      unfold count in *. cbn. rewrite C1, C2, C3. auto. }
    destruct (to_int (ret_val a) <? 0).
    + set (d := Diag "unixSock::write:Packet payload").
      destruct (negb (errno_after_perror a =? ETIMEDOUT)).
      * destruct (tmp_close_run addr peer tmp (log d (snd (resumed e tmp w))) Hok)
          as (tmp' & w' & tr & Hrun & Hok' & He' & Htr & Hev & Hpl).
        exists tmp', w', (e :: d :: tr).
        split; [exact Hrun|]. split; [exact Hok'|].
        split; [rewrite He'; exact He|].
        split; [rewrite Htr, trace_log, Ht, <- !app_assoc; reflexivity|].
        split; [repeat constructor; assumption|].
        apply (Hone (d :: tr)). constructor; [repeat split|exact Hpl].
      * exists tmp, (log d (snd (resumed e tmp w))), [e; d].
        split; [reflexivity|]. split; [exact Hok|]. split; [exact He|].
        split; [rewrite trace_log, Ht, <- !app_assoc; reflexivity|].
        split; [repeat constructor; assumption|].
        apply (Hone [d]). repeat constructor.
    + exists tmp, (snd (resumed e tmp w)), [e].
      split; [reflexivity|]. split; [exact Hok|]. split; [exact He|].
      split; [exact Ht|]. split; [repeat constructor; assumption|].
      apply (Hone []). constructor.
Qed.

Lemma tmp_open_run (peer : Z) (tmp : Stream) (w : World) :
  env w = [] ->
  exists b tmp' w' fd tr,
    open true tmp w = Ret b tmp' w' /\
    openedAsReader tmp' = false /\ interrupting tmp' = interrupting tmp /\
    env w' = [] /\
    trace w' = trace w ++ Socket fd :: tr /\
    Forall (unblock_event (make_addr (socketPath tmp)) peer) tr /\ Forall plain tr.
Proof.
  intros E. rewrite open_sender_unfold. cbv zeta.
  set (fd := ret_val (os w (tick w))).
  set (s0 := set_reader_fd fd (set_openedAsReader false tmp)).
  set (w0 := log (Socket fd) (next w)).
  set (addr := make_addr (socketPath tmp)).
  destruct (fd =? -1).
  - eexists false, s0, _, fd, [Diag _].
    split; [reflexivity|]. repeat split; auto.
    + subst w0. cbn. rewrite <- app_assoc. reflexivity.
    + repeat constructor.
    + repeat constructor.
  - destruct (connect_loop_shape 5 addr 0 s0 w0 eq_refl)
      as (n & s' & w' & fails & last & Hrun & Htr & Hf & Hn & Hlast & Hq).
    destruct (Hq E) as (-> & E' & _ & _).
    rewrite Hrun.
    destruct (retries_events addr peer fails) as [Hev Hpl].
    assert (Hl : Forall (unblock_event addr peer) last /\ Forall plain last).
    { destruct Hlast as [[_ [fd' ->]]|[_ ->]]; split; repeat constructor. }
    destruct Hl as [Hlev Hlpl].
    destruct (n >=? 5).
    + eexists false, s0, _, fd, (retries addr fails ++ last ++ [Diag _]).
      split; [reflexivity|]. repeat split; auto.
      * rewrite trace_log, Htr. subst w0. cbn. rewrite <- !app_assoc. reflexivity.
      * repeat (apply Forall_app; split); auto. repeat constructor.
      * repeat (apply Forall_app; split); auto. repeat constructor.
    + exists true, s0, w', fd, (retries addr fails ++ last).
      split; [reflexivity|]. repeat split; auto.
      * rewrite Htr. subst w0. cbn. rewrite <- !app_assoc. reflexivity.
      * apply Forall_app; split; auto.
      * apply Forall_app; split; auto.
Qed.

(** One turn of the loop of [interrupt].  The other threads act four times
    before the test of [happy] (once per call on the throwaway object); the
    turn sleeps 250 ms exactly when the object is happy at that test. *)
Lemma attempt_run (s : Stream) (w : World) :
  let s4 := fst (turns 4 (s, env w)) in
  let k := if happy s4 then 6%nat else 5%nat in
  exists w' tr,
    attempt s w = Ret tt (fst (turns k (s, env w))) w' /\
    env w' = snd (turns k (s, env w)) /\
    trace w' = trace w ++ tr /\
    Forall (unblock_event (make_addr (socketPath s))
              (sender_fd (fst (turns 1 (s, env w))))) tr /\
    count is_socket tr = 1%nat /\
    (count is_write tr <= 1)%nat /\
    (0 <= sender_fd (fst (turns 1 (s, env w))) -> count is_write tr = 1%nat) /\
    count is_nap tr = (if happy s4 then 1%nat else 0%nat).
Proof.
  intros s4 k.
  set (addr := make_addr (socketPath s)).
  set (peer := sender_fd (fst (turns 1 (s, env w)))).
  unfold attempt, attempt_with. unfold bind at 1, get. unfold bind at 1.
  rewrite private_unfold.
  destruct (tmp_open_run peer (UnixSockTwoWayStream (socketPath s)) (set_env [] w) eq_refl)
    as (b & tmp1 & w1 & fd & tr1 & Hrun1 & Hr1 & Hi1 & He1 & Ht1 & Hev1 & Hpl1).
  rewrite Hrun1. clear Hrun1.
  set (p1 := turn (s, env w)).
  unfold bind at 1, get. unfold bind at 1. cbn [snd fst].
  change (sender_fd (fst p1)) with peer.
  set (tmp2 := set_reader_fd peer tmp1).
  assert (Hok2 : tmp_ok peer tmp2) by (unfold tmp_ok; cbn; auto).
  rewrite private_unfold.
  destruct (tmp_write_run addr peer tmp2 (set_env [] (set_env (snd p1) w1)) Hok2 eq_refl)
    as (tmp3 & w3 & tr3 & Hrun3 & Hok3 & He3 & Ht3 & Hev3 & Hs3 & Hn3 & Hw3 & Hw3').
  specialize (Hw3' eq_refl).
  rewrite Hrun3. clear Hrun3.
  change (env (set_env (snd p1) w1)) with (snd p1).
  change (turn (fst p1, snd p1)) with (turn p1). set (p2 := turn p1).
  unfold bind at 1. rewrite private_unfold. unfold flush at 1, ret at 1.
  change (env (set_env (snd p2) w3)) with (snd p2).
  change (turn (fst p2, snd p2)) with (turn p2). set (p3 := turn p2).
  unfold bind at 1. rewrite private_unfold. cbn [snd].
  set (w4 := set_env [] (set_env (snd p3) (set_env [] (set_env (snd p2) w3)))).
  destruct (tmp_close_run addr peer tmp3 w4 Hok3)
    as (tmp5 & w5 & tr5 & Hrun5 & Hok5 & He5 & Ht5 & Hev5 & Hpl5).
  rewrite Hrun5. clear Hrun5.
  change (env (set_env (snd p3) (set_env [] (set_env (snd p2) w3)))) with (snd p3).
  change (turn (fst p3, snd p3)) with (turn p3). set (p4 := turn p3).
  unfold bind at 1, get. unfold bind at 1.
  change (happy (fst p4)) with (happy s4).
  unfold w4 in Ht5. cbn [trace set_env] in Ht1, Ht3, Ht5.
  destruct (count_plain tr1 Hpl1) as (A1 & A2 & A3).
  destruct (count_plain tr5 Hpl5) as (B1 & B2 & B3).
  subst k. destruct (happy s4) eqn:Hh.
  - rewrite delay_turn.
    change (env (set_env (snd p4) w5)) with (snd p4).
    change (turn (fst p4, snd p4)) with (turn p4). set (p5 := turn p4).
    unfold bind at 1. rewrite private_unfold. cbn [snd].
    set (w6 := set_env [] (set_env (snd p5) (log (Delay 250) (set_env (snd p4) w5)))).
    destruct (tmp_close_run addr peer tmp5 w6 Hok5)
      as (tmp7 & w7 & tr7 & Hrun7 & Hok7 & He7 & Ht7 & Hev7 & Hpl7).
    rewrite Hrun7. clear Hrun7. unfold w6 in Ht7. cbn [trace set_env log] in Ht7.
    destruct (count_plain tr7 Hpl7) as (C1 & C2 & C3).
    change (env (set_env (snd p5) (log (Delay 250) (set_env (snd p4) w5)))) with (snd p5).
    change (turn (fst p5, snd p5)) with (turn p5).
    eexists _, ((Socket fd :: tr1) ++ tr3 ++ tr5 ++ [Delay 250] ++ tr7).
    split; [reflexivity|]. split; [reflexivity|].
    split; [cbn [trace set_env]; rewrite Ht7, Ht5, Ht3, Ht1, <- !app_assoc; reflexivity|].
    split.
    { repeat (apply Forall_app; split); auto.
      - constructor; [exact I|exact Hev1].
      - constructor; [cbn; auto|constructor]. }
    change (Socket fd :: tr1) with ([Socket fd] ++ tr1).
    rewrite !count_app, A1, A2, A3, B1, B2, B3, C1, C2, C3, Hs3, Hn3.
    cbn. repeat split; lia.
  - unfold ret at 1. unfold bind at 1. rewrite private_unfold. cbn [snd].
    set (w6 := set_env [] (set_env (snd p4) w5)).
    destruct (tmp_close_run addr peer tmp5 w6 Hok5)
      as (tmp7 & w7 & tr7 & Hrun7 & Hok7 & He7 & Ht7 & Hev7 & Hpl7).
    rewrite Hrun7. clear Hrun7. unfold w6 in Ht7. cbn [trace set_env log] in Ht7.
    destruct (count_plain tr7 Hpl7) as (C1 & C2 & C3).
    change (env (set_env (snd p4) w5)) with (snd p4).
    change (turn (fst p4, snd p4)) with (turn p4).
    eexists _, ((Socket fd :: tr1) ++ tr3 ++ tr5 ++ tr7).
    split; [reflexivity|]. split; [reflexivity|].
    split; [cbn [trace set_env]; rewrite Ht7, Ht5, Ht3, Ht1, <- !app_assoc; reflexivity|].
    split.
    { repeat (apply Forall_app; split); auto.
      constructor; [exact I|exact Hev1]. }
    change (Socket fd :: tr1) with ([Socket fd] ++ tr1).
    rewrite !count_app, A1, A2, A3, B1, B2, B3, C1, C2, C3, Hs3, Hn3.
    cbn. repeat split; lia.
Qed.

(** *** The throwaway object runs the methods of the class *)

Lemma bind_ext {A B} (m m' : M A) (k k' : A -> M B) (s : Stream) (w : World) :
  m s w = m' s w ->
  (forall a s' w', m s w = Ret a s' w' -> k a s' w' = k' a s' w') ->
  bind m k s w = bind m' k' s w.
Proof.
  intros Hm Hk. unfold bind. rewrite <- Hm.
  destruct (m s w); [apply Hk; reflexivity|reflexivity].
Qed.

Lemma private_sender_write (tmp s : Stream) (w : World) :
  openedAsReader tmp = false ->
  private (tmp_write empty) tmp s w = private (write empty) tmp s w.
Proof.
  intros Hr. rewrite !private_unfold. unfold tmp_write, write.
  rewrite (write_over_sender (ret tt) unblock empty tmp (set_env [] w) Hr eq_refl).
  reflexivity.
Qed.

Lemma private_sender_close (tmp s : Stream) (w : World) :
  openedAsReader tmp = false ->
  private tmp_close tmp s w = private close tmp s w.
Proof.
  intros Hr. rewrite !private_unfold. unfold tmp_close, close.
  rewrite (close_over_sender (ret tt) unblock tmp (set_env [] w) Hr).
  reflexivity.
Qed.

Lemma private_open_result (tmp s : Stream) (w : World) r s1 w1 :
  private (open true) tmp s w = Ret r s1 w1 ->
  openedAsReader (snd r) = false /\ interrupting (snd r) = interrupting tmp.
Proof.
  rewrite private_unfold.
  destruct (tmp_open_run 0 tmp (set_env [] w) eq_refl)
    as (b & tmp1 & w' & fd & tr & Hrun & Hr & Hi & _).
  rewrite Hrun. intros H. inversion H; subst. cbn. auto.
Qed.

Lemma private_write_result (peer : Z) (tmp s : Stream) (w : World) r s1 w1 :
  tmp_ok peer tmp ->
  private (tmp_write empty) tmp s w = Ret r s1 w1 -> tmp_ok peer (snd r).
Proof.
  intros Hok. rewrite private_unfold.
  destruct (tmp_write_run SunAbstract peer tmp (set_env [] w) Hok eq_refl)
    as (tmp' & w' & tr & Hrun & Hok' & _).
  rewrite Hrun. intros H. inversion H; subst. exact Hok'.
Qed.

Lemma private_close_result (peer : Z) (tmp s : Stream) (w : World) r s1 w1 :
  tmp_ok peer tmp ->
  private tmp_close tmp s w = Ret r s1 w1 -> tmp_ok peer (snd r).
Proof.
  intros Hok. rewrite private_unfold.
  destruct (tmp_close_run SunAbstract peer tmp (set_env [] w) Hok)
    as (tmp' & w' & tr & Hrun & Hok' & _).
  rewrite Hrun. intros H. inversion H; subst. exact Hok'.
Qed.

(** The turn of the loop as the source has it, the throwaway object
    running [write] and [close] themselves, is the turn of the model. *)
Lemma attempt_as_written (s : Stream) (w : World) :
  attempt s w = attempt_with write close s w.
Proof.
  unfold attempt, attempt_with.
  apply bind_ext; [reflexivity|intros s0 s0' w0 _]. cbv zeta.
  apply bind_ext; [reflexivity|intros r1 s1 w1 H1].
  destruct (private_open_result _ _ _ _ _ _ H1) as [Hr1 Hi1]. cbn in Hi1.
  apply bind_ext; [reflexivity|intros s2 s2' w2 _].
  set (tmp2 := set_reader_fd (sender_fd s2) (snd r1)).
  assert (Hok2 : tmp_ok (sender_fd s2) tmp2) by (unfold tmp_ok; cbn; auto).
  apply bind_ext; [apply private_sender_write, Hok2|intros r3 s3 w3 H3].
  pose proof (private_write_result _ _ _ _ _ _ _ Hok2 H3) as Hok3.
  apply bind_ext; [reflexivity|intros r4 s4 w4 H4].
  assert (E4 : snd r4 = snd r3).
  { rewrite private_unfold in H4. unfold flush, ret in H4. inversion H4. reflexivity. }
  rewrite E4.
  apply bind_ext; [apply private_sender_close, Hok3|intros r5 s5 w5 H5].
  pose proof (private_close_result _ _ _ _ _ _ _ Hok3 H5) as Hok5.
  apply bind_ext; [reflexivity|intros s6 s6' w6 _].
  apply bind_ext; [reflexivity|intros [] s7 w7 _].
  apply bind_ext; [apply private_sender_close, Hok5|reflexivity].
Qed.

Lemma unblock_loop_unhappy ct s w :
  happy s = false -> unblock_loop ct s w = Ret tt s w.
Proof.
  intros H. destruct ct; [reflexivity|].
  cbn. unfold bind, get. rewrite H. reflexivity.
Qed.

(** The loop of [interrupt] on an object whose socket name and peer handle
    the other threads leave alone. *)
Lemma unblock_loop_run (addr : sockaddr_un) (peer : Z) (ct : nat) :
  forall (s : Stream) (w : World),
    Forall bystander (env w) ->
    make_addr (socketPath s) = addr -> sender_fd s = peer ->
    exists s' w' tr,
      unblock_loop ct s w = Ret tt s' w' /\
      trace w' = trace w ++ tr /\
      Forall (unblock_event addr peer) tr /\
      (count is_socket tr <= ct)%nat /\
      (count is_write tr <= count is_socket tr)%nat /\
      (0 <= peer -> count is_write tr = count is_socket tr) /\
      (count is_nap tr <= count is_socket tr)%nat /\
      (env w = [] -> happy s = true ->
       s' = s /\ env w' = [] /\ count is_socket tr = ct /\ count is_nap tr = ct) /\
      (Forall sour (env w) -> env w <> [] -> happy s = true -> (0 < ct)%nat ->
       count is_socket tr = 1%nat /\ count is_nap tr = 0%nat).
Proof.
  induction ct as [|ct IH]; intros s w Hby Ha Hp.
  - exists s, w, []. cbn. rewrite app_nil_r.
    repeat split; auto; lia.
  - cbn [unblock_loop]. unfold bind at 1, get.
    destruct (happy s) eqn:Hh.
    + unfold bind at 1.
      destruct (attempt_run s w)
        as (w1 & tr1 & Hrun & He1 & Ht1 & Hev1 & Hs1 & Hw1 & Hw1' & Hn1).
      rewrite Hrun. clear Hrun.
      destruct (turns_bystander 1 s (env w) Hby) as (_ & Hp0 & _).
      rewrite Ha, Hp0, Hp in Hev1. rewrite Hp0, Hp in Hw1'.
      set (s4 := fst (turns 4 (s, env w))) in *.
      set (k := if happy s4 then 6%nat else 5%nat) in *.
      destruct (turns_bystander k s (env w) Hby) as (Hp1 & Hf1 & Hby1).
      rewrite <- He1 in Hby1.
      destruct (IH (fst (turns k (s, env w))) w1 Hby1)
        as (s' & w' & tr & Hrun & Ht & Hev & Hs & Hw & Hw' & Hn & Hquiet & _);
        [congruence|congruence|].
      exists s', w', (tr1 ++ tr).
      split; [exact Hrun|].
      split; [rewrite Ht, Ht1, <- app_assoc; reflexivity|].
      split; [apply Forall_app; auto|].
      rewrite !count_app, Hs1.
      assert (Hnap : (count is_nap tr1 <= 1)%nat) by (rewrite Hn1; destruct (happy s4); lia).
      split; [lia|]. split; [lia|].
      split; [intros Hpos; rewrite (Hw1' Hpos), (Hw' Hpos); reflexivity|].
      split; [lia|]. split.
      * intros E _.
        assert (Hs4 : s4 = s) by (unfold s4; rewrite E, turns_quiet; reflexivity).
        assert (Hk : turns k (s, env w) = (s, [])) by (rewrite E; apply turns_quiet).
        rewrite Hk in *. cbn [fst snd] in *. rewrite Hs4, Hh in Hn1.
        destruct (Hquiet He1 Hh) as (-> & E' & C1 & C2).
        repeat split; auto; lia.
      * intros Hsour Hne _ _.
        destruct (turns_sour 3 s (env w) Hsour Hne) as [H4 _].
        fold s4 in H4. subst k. rewrite H4 in *.
        destruct (turns_sour 4 s (env w) Hsour Hne) as [H5 _].
        rewrite (unblock_loop_unhappy ct _ w1 H5) in Hrun.
        inversion Hrun; subst.
        assert (tr = []) as ->.
        { apply (app_inv_head (trace w')). rewrite app_nil_r. symmetry. exact Ht. }
        cbn. lia.
    + exists s, w, []. rewrite app_nil_r.
      split; [reflexivity|]. split; [reflexivity|]. split; [constructor|].
      cbn. repeat split; try lia; congruence.
Qed.

(** The unblock sequence always comes to its end. *)
Lemma unblock_loop_returns (ct : nat) (s : Stream) (w : World) :
  exists s' w', unblock_loop ct s w = Ret tt s' w'.
Proof.
  revert s w. induction ct as [|ct IH]; intros s w.
  - exists s, w. reflexivity.
  - cbn [unblock_loop]. unfold bind at 1, get.
    destruct (happy s); [|exists s, w; reflexivity].
    unfold bind at 1.
    destruct (attempt_run s w) as (w1 & tr1 & Hrun & _). rewrite Hrun. apply IH.
Qed.

Lemma unblock_returns (s : Stream) (w : World) :
  exists s' w', unblock s w = Ret tt s' w'.
Proof.
  unfold unblock, bind.
  destruct (unblock_loop_returns 3 s w) as (s' & w' & ->).
  eexists _, _. reflexivity.
Qed.

(** ** The interrupt protocol *)

Ltac flags_instance :=
  first [ exact (rely_refl _ flags_le_refl) | exact (rely_trans _ flags_le_trans)
        | exact (rely_emit _ flags_le_refl) | exact (rely_ask _ flags_le_refl)
        | exact (rely_yield _ flags_le_refl) | exact (rely_modify flags_le)
        | exact (rely_private _ flags_le_refl) | exact I
        | intros; intros ?; split; cbn; auto; discriminate ].

Lemma interrupt_flags_le : keeps (rely flags_le) interrupt.
Proof.
  apply keeps_interrupt with (sound := within flags_le) (trusted := fun _ _ => True);
    flags_instance.
Qed.

Lemma close_flags_le : keeps (rely flags_le) close.
Proof.
  apply keeps_close with (sound := within flags_le) (trusted := fun _ _ => True);
    flags_instance.
Qed.

Lemma unblock_flags_le : keeps (rely flags_le) unblock.
Proof.
  apply keeps_unblock with (trusted := fun _ _ => True); flags_instance.
Qed.

Lemma interrupt_acts (s : Stream) (w : World) :
  negb (closed s) && negb (interrupting s) && happy s = true ->
  exists s' w', interrupt s w = Ret tt s' w' /\ interrupting s' = false.
Proof.
  intros Hact. unfold interrupt. rewrite interrupt_over_unfold. cbv zeta.
  rewrite Hact.
  destruct (openedAsReader s).
  - destruct (unblock_returns (set_closed true (set_interrupting true s))
                (log (Diag " interrupting socket") w)) as (s' & w' & ->).
    eexists _, _. split; reflexivity.
  - eexists _, _. split; reflexivity.
Qed.

Lemma interrupt_idle (s : Stream) (w : World) :
  negb (closed s) && negb (interrupting s) && happy s = false ->
  interrupting s = false ->
  interrupt s w = Ret tt s (log (Diag " interrupting socket") w).
Proof.
  intros Hact Hi. unfold interrupt. rewrite interrupt_over_unfold. cbv zeta.
  rewrite Hact. unfold while_interrupting. apply await_idle, Hi.
Qed.

Lemma unblock_alone (s : Stream) (w : World) :
  env w = [] -> happy s = true -> state_of (unblock s w) = s.
Proof.
  intros E Hh.
  assert (Hby : Forall bystander (env w)) by (rewrite E; constructor).
  destruct (unblock_loop_run (make_addr (socketPath s)) (sender_fd s) 3 s w Hby eq_refl eq_refl)
    as (s' & w' & tr & Hrun & _ & _ & _ & _ & _ & _ & Hq & _).
  destruct (Hq E Hh) as (-> & _).
  unfold unblock, bind. rewrite Hrun. reflexivity.
Qed.

(** C1.  The caller of [interrupt] is the actor exactly when, in the locked
    section, it finds the object not closed, with no interrupt in flight,
    and happy; that same step then sets [interrupting] and [closed].  The
    actor's call is then the unblock sequence run on the object so marked (a
    receiver; a sender has none), followed by the step that puts
    [interrupting] back to false: it returns, with [interrupting] false, and
    with [closed] true as long as no other thread clears it; with no other
    thread at all the object it leaves is the one it found with [closed]
    set.  A caller that is not the actor and finds no interrupt in flight
    returns at once: the object is as it was, no system call is made, and
    only the debug line is printed. *)
Theorem interrupt_actor (s : Stream) (w : World) :
  let act := negb (closed s) && negb (interrupting s) && happy s in
  let s0 := set_closed true (set_interrupting true s) in
  let w0 := log (Diag " interrupting socket") w in
  (act = true <-> closed s = false /\ interrupting s = false /\ happy s = true) /\
  interrupt_lock s w = Ret act (if act then s0 else s) w /\
  (act = true ->
   interrupt s w =
     (if openedAsReader s
      then match unblock s0 w0 with
           | Ret _ s' w' => Ret tt (set_interrupting false s') w'
           | Spin s' w' => Spin s' w'
           end
      else Ret tt (set_interrupting false s0) w0) /\
   exists s' w',
     interrupt s w = Ret tt s' w' /\
     interrupting s' = false /\
     (Forall tame (env w) -> closed s' = true) /\
     (env w = [] -> s' = set_closed true s)) /\
  (act = false -> interrupting s = false ->
   interrupt s w = Ret tt s w0).
Proof.
  intros act s0 w0. split; [|split; [|split]].
  - subst act. destruct (closed s), (interrupting s), (happy s); cbn; intuition congruence.
  - unfold interrupt_lock. fold act. destruct act; reflexivity.
  - intros Hact.
    assert (Hrun : interrupt s w =
              (if openedAsReader s
               then match unblock s0 w0 with
                    | Ret _ s' w' => Ret tt (set_interrupting false s') w'
                    | Spin s' w' => Spin s' w'
                    end
               else Ret tt (set_interrupting false s0) w0)).
    { unfold interrupt. rewrite interrupt_over_unfold. cbv zeta.
      fold act. rewrite Hact. fold s0 w0.
      destruct (openedAsReader s); [|reflexivity].
      destruct (unblock s0 w0) as [[] s' w'|]; reflexivity. }
    split; [exact Hrun|].
    assert (Hi : interrupting s = false /\ happy s = true).
    { subst act. destruct (closed s), (interrupting s), (happy s); cbn in Hact;
        try discriminate; split; reflexivity. }
    destruct Hi as [Hi Hh].
    assert (Hs0 : set_interrupting false s0 = set_closed true s).
    { subst s0. destruct s; cbn in *. subst. reflexivity. }
    rewrite Hrun. destruct (openedAsReader s).
    + pose proof (unblock_flags_le s0 w0) as Hle.
      pose proof (unblock_alone s0 w0) as Hq.
      destruct (unblock_returns s0 w0) as (s' & w' & Hu).
      rewrite Hu in *. cbn [state_of world_of] in *.
      exists (set_interrupting false s'), w'.
      split; [reflexivity|]. split; [reflexivity|]. split.
      * intros Ht. destruct (Hle Ht) as [[_ Hcl] _]. cbn. apply Hcl. reflexivity.
      * intros E. rewrite (Hq E Hh). exact Hs0.
    + exists (set_interrupting false s0), w0.
      split; [reflexivity|]. split; [reflexivity|]. split; [reflexivity|].
      intros _. exact Hs0.
  - apply interrupt_idle.
Qed.



(** ** The log only grows *)

Lemma extends_refl s w : extends s w s w.
Proof. exists []. now rewrite app_nil_r. Qed.

Lemma extends_trans s1 w1 s2 w2 s3 w3 :
  extends s1 w1 s2 w2 -> extends s2 w2 s3 w3 -> extends s1 w1 s3 w3.
Proof.
  intros [t1 H1] [t2 H2]. exists (t1 ++ t2). now rewrite H2, H1, app_assoc.
Qed.

Lemma extends_emit e : keeps extends (emit e).
Proof. intros s w. exists [e]. reflexivity. Qed.

Lemma extends_ask : keeps extends ask.
Proof. intros s w. exists []. cbn. now rewrite app_nil_r. Qed.

Lemma extends_yield : keeps extends yield.
Proof.
  intros s w. unfold yield. exists [].
  destruct (env w); cbn; now rewrite app_nil_r.
Qed.

Lemma extends_modify f : True -> keeps extends (modify f).
Proof. intros _ s w. exists []. cbn. now rewrite app_nil_r. Qed.

Lemma extends_private A (m : M A) tmp : keeps extends m -> keeps extends (private m tmp).
Proof.
  intros Hm s w. rewrite private_unfold.
  specialize (Hm tmp (set_env [] w)).
  destruct (m tmp (set_env [] w)); exact Hm.
Qed.

Ltac extends_instance :=
  first [ exact extends_refl | exact extends_trans | exact extends_emit
        | exact extends_ask | exact extends_yield | exact extends_modify
        | exact extends_private | exact I | intros; exact I ].

Lemma extends_tmp_close : keeps extends tmp_close.
Proof.
  apply keeps_close_over with (sound := fun _ => True); extends_instance.
Qed.

Lemma extends_tmp_write b : keeps extends (tmp_write b).
Proof.
  apply keeps_write_over with (sound := fun _ => True); extends_instance.
Qed.

Lemma extends_open sender : keeps extends (open sender).
Proof. apply keeps_open with (sound := fun _ => True); extends_instance. Qed.

Lemma extends_close : keeps extends close.
Proof.
  apply keeps_close with (sound := fun _ => True) (trusted := fun A m => keeps extends m);
    first [ extends_instance | exact (extends_open true)
          | exact (extends_tmp_write empty) | exact extends_tmp_close ].
Qed.

(** ** [close] *)

Lemma interrupt_returns (s : Stream) (w : World) :
  interrupting s = false ->
  exists s' w', interrupt s w = Ret tt s' w' /\ interrupting s' = false.
Proof.
  intros Hi.
  destruct (negb (closed s) && negb (interrupting s) && happy s) eqn:E.
  - apply interrupt_acts, E.
  - eexists _, _. split; [apply interrupt_idle; assumption|exact Hi].
Qed.

Lemma bind_modify_ret {A} (m : M A) (f : Stream -> Stream) (s : Stream) (w : World) :
  match (m ;; modify f) s w with
  | Ret _ s' _ => exists s0, s' = f s0
  | Spin _ _ => True
  end.
Proof.
  unfold bind, modify. destruct (m s w) as [a s0 w0|]; [exists s0; reflexivity|exact I].
Qed.

(** [close] leaves the object unhappy when it returns, and it returns
    unless an interrupt is in flight that never ends. *)
Lemma close_outcome (s : Stream) (w : World) :
  match close s w with
  | Ret _ s' w' => happy s' = false
  | Spin _ _ => interrupting s = true
  end.
Proof.
  destruct (close s w) as [a s' w'|s' w'] eqn:Hc.
  - unfold close, close_over in Hc. unfold bind at 1, get in Hc.
    match type of Hc with
    | (?m ;; modify ?f) ?x ?y = _ => pose proof (bind_modify_ret m f x y) as H
    end.
    rewrite Hc in H. destruct H as [s0 ->]. reflexivity.
  - destruct (interrupting s) eqn:Hi; [reflexivity|exfalso].
    unfold close, close_over in Hc. unfold bind at 1, get in Hc. unfold bind at 1 in Hc.
    destruct (reader_fd s >? 0).
    + unfold bind at 1 in Hc. fold interrupt in Hc.
      destruct (interrupt_returns s w Hi) as (s1 & w1 & Hrun & Hi1).
      rewrite Hrun in Hc.
      unfold bind at 1, modify at 1 in Hc. unfold bind at 1, while_interrupting in Hc.
      rewrite await_idle in Hc by exact Hi1.
      unfold bind at 1, get in Hc. unfold bind at 1 in Hc.
      change (openedAsReader (set_closed true s1)) with (openedAsReader s1) in Hc.
      destruct (openedAsReader s1); discriminate Hc.
    + discriminate Hc.
Qed.

(** ** [write] *)

(** C7.  When the [::write] made by [write] fails, [write] prints the error
    with [perror] and only then looks at [errno]: what decides is the value
    [perror] leaves there, not the one [::write] left.  With that value
    equal to [ETIMEDOUT] nothing more happens, the object is as the blocked
    call left it ([happy] included; as it was before, when no other thread
    has acted meanwhile) and [write] returns; with any other value what
    follows is [close], after which [isOk] is false, unless [close] is held
    up for ever by an interrupt in flight.  Where [perror] leaves [errno]
    alone this is the rule on the error of [::write].  Where it does not, a
    [::write] that timed out closes the object, and one that failed for
    another reason leaves it open when [perror] leaves [ETIMEDOUT].  [write]
    yields no value in any case. *)
Theorem write_failure (b : list Byte.byte) (s : Stream) (w : World) :
  0 <= reader_fd s ->
  let a := os w (tick w) in
  let fd := if openedAsReader s then sender_fd s else reader_fd s in
  let s1 := fst (resumed (WriteFd fd b (ret_val a) (errno a)) s w) in
  let w1 := snd (resumed (WriteFd fd b (ret_val a) (errno a)) s w) in
  let w2 := log (Diag "unixSock::write:Packet payload") w1 in
  let closes :=
    write b s w = close s1 w2 /\
    match write b s w with
    | Ret _ s' w' => happy s' = false /\ isOk s' w' = Ret false s' w'
    | Spin _ _ => interrupting s1 = true
    end in
  let passes :=
    write b s w = Ret tt s1 w2 /\
    isOk s1 w2 = Ret (happy s1) s1 w2 /\
    since w w2 = [WriteFd fd b (ret_val a) (errno a);
                  Diag "unixSock::write:Packet payload"] in
  to_int (ret_val a) < 0 ->
  (env w = [] -> s1 = s) /\
  (errno_after_perror a = ETIMEDOUT -> passes) /\
  (errno_after_perror a <> ETIMEDOUT -> closes) /\
  (errno_after_perror a = errno a ->
   (errno a = ETIMEDOUT -> passes) /\ (errno a <> ETIMEDOUT -> closes)) /\
  (errno a = ETIMEDOUT -> errno_after_perror a <> ETIMEDOUT -> closes) /\
  (errno a <> ETIMEDOUT -> errno_after_perror a = ETIMEDOUT -> passes).
Proof.
  intros Hfd a fd s1 w1 w2 closes passes Hr.
  assert (Hw : write b s w =
               if negb (errno_after_perror a =? ETIMEDOUT) then close s1 w2 else Ret tt s1 w2).
  { unfold write. rewrite write_over_unfold. cbv zeta.
    destruct (Z.ltb_spec (reader_fd s) 0); [lia|].
    fold a. unfold io_fd. fold fd. fold s1 w1.
    destruct (Z.ltb_spec (to_int (ret_val a)) 0); [|lia].
    reflexivity. }
  assert (Hp : errno_after_perror a = ETIMEDOUT -> passes).
  { intros He. subst passes. rewrite Hw.
    destruct (Z.eqb_spec (errno_after_perror a) ETIMEDOUT); [|contradiction]. cbn [negb].
    split; [reflexivity|]. split; [reflexivity|].
    apply since_app. subst w2. rewrite trace_log. subst w1.
    rewrite resumed_trace, <- app_assoc. reflexivity. }
  assert (Hc : errno_after_perror a <> ETIMEDOUT -> closes).
  { intros He. subst closes. rewrite Hw.
    destruct (Z.eqb_spec (errno_after_perror a) ETIMEDOUT); [contradiction|]. cbn [negb].
    split; [reflexivity|].
    pose proof (close_outcome s1 w2) as H.
    destruct (close s1 w2) as [? s' w'|]; [|exact H].
    split; [exact H|]. unfold isOk, bind, get, ret. rewrite H. reflexivity. }
  split; [intros E; apply (resumed_alone _ s w E)|].
  split; [exact Hp|]. split; [exact Hc|]. split; [|split].
  - intros E. rewrite <- E. split; assumption.
  - intros _ He. exact (Hc He).
  - intros _ He. exact (Hp He).
Qed.

(** C10.  The guard of [write] looks at [reader_fd] alone.  Below zero the
    call is [close] and nothing else; otherwise the first thing logged is
    the [::write] on the descriptor of the role, so that a receiver whose
    accepted peer handle is the sentinel -1 while its listen handle is
    valid makes its [::write] on descriptor -1. *)
Theorem write_guard_reader_fd_only (b : list Byte.byte) (s : Stream) (w : World) :
  let a := os w (tick w) in
  (reader_fd s < 0 -> write b s w = close s w) /\
  (0 <= reader_fd s ->
   exists tail,
     since w (world_of (write b s w)) =
     WriteFd (if openedAsReader s then sender_fd s else reader_fd s) b
       (ret_val a) (errno a) :: tail) /\
  (openedAsReader s = true -> sender_fd s = -1 -> 0 <= reader_fd s ->
   exists tail,
     since w (world_of (write b s w)) = WriteFd (-1) b (ret_val a) (errno a) :: tail).
Proof.
  intros a.
  assert (H : 0 <= reader_fd s ->
              exists tail,
                since w (world_of (write b s w)) =
                WriteFd (io_fd s) b (ret_val a) (errno a) :: tail).
  { intros Hfd. unfold write. rewrite write_over_unfold. cbv zeta.
    destruct (Z.ltb_spec (reader_fd s) 0); [lia|]. fold a.
    set (e := WriteFd (io_fd s) b (ret_val a) (errno a)).
    pose proof (resumed_trace e s w) as Ht.
    destruct (to_int (ret_val a) <? 0).
    - destruct (negb (errno_after_perror a =? ETIMEDOUT)).
      + destruct (extends_close (fst (resumed e s w))
                    (log (Diag "unixSock::write:Packet payload") (snd (resumed e s w))))
          as [tr Htr].
        exists (Diag "unixSock::write:Packet payload" :: tr). apply since_app.
        fold close. rewrite Htr, trace_log, Ht, <- !app_assoc. reflexivity.
      + exists [Diag "unixSock::write:Packet payload"]. apply since_app.
        cbn [world_of]. rewrite trace_log, Ht, <- !app_assoc. reflexivity.
    - exists []. apply since_app. exact Ht. }
  split; [|split].
  - intros Hfd. unfold write. rewrite write_over_unfold.
    destruct (Z.ltb_spec (reader_fd s) 0); [reflexivity|lia].
  - exact H.
  - intros Hr Hs Hfd. destruct (H Hfd) as [tail Ht].
    unfold io_fd in Ht. rewrite Hr, Hs in Ht. exists tail. exact Ht.
Qed.

(** ** After interrupt or close *)

Lemma dead_le s s' : flags_le s s' -> dead s -> dead s'.
Proof.
  intros [Hh Hc] [H|H]; [left; auto|right].
  destruct (happy s') eqn:E; [|reflexivity]. rewrite Hh in H; [discriminate|reflexivity].
Qed.

Lemma read_dead len s w : dead s -> read len s w = Ret (-1) s w.
Proof.
  intros H. rewrite read_unfold.
  destruct H as [H|H]; rewrite H; [reflexivity|].
  rewrite orb_true_r. reflexivity.
Qed.

Lemma interrupt_dead (s : Stream) (w : World) :
  Forall tame (env w) ->
  (interrupting s = true -> closed s = true) ->
  dead (state_of (interrupt s w)) /\ Forall tame (env (world_of (interrupt s w))).
Proof.
  intros Ht Hinv.
  destruct (interrupt_flags_le s w Ht) as [Hle Ht'].
  split; [|exact Ht'].
  destruct (closed s) eqn:Hc; [apply (dead_le s); [exact Hle|left; exact Hc]|].
  destruct (happy s) eqn:Hh; [|apply (dead_le s); [exact Hle|right; exact Hh]].
  destruct (interrupting s) eqn:Hi; [discriminate (Hinv eq_refl)|].
  left. unfold interrupt. rewrite interrupt_over_unfold. cbv zeta.
  rewrite Hc, Hi, Hh. cbn [negb andb].
  destruct (openedAsReader s); [|reflexivity].
  set (s0 := set_closed true (set_interrupting true s)).
  destruct (unblock_flags_le s0 (log (Diag " interrupting socket") w) Ht) as [[_ Hcl] _].
  destruct (unblock s0 _); cbn in *; apply Hcl; reflexivity.
Qed.

(** C9.  A [read] whose blocking call comes back to an object that has been
    closed meanwhile gives -1 and clears [happy], whatever the number of
    bytes received.  And once [interrupt] or [close] has returned, whatever
    calls follow, [read] gives -1 at once and makes no system call.  For
    [interrupt] the object is one whose [interrupting] flag is set only
    while [closed] is, as the locked section sets them; the other threads
    are any under which [happy] only falls and [closed] only rises. *)
Theorem read_after_interrupt_or_close (len : Z) (s : Stream) (w : World) :
  (closed s = false -> happy s = true ->
   let fd := if openedAsReader s then sender_fd s else reader_fd s in
   let r := ret_val (os w (tick w)) in
   let s1 := fst (resumed (ReadFd fd len r) s w) in
   let w1 := snd (resumed (ReadFd fd len r) s w) in
   closed s1 = true ->
   read len s w = Ret (-1) (set_happy false s1) w1) /\
  (forall (cs : list call) (s' : Stream) (w' : World),
   Forall tame (env w) -> (interrupting s = true -> closed s = true) ->
   (interrupt ;; run cs) s w = Ret tt s' w' ->
   read len s' w' = Ret (-1) s' w') /\
  (forall (cs : list call) (s' : Stream) (w' : World),
   Forall tame (env w) ->
   (close ;; run cs) s w = Ret tt s' w' ->
   read len s' w' = Ret (-1) s' w').
Proof.
  split; [|split].
  - intros Hc Hh fd r s1 w1 Hc1.
    rewrite read_unfold, Hc, Hh. cbn [negb orb]. unfold io_fd. fold fd r. cbv zeta.
    replace (resumed (ReadFd fd len r) s w) with (s1, w1)
      by (subst s1 w1; destruct (resumed _ s w); reflexivity).
    rewrite Hc1. reflexivity.
  - intros cs s' w' Ht Hinv. unfold bind.
    destruct (interrupt_dead s w Ht Hinv) as [Hd Ht'].
    destruct (interrupt s w) as [[] s1 w1|]; [|discriminate]. cbn in Hd, Ht'.
    destruct (run_flags_le cs s1 w1 Ht') as [Hle _].
    intros Hrun. rewrite Hrun in Hle. cbn in Hle.
    apply read_dead, (dead_le s1); assumption.
  - intros cs s' w' Ht. unfold bind.
    pose proof (close_outcome s w) as Hd.
    destruct (close_flags_le s w Ht) as [_ Ht'].
    destruct (close s w) as [[] s1 w1|]; [|discriminate]. cbn in Ht'.
    destruct (run_flags_le cs s1 w1 Ht') as [Hle _].
    intros Hrun. rewrite Hrun in Hle. cbn in Hle.
    apply read_dead, (dead_le s1); [assumption|right; exact Hd].
Qed.

(** ** What [open] leaves of the flags *)

Lemma total_bind {A B} (m : M A) (k : A -> M B) :
  total m -> (forall a, total (k a)) -> total (bind m k).
Proof.
  intros Hm Hk s w. unfold bind. specialize (Hm s w).
  destruct (m s w); [apply Hk|discriminate].
Qed.

Lemma total_yield : total yield.
Proof. intros s w. unfold yield. destruct (env w); reflexivity. Qed.

Ltac total_all :=
  repeat first [ apply total_bind; [|intros ?]
               | apply total_yield
               | match goal with
                 | |- total (if ?b then _ else _) => destruct b
                 | |- total (match ?x with EmptyString => _ | String _ _ => _ end) =>
                     destruct x
                 end
               | intros ? ?; reflexivity ].

Lemma total_connect_loop budget addr attempts : total (connect_loop budget addr attempts).
Proof.
  revert attempts. induction budget as [|budget IH]; intros attempts; cbn.
  - intros s w. reflexivity.
  - unfold sys_connect, delay.
    destruct (attempts <? 5); [|intros s w; reflexivity].
    apply total_bind; [intros s w; reflexivity|intros s].
    apply total_bind; [total_all|intros r].
    destruct (r =? 0); [intros ? ?; reflexivity|].
    apply total_bind; [total_all|intros _; apply IH].
Qed.

Lemma total_open sender : total (open sender).
Proof.
  unfold open, sys_socket, sys_unlink, sys_bind, sys_listen, sys_accept, diag.
  apply total_bind; [intros s w; reflexivity|intros _].
  apply total_bind; [total_all|intros fd].
  apply total_bind; [total_all|intros _].
  destruct (fd =? -1); [total_all|].
  apply total_bind; [total_all|intros s].
  apply total_bind; [destruct (socketPath s), sender; total_all|intros _].
  destruct sender.
  - apply total_bind; [apply total_connect_loop|intros n]. total_all.
  - total_all.
Qed.

Lemma same_flags_refl role s : same_flags role s s.
Proof. unfold same_flags. auto. Qed.

Lemma same_flags_trans role s1 s2 s3 :
  same_flags role s1 s2 -> same_flags role s2 s3 -> same_flags role s1 s3.
Proof. unfold same_flags. intuition congruence. Qed.

Lemma open_same_flags sender : keeps (rely (same_flags (negb sender))) (open sender).
Proof.
  apply keeps_open with (sound := within (same_flags (negb sender)));
    first [ exact (rely_refl _ (same_flags_refl _))
          | exact (rely_trans _ (same_flags_trans _))
          | exact (rely_emit _ (same_flags_refl _))
          | exact (rely_ask _ (same_flags_refl _))
          | exact (rely_yield _ (same_flags_refl _))
          | exact (rely_modify (same_flags _))
          | intros; intros ?; unfold same_flags; cbn; auto ].
Qed.

(** C5, as the code has it.  [open] returns, and whatever it returns it
    leaves [happy] and [closed] as they were when it was called; the role
    it stores is the one asked for.  So after an [open] that returns true
    the object is happy and not closed if and only if it was so before the
    call.  The other threads are any that leave these flags alone. *)
Theorem open_keeps_flags (sender : bool) (s : Stream) (w : World) :
  Forall neutral (env w) ->
  exists (b : bool) (s' : Stream) (w' : World),
    open sender s w = Ret b s' w' /\
    happy s' = happy s /\ closed s' = closed s /\
    openedAsReader s' = negb sender.
Proof.
  intros Hn.
  assert (Hw : Forall (within (same_flags (negb sender))) (env w)).
  { eapply Forall_impl; [|exact Hn].
    intros f Hf x. destruct (Hf x) as (H1 & H2 & H3).
    unfold same_flags. repeat split; congruence. }
  pose proof (total_open sender s w) as Ht.
  pose proof (open_same_flags sender (set_openedAsReader (negb sender) s) w Hw) as [H _].
  change (open sender (set_openedAsReader (negb sender) s) w) with (open sender s w) in H.
  destruct (open sender s w) as [b s' w'|]; [|discriminate].
  exists b, s', w'. destruct H as (H1 & H2 & H3). cbn in *.
  repeat split; auto.
Qed.

(** ** A second [close] *)

(** After [close] a sender holds the sentinel in the descriptor the guard
    tests, and a further [close] does nothing. *)
Lemma close_again_sender (s : Stream) (w : World) :
  openedAsReader s = false -> interrupting s = false -> happy s = false ->
  reader_fd s = -1 ->
  close s w = Ret tt s w.
Proof.
  intros Hr Hi Hh Hfd. unfold close. rewrite close_sender by assumption.
  rewrite Hfd. cbn. f_equal. destruct s; cbn in *; subst; reflexivity.
Qed.

(** After [close] a receiver holds the sentinel in [sender_fd], but the
    guard tests [reader_fd], which still holds the listen handle: a further
    [close] calls shutdown and close on -1 and unlinks the socket name once
    more. *)
Lemma close_again_receiver (s : Stream) (w : World) :
  openedAsReader s = true -> closed s = true -> interrupting s = false ->
  happy s = false -> sender_fd s = -1 -> 0 < reader_fd s ->
  close s w =
  Ret tt s (log (Unlink (socketPath s))
              (log (CloseFd (-1))
                 (log (Shutdown (-1)) (log (Diag " interrupting socket") w)))).
Proof.
  intros Hr Hc Hi Hh Hs Hfd. unfold close, close_over.
  unfold bind at 1, get. unfold bind at 1.
  destruct (Z.gtb_spec (reader_fd s) 0); [|lia].
  unfold bind at 1. rewrite interrupt_over_unfold. cbv zeta. rewrite Hc. cbn [negb andb].
  unfold while_interrupting. rewrite await_idle by exact Hi.
  unfold bind at 1, modify at 1. unfold bind at 1. rewrite await_idle by exact Hi.
  unfold bind, get, modify, sys_shutdown, sys_close, sys_unlink, emit. cbn.
  rewrite Hr, Hs. cbn. f_equal. destruct s; cbn in *; subst; reflexivity.
Qed.

(** C2, at a receiver.  A new object is opened as receiver (socket 3, peer
    handle 4) and closed.  The first [close] leaves [reader_fd] at 3, so the
    guard [reader_fd > 0] of a second [close] holds again: that call is not
    a no-op, it calls shutdown and close on descriptor -1 and unlinks the
    socket name a second time. *)
Theorem close_twice_receiver :
  exists s1 w1 w2,
    (open false ;; close) (UnixSockTwoWayStream test_sock) (world receiver_script [])
    = Ret tt s1 w1 /\
    reader_fd s1 = 3 /\ sender_fd s1 = -1 /\
    (reader_fd s1 >? 0) = true /\
    close s1 w1 = Ret tt s1 w2 /\
    since w1 w2 =
    [Diag " interrupting socket"; Shutdown (-1); CloseFd (-1); Unlink test_sock].
Proof.
  eexists _, _, _.
  split; [vm_compute; reflexivity|].
  split; [reflexivity|]. split; [reflexivity|]. split; [reflexivity|].
  split; [vm_compute; reflexivity|]. vm_compute. reflexivity.
Qed.

(** C5 fails on an object that has been closed: a new object is opened as
    sender, closed, and opened again; the second [open] returns true and
    the object is unhappy and closed. *)
Lemma open_after_close_unhappy :
  exists s' w',
    (open true ;; close ;; open true) (UnixSockTwoWayStream test_sock)
      (world [(3, 0); (0, 0); (4, 0); (0, 0)] [])
    = Ret true s' w' /\
    happy s' = false /\ closed s' = true.
Proof. eexists _, _. split; [vm_compute; reflexivity|]. split; reflexivity. Qed.

(** C8 fails when the socket cannot be created: [open(true)] returns false
    and no connection attempt has been made, let alone five failed. *)
Lemma open_sender_false_without_connect :
  exists s' w',
    open true (UnixSockTwoWayStream test_sock) (world [(-1, 24)] []) = Ret false s' w' /\
    since (world [(-1, 24)] []) w' = [Socket (-1); Diag "UnixSockTwoWayStream error:"] /\
    count is_connect (since (world [(-1, 24)] []) w') = 0%nat /\
    ~ (false = false <-> connect_failures (since (world [(-1, 24)] []) w') = 5%nat).
Proof.
  eexists _, _. split; [vm_compute; reflexivity|].
  split; [reflexivity|]. split; [reflexivity|].
  intros [H _]. specialize (H eq_refl). vm_compute in H. discriminate.
Qed.

(** C6 fails when the object is closed while [read] is blocked: another
    thread goes through the locked section of [interrupt], the [::read] of
    this one comes back with an error, and [read], which gives -1, has
    cleared [happy]. *)
Lemma read_error_after_concurrent_interrupt :
  exists s' w',
    read 16 a_receiver
      (world [(-1, 4)] [fun s => state_of (interrupt_lock s (world [] []))])
    = Ret (-1) s' w' /\
    to_int (-1) < 0 /\
    happy a_receiver = true /\ happy s' = false.
Proof.
  eexists _, _. split; [vm_compute; reflexivity|].
  split; [reflexivity|]. split; reflexivity.
Qed.

(** * Further properties *)

(** ** The receiver side of [open] *)

Lemma os_log e w : os (log e w) = os w.
Proof. reflexivity. Qed.

Lemma tick_log e w : tick (log e w) = tick w.
Proof. reflexivity. Qed.

Lemma env_log e w : env (log e w) = env w.
Proof. reflexivity. Qed.

Lemma os_next w : os (next w) = os w.
Proof. reflexivity. Qed.

Lemma tick_next w : tick (next w) = S (tick w).
Proof. reflexivity. Qed.

Lemma env_next w : env (next w) = env w.
Proof. reflexivity. Qed.

Ltac world_fields :=
  repeat first [ rewrite os_log | rewrite os_next | rewrite tick_log
               | rewrite tick_next | rewrite env_log | rewrite env_next ].

Lemma open_receiver_unfold (s : Stream) (w : World) :
  open false s w =
  let fd := ret_val (os w (tick w)) in
  let r1 := ret_val (os w (S (tick w))) in
  let r2 := ret_val (os w (S (S (tick w)))) in
  let r3 := ret_val (os w (S (S (S (tick w))))) in
  let addr := make_addr (socketPath s) in
  let s0 := set_reader_fd fd (set_openedAsReader true s) in
  let w0 := log (Socket fd) (next w) in
  if fd =? -1 then Ret false s0 (log (Diag "UnixSockTwoWayStream error:") w0)
  else
    let w1 := match socketPath s with
              | EmptyString => w0
              | _ => log (Unlink (socketPath s)) w0
              end in
    let w2 := log (Bind fd addr r1) (next w1) in
    if r1 =? -1 then Ret false s0 (log (Diag "UnixSockTwoWayStream bind error") w2)
    else
      let w3 := log (Listen fd 2 r2) (next w2) in
      if r2 =? -1 then Ret false s0 (log (Diag "UnixSockTwoWayStream listen error") w3)
      else
        let s4 := fst (resumed (Accept fd r3) s0 w3) in
        let w4 := snd (resumed (Accept fd r3) s0 w3) in
        if r3 =? -1
        then Ret false (set_sender_fd r3 s4)
               (log (Diag "UnixSockTwoWayStream accept error") w4)
        else Ret true (set_sender_fd r3 s4) w4.
Proof.
  unfold open, sys_socket, sys_unlink, sys_bind, sys_listen, sys_accept, diag,
    bind, ask, emit, modify, get, ret, yield, resumed.
  cbv beta zeta. cbn [negb].
  destruct (ret_val (os w (tick w)) =? -1); [reflexivity|].
  change (socketPath (set_reader_fd (ret_val (os w (tick w))) (set_openedAsReader true s)))
    with (socketPath s).
  destruct (socketPath s) as [|c p]; cbv beta iota; world_fields;
    (destruct (ret_val (os w (S (tick w))) =? -1); [reflexivity|]);
    cbv beta iota; world_fields;
    (destruct (ret_val (os w (S (S (tick w)))) =? -1); [reflexivity|]);
    cbv beta iota; world_fields;
    destruct (env w); cbv beta iota; cbn [fst snd];
    destruct (ret_val (os w (S (S (S (tick w))))) =? -1); reflexivity.
Qed.

(** What [open(false)] has logged when it returns. *)
Lemma open_receiver_since (s : Stream) (w : World) :
  let fd := ret_val (os w (tick w)) in
  let r1 := ret_val (os w (S (tick w))) in
  let r2 := ret_val (os w (S (S (tick w)))) in
  let r3 := ret_val (os w (S (S (S (tick w))))) in
  let addr := make_addr (socketPath s) in
  since w (world_of (open false s w)) =
    Socket fd ::
    (if fd =? -1 then [Diag "UnixSockTwoWayStream error:"]
     else
       unlinked (socketPath s) ++
       Bind fd addr r1 ::
       (if r1 =? -1 then [Diag "UnixSockTwoWayStream bind error"]
        else
          Listen fd 2 r2 ::
          (if r2 =? -1 then [Diag "UnixSockTwoWayStream listen error"]
           else
             Accept fd r3 ::
             (if r3 =? -1 then [Diag "UnixSockTwoWayStream accept error"]
              else [])))).
Proof.
  intros fd r1 r2 r3 addr. rewrite open_receiver_unfold. cbv zeta.
  fold fd r1 r2 r3 addr.
  assert (Hu : forall w0,
             trace (match socketPath s with
                    | EmptyString => w0
                    | String _ _ => log (Unlink (socketPath s)) w0
                    end) = trace w0 ++ unlinked (socketPath s)).
  { intros w0. unfold unlinked. destruct (socketPath s); [now rewrite app_nil_r|reflexivity]. }
  destruct (fd =? -1).
  { apply since_app; cbn; rewrite <- !app_assoc; reflexivity. }
  destruct (r1 =? -1).
  { apply since_app; cbn; rewrite Hu; cbn; rewrite <- !app_assoc; reflexivity. }
  destruct (r2 =? -1).
  { apply since_app; cbn; rewrite Hu; cbn; rewrite <- !app_assoc; reflexivity. }
  match goal with
  | |- context [resumed ?e ?s0 ?w3] => pose proof (resumed_trace e s0 w3) as Ht
  end.
  cbn [trace log next] in Ht. rewrite Hu in Ht. cbn [trace log next] in Ht.
  destruct (r3 =? -1); apply since_app; cbn [world_of].
  - rewrite trace_log, Ht, <- !app_assoc. reflexivity.
  - rewrite Ht, <- !app_assoc. reflexivity.
Qed.

(** X1.  [open(false)] always returns.  It creates the socket, removes a
    stale socket name (unless the name is empty), binds, listens with a
    backlog of 2 and accepts one connection, each once and in this order;
    it stops at the first of these calls that answers -1, prints the error
    and returns false, leaving the socket it created open; it never
    connects, sleeps or tries again.  It returns true exactly when none of
    the four calls answered -1, and the accepted handle is then stored in
    [sender_fd]. *)
Theorem open_receiver_steps (s : Stream) (w : World) :
  let fd := ret_val (os w (tick w)) in
  let r1 := ret_val (os w (S (tick w))) in
  let r2 := ret_val (os w (S (S (tick w)))) in
  let r3 := ret_val (os w (S (S (S (tick w))))) in
  let addr := make_addr (socketPath s) in
  exists (b : bool) (s' : Stream) (w' : World),
    open false s w = Ret b s' w' /\
    since w w' =
      Socket fd ::
      (if fd =? -1 then [Diag "UnixSockTwoWayStream error:"]
       else
         unlinked (socketPath s) ++
         Bind fd addr r1 ::
         (if r1 =? -1 then [Diag "UnixSockTwoWayStream bind error"]
          else
            Listen fd 2 r2 ::
            (if r2 =? -1 then [Diag "UnixSockTwoWayStream listen error"]
             else
               Accept fd r3 ::
               (if r3 =? -1 then [Diag "UnixSockTwoWayStream accept error"]
                else [])))) /\
    b = negb (fd =? -1) && negb (r1 =? -1) && negb (r2 =? -1) && negb (r3 =? -1) /\
    (b = true -> sender_fd s' = r3 /\ tick w' = (tick w + 4)%nat) /\
    (env w = [] -> reader_fd s' = fd /\ openedAsReader s' = true /\
                   closed s' = closed s /\ happy s' = happy s).
Proof.
  intros fd r1 r2 r3 addr.
  pose proof (open_receiver_since s w) as Hlog. cbv zeta in Hlog.
  fold fd r1 r2 r3 addr in Hlog.
  rewrite open_receiver_unfold in *. cbv zeta in *.
  fold fd r1 r2 r3 addr in Hlog |- *.
  destruct (fd =? -1).
  { eexists _, _, _. split; [reflexivity|]. split; [exact Hlog|].
    repeat split; discriminate. }
  destruct (r1 =? -1).
  { eexists _, _, _. split; [reflexivity|]. split; [exact Hlog|].
    repeat split; discriminate. }
  destruct (r2 =? -1).
  { eexists _, _, _. split; [reflexivity|]. split; [exact Hlog|].
    repeat split; discriminate. }
  match type of Hlog with
  | context [resumed ?e ?s0 ?w3] =>
      pose proof (resumed_alone e s0 w3) as Ha;
      assert (Htk : tick (snd (resumed e s0 w3)) = S (S (S (S (tick w)))))
        by (unfold resumed; destruct (env w3); cbn; destruct (socketPath s); reflexivity);
      assert (Henv : env w3 = env w) by (cbn; destruct (socketPath s); reflexivity)
  end.
  rewrite Henv in Ha.
  destruct (r3 =? -1).
  - eexists _, _, _. split; [reflexivity|]. split; [exact Hlog|].
    split; [reflexivity|]. split; [discriminate|].
    intros E. destruct (Ha E) as [-> _]. cbn. auto.
  - eexists _, _, _. split; [reflexivity|]. split; [exact Hlog|].
    split; [reflexivity|]. split.
    + intros _. split; [reflexivity|]. rewrite Htk. lia.
    + intros E. destruct (Ha E) as [-> _]. cbn. auto.
Qed.

(** ** The socket address *)

Lemma substring_prefix (m : nat) (s : string) :
  prefix (substring 0 m s) s = true /\
  String.length (substring 0 m s) = Nat.min (String.length s) m /\
  ((String.length s <= m)%nat -> substring 0 m s = s).
Proof.
  revert m. induction s as [|c s IH]; intros m.
  - destruct m; cbn; auto.
  - destruct m as [|m]; cbn.
    + repeat split; auto. intros H. lia.
    + destruct (IH m) as (H1 & H2 & H3).
      destruct (Ascii.ascii_dec c c) as [_|N]; [|contradiction].
      repeat split; auto.
      intros H. f_equal. apply H3. lia.
Qed.

Lemma c_str_prefix (s : string) : prefix (c_str s) s = true.
Proof.
  induction s as [|c s IH]; [reflexivity|]. cbn [c_str].
  destruct (Ascii.eqb c Ascii.zero); [reflexivity|]. cbn.
  destruct (Ascii.ascii_dec c c) as [_|N]; [exact IH|contradiction].
Qed.

Lemma make_addr_cut (path : string) :
  path <> EmptyString ->
  make_addr path = SunPath (substring 0 107 (c_str path)).
Proof.
  intros Hne. destruct path; [contradiction|reflexivity].
Qed.

Lemma retries_to_addr (addr : sockaddr_un) (fails : list (Z * Z)) :
  Forall (to_addr addr) (retries addr fails).
Proof.
  induction fails as [|[fd r] fails IH]; [constructor|].
  change (retries addr ((fd, r) :: fails))
    with (Connect fd addr r :: Delay 10 :: retries addr fails).
  repeat constructor. exact IH.
Qed.

Lemma open_sender_since (s : Stream) (w : World) :
  let fd := ret_val (os w (tick w)) in
  let addr := make_addr (socketPath s) in
  fd <> -1 ->
  exists (fd' r : Z) (tail : list event),
    since w (world_of (open true s w)) = Socket fd :: Connect fd' addr r :: tail /\
    Forall (to_addr addr) tail.
Proof.
  intros fd addr Hfd. rewrite open_sender_unfold. cbv zeta. fold fd addr.
  destruct (Z.eqb_spec fd (-1)) as [|_]; [contradiction|].
  set (s0 := set_reader_fd fd (set_openedAsReader false s)).
  set (w0 := log (Socket fd) (next w)).
  destruct (connect_loop_shape 5 addr 0 s0 w0 eq_refl)
    as (n & s' & w' & fails & last & Hrun & Htr & _ & Hn & Hlast & _).
  rewrite Hrun.
  set (d := Diag "UnixSockTwoWayStream connect error, I tried 5 times...").
  assert (Hlog : since w (world_of (if n >=? 5 then Ret false s' (log d w') else Ret true s' w'))
                 = Socket fd :: retries addr fails ++ last ++ (if n >=? 5 then [d] else [])).
  { apply since_app. destruct (n >=? 5); cbn [world_of].
    - rewrite trace_log, Htr. subst w0. rewrite trace_log. cbn [next trace].
      rewrite <- !app_assoc. reflexivity.
    - rewrite Htr. subst w0. rewrite trace_log. cbn [next trace].
      rewrite app_nil_r, <- !app_assoc. reflexivity. }
  rewrite Hlog.
  assert (Hl : Forall (to_addr addr) (last ++ (if n >=? 5 then [d] else []))).
  { apply Forall_app. split.
    - destruct Hlast as [[_ [fd' ->]]|[_ ->]]; repeat constructor.
    - destruct (n >=? 5); repeat constructor. }
  destruct fails as [|[f r] fails].
  - cbn [retries flat_map app List.length] in *.
    destruct Hlast as [[_ [fd' ->]]|[Hn5 _]]; [|lia].
    exists fd', 0, (if n >=? 5 then [d] else []).
    split; [reflexivity|]. destruct (n >=? 5); repeat constructor.
  - exists f, r, (Delay 10 :: retries addr fails ++ last ++ (if n >=? 5 then [d] else [])).
    split; [reflexivity|].
    constructor; [exact I|]. apply Forall_app. split; [apply retries_to_addr|exact Hl].
Qed.

(** X2.  The name [open] hands to the system is the C string of the socket
    name, that is the name up to its first NUL, cut to the 107 characters
    that fit [sun_path] before its closing NUL: a C string of up to 107
    characters is used as it is, and so is a name of up to 107 characters
    that holds no NUL; a longer one is replaced by its first 107
    characters.  Once it has its socket, a sender connects to that address
    first thing, a receiver binds it right after removing the stale name,
    and no call of [open] names another address. *)
Theorem socket_name_cut (sender : bool) (s : Stream) (w : World) :
  socketPath s <> EmptyString ->
  ret_val (os w (tick w)) <> -1 ->
  exists (p : string) (fd r : Z) (tail : list event),
    prefix p (c_str (socketPath s)) = true /\
    String.length p = Nat.min (String.length (c_str (socketPath s))) 107 /\
    ((String.length (c_str (socketPath s)) <= 107)%nat -> p = c_str (socketPath s)) /\
    (c_str (socketPath s) = socketPath s ->
     (String.length (socketPath s) <= 107)%nat -> p = socketPath s) /\
    since w (world_of (open sender s w)) =
      Socket (ret_val (os w (tick w))) ::
      (if sender then Connect fd (SunPath p) r :: tail
       else Unlink (socketPath s) :: Bind fd (SunPath p) r :: tail) /\
    Forall (to_addr (SunPath p)) tail.
Proof.
  intros Hne Hfd.
  destruct (substring_prefix 107 (c_str (socketPath s))) as (Hp & Hl & Hid).
  pose proof (make_addr_cut (socketPath s) Hne) as Hm.
  exists (substring 0 107 (c_str (socketPath s))).
  assert (Hcut : forall fd r tail,
             since w (world_of (open sender s w)) =
             Socket (ret_val (os w (tick w))) ::
             (if sender
              then Connect fd (SunPath (substring 0 107 (c_str (socketPath s)))) r :: tail
              else Unlink (socketPath s) ::
                   Bind fd (SunPath (substring 0 107 (c_str (socketPath s)))) r :: tail) ->
             Forall (to_addr (SunPath (substring 0 107 (c_str (socketPath s))))) tail ->
             exists (fd r : Z) (tail : list event),
               prefix (substring 0 107 (c_str (socketPath s))) (c_str (socketPath s)) = true /\
               String.length (substring 0 107 (c_str (socketPath s))) =
               Nat.min (String.length (c_str (socketPath s))) 107 /\
               ((String.length (c_str (socketPath s)) <= 107)%nat ->
                substring 0 107 (c_str (socketPath s)) = c_str (socketPath s)) /\
               (c_str (socketPath s) = socketPath s ->
                (String.length (socketPath s) <= 107)%nat ->
                substring 0 107 (c_str (socketPath s)) = socketPath s) /\
               since w (world_of (open sender s w)) =
               Socket (ret_val (os w (tick w))) ::
               (if sender
                then Connect fd (SunPath (substring 0 107 (c_str (socketPath s)))) r :: tail
                else Unlink (socketPath s) ::
                     Bind fd (SunPath (substring 0 107 (c_str (socketPath s)))) r :: tail) /\
               Forall (to_addr (SunPath (substring 0 107 (c_str (socketPath s))))) tail).
  { intros fd r tail Hs Ht. exists fd, r, tail.
    split; [exact Hp|]. split; [exact Hl|]. split; [exact Hid|].
    split; [|split; [exact Hs|exact Ht]].
    intros E Hlen. rewrite <- E at 2. apply Hid. rewrite E. exact Hlen. }
  destruct sender.
  - destruct (open_sender_since s w Hfd) as (fd & r & tail & Hs & Ht).
    rewrite Hm in Hs, Ht. exact (Hcut fd r tail Hs Ht).
  - pose proof (open_receiver_since s w) as Hs. cbv zeta in Hs.
    rewrite Hm in Hs.
    assert (Hun : unlinked (socketPath s) = [Unlink (socketPath s)]).
    { unfold unlinked. destruct (socketPath s); [contradiction|reflexivity]. }
    rewrite Hun in Hs.
    destruct (Z.eqb_spec (ret_val (os w (tick w))) (-1)) as [|_]; [contradiction|].
    apply (Hcut _ _ _ Hs).
    destruct (_ =? -1); [repeat constructor|].
    destruct (_ =? -1); [repeat constructor|].
    destruct (_ =? -1); repeat constructor.
Qed.

(** X3.  For a socket name whose C string, the name up to its first NUL,
    has more than 107 characters, the receiver binds the first 107
    characters of it, and the stale name it removes just before is the
    whole C string of the name it unlinks: not the name it binds. *)
Theorem open_receiver_long_name (s : Stream) (w : World) :
  (107 < String.length (c_str (socketPath s)))%nat ->
  ret_val (os w (tick w)) <> -1 ->
  exists (p : string) (tail : list event),
    String.length p = 107%nat /\ prefix p (c_str (socketPath s)) = true /\
    p <> c_str (socketPath s) /\
    since w (world_of (open false s w)) =
      Socket (ret_val (os w (tick w))) ::
      Unlink (socketPath s) ::
      Bind (ret_val (os w (tick w))) (SunPath p) (ret_val (os w (S (tick w)))) :: tail.
Proof.
  intros Hlen Hfd.
  destruct (substring_prefix 107 (c_str (socketPath s))) as (Hp & Hl & _).
  exists (substring 0 107 (c_str (socketPath s))).
  assert (Hne : socketPath s <> EmptyString).
  { intros E. rewrite E in Hlen. cbn in Hlen. lia. }
  pose proof (make_addr_cut (socketPath s) Hne) as Hm.
  assert (Hun : unlinked (socketPath s) = [Unlink (socketPath s)]).
  { unfold unlinked. destruct (socketPath s); [contradiction|reflexivity]. }
  rewrite open_receiver_since. cbv zeta. rewrite Hm, Hun.
  apply Z.eqb_neq in Hfd. rewrite Hfd.
  eexists. split; [rewrite Hl; lia|]. split; [exact Hp|].
  split; [intros E; rewrite E in Hl; lia|]. reflexivity.
Qed.

(** ** Closing more than once, and without a descriptor *)

(** X4.  [close] on an object opened as sender, with no interrupt in
    flight.  With a descriptor above 0 it shuts that descriptor down and
    closes it, unlinks nothing, and leaves the object closed, unhappy and
    with the sentinel -1 in [reader_fd]; it makes no call that blocks.  A
    second [close] then changes nothing and makes no system call: closing
    twice is closing once, and so is the destruction of a closed object.
    Unless the descriptor is 0, a [write] after [close] is no more than
    that second [close]. *)
Theorem close_twice_sender (b : list Byte.byte) (s : Stream) (w : World) :
  openedAsReader s = false -> interrupting s = false ->
  (0 < reader_fd s ->
   exists w',
     close s w = Ret tt (set_happy false (set_reader_fd (-1) (set_closed true s))) w' /\
     since w w' =
       [Diag " interrupting socket"; Shutdown (reader_fd s); CloseFd (reader_fd s)] /\
     tick w' = tick w /\ env w' = env w) /\
  (close ;; close) s w = close s w /\
  (close ;; destructor) s w = close s w /\
  (reader_fd s <> 0 -> (close ;; write b) s w = close s w).
Proof.
  intros Hr Hi.
  split.
  { intros Hfd. unfold close. rewrite (close_sender unblock s w Hr Hi).
    destruct (Z.gtb_spec (reader_fd s) 0); [|lia].
    eexists. split; [reflexivity|].
    split; [apply since_app; cbn; rewrite <- !app_assoc; reflexivity|].
    split; reflexivity. }
  assert (H2 : forall s1 w1, close s w = Ret tt s1 w1 ->
                 close s1 w1 = Ret tt s1 w1 /\
                 (reader_fd s <> 0 -> write b s1 w1 = Ret tt s1 w1)).
  { intros s1 w1. unfold close at 1. rewrite (close_sender unblock s w Hr Hi).
    destruct (reader_fd s >? 0) eqn:Hfd; intros H; inversion H; subst; clear H.
    - assert (Hc : forall w0,
                close (set_happy false (set_reader_fd (-1) (set_closed true s))) w0 =
                Ret tt (set_happy false (set_reader_fd (-1) (set_closed true s))) w0)
        by (intros w0; apply close_again_sender; auto).
      split; [apply Hc|]. intros _.
      unfold write. rewrite write_over_unfold. cbn [reader_fd set_happy set_reader_fd].
      apply Hc.
    - assert (Hc : close (set_happy false s) w1 = Ret tt (set_happy false s) w1).
      { unfold close. rewrite close_sender by assumption.
        change (reader_fd (set_happy false s)) with (reader_fd s). rewrite Hfd.
        reflexivity. }
      split; [exact Hc|]. intros Hne.
      unfold write. rewrite write_over_unfold.
      change (reader_fd (set_happy false s)) with (reader_fd s).
      rewrite Z.gtb_ltb in Hfd. apply Z.ltb_ge in Hfd.
      destruct (Z.ltb_spec (reader_fd s) 0); [exact Hc|lia]. }
  unfold destructor, bind.
  destruct (close s w) as [[] s1 w1|s1 w1]; [|auto].
  destruct (H2 s1 w1 eq_refl) as [Hc Hw]. auto.
Qed.

(** What [write] logs first once it is past its guard. *)
Lemma write_first_event (b : list Byte.byte) (s : Stream) (w : World) :
  0 <= reader_fd s ->
  exists tail,
    trace (world_of (write b s w)) =
    trace w ++ WriteFd (io_fd s) b (ret_val (os w (tick w))) (errno (os w (tick w))) :: tail.
Proof.
  intros Hfd. unfold write. rewrite write_over_unfold. cbv zeta.
  destruct (Z.ltb_spec (reader_fd s) 0); [lia|].
  set (a := os w (tick w)).
  set (e := WriteFd (io_fd s) b (ret_val a) (errno a)).
  pose proof (resumed_trace e s w) as Ht.
  destruct (to_int (ret_val a) <? 0).
  - destruct (negb (errno_after_perror a =? ETIMEDOUT)).
    + destruct (extends_close (fst (resumed e s w))
                  (log (Diag "unixSock::write:Packet payload") (snd (resumed e s w))))
        as [tr Htr].
      exists (Diag "unixSock::write:Packet payload" :: tr).
      fold close. rewrite Htr, trace_log, Ht, <- !app_assoc. reflexivity.
    + exists [Diag "unixSock::write:Packet payload"].
      cbn [world_of]. rewrite trace_log, Ht, <- !app_assoc. reflexivity.
  - exists []. exact Ht.
Qed.

(** X5.  [close], and so the destructor, does its work only on a descriptor
    above 0.  With [reader_fd] at 0 or below it makes no system call, does
    not take part in the interrupt protocol, does not wait even for an
    interrupt in flight, and leaves [closed] as it is: it only clears
    [happy].  Descriptor 0 is in that case too, though [write] takes it for
    valid: after [close] a [write] still makes its [::write] on it. *)
Theorem close_needs_descriptor (b : list Byte.byte) (s : Stream) (w : World) :
  reader_fd s <= 0 ->
  close s w = Ret tt (set_happy false s) w /\
  destructor s w = Ret tt (set_happy false s) w /\
  (reader_fd s = 0 ->
   exists tail,
     since w (world_of ((close ;; write b) s w)) =
     WriteFd (io_fd s) b (ret_val (os w (tick w))) (errno (os w (tick w))) :: tail).
Proof.
  intros Hfd.
  assert (Hc : close s w = Ret tt (set_happy false s) w).
  { unfold close, close_over. unfold bind at 1, get. unfold bind at 1.
    destruct (Z.gtb_spec (reader_fd s) 0); [lia|reflexivity]. }
  split; [exact Hc|]. split; [exact Hc|].
  intros H0. unfold bind. rewrite Hc.
  destruct (write_first_event b (set_happy false s) w) as [tail Ht].
  { change (reader_fd (set_happy false s)) with (reader_fd s). lia. }
  exists tail. apply since_app. exact Ht.
Qed.

(** ** A [write] that passes *)

(** X6.  When the [::write] made by [write] answers a count that is not
    negative, [write] makes that one call, on the descriptor of its role
    and with the caller's bytes, and returns: the object is as the blocked
    call left it, nothing is closed, and the count is not looked at again,
    so that a short write is neither completed nor reported. *)
Theorem write_passes (b : list Byte.byte) (s : Stream) (w : World) :
  0 <= reader_fd s ->
  let a := os w (tick w) in
  let e := WriteFd (io_fd s) b (ret_val a) (errno a) in
  0 <= to_int (ret_val a) ->
  write b s w = Ret tt (fst (resumed e s w)) (snd (resumed e s w)) /\
  since w (snd (resumed e s w)) = [e] /\
  tick (snd (resumed e s w)) = S (tick w) /\
  (env w = [] -> fst (resumed e s w) = s).
Proof.
  intros Hfd a e Hr.
  split.
  - unfold write. rewrite write_over_unfold. cbv zeta.
    destruct (Z.ltb_spec (reader_fd s) 0); [lia|]. fold a. fold e.
    destruct (Z.ltb_spec (to_int (ret_val a)) 0); [lia|reflexivity].
  - split; [apply since_app, resumed_trace|].
    split; [unfold resumed; destruct (env w); reflexivity|].
    intros E. apply (resumed_alone e s w E).
Qed.

(** ** Waiting for the actor, and interrupting twice *)

Lemma turns_shift (n : nat) (p : Stream * list (Stream -> Stream)) :
  turns n (turn p) = turn (turns n p).
Proof. induction n as [|n IH]; [reflexivity|]. rewrite !turns_S, IH. reflexivity. Qed.

Lemma polls_S (n : nat) :
  polls (S n) =
  Diag "waiting for dgram interrupt to be finished..." :: Delay 100 :: polls n.
Proof. reflexivity. Qed.

(** The loop [while (interrupting)] of [interrupt]: it follows the other
    threads turn by turn and leaves at the first turn after which the flag
    is clear. *)
Lemma await_polls (n : nat) :
  forall (s : Stream) (w : World),
    n = List.length (env w) ->
    let o := await n (diag "waiting for dgram interrupt to be finished...") s w in
    exists k : nat,
      (k <= n)%nat /\
      (forall j, (j < k)%nat -> interrupting (fst (turns j (s, env w))) = true) /\
      state_of o = fst (turns k (s, env w)) /\
      returns o = negb (interrupting (state_of o)) /\
      trace (world_of o) = trace w ++ polls (if returns o then k else S k) /\
      tick (world_of o) = tick w /\
      (returns o = false -> k = n).
Proof.
  induction n as [|n IH]; intros s w Hn o.
  - exists 0%nat. subst o. cbn [await].
    destruct (interrupting s) eqn:Hi.
    + assert (E : env w = []) by (destruct (env w); [reflexivity|discriminate Hn]).
      unfold bind, diag, emit. rewrite delay_unfold.
      change (env (log ?e w)) with (env w). rewrite E. cbn.
      rewrite Hi. cbn. rewrite <- app_assoc.
      repeat split; auto. intros j Hj. lia.
    + cbn. rewrite Hi. cbn. rewrite app_nil_r. repeat split; auto.
      intros j Hj. lia.
  - subst o. cbn [await].
    destruct (interrupting s) eqn:Hi.
    + destruct (env w) as [|f rest] eqn:E; [discriminate Hn|].
      set (w1 := set_env rest
                   (log (Delay 100)
                      (log (Diag "waiting for dgram interrupt to be finished...") w))).
      assert (Hrun : (diag "waiting for dgram interrupt to be finished..." ;;
                      delay 100 ;;
                      await n (diag "waiting for dgram interrupt to be finished...")) s w =
                     await n (diag "waiting for dgram interrupt to be finished...") (f s) w1).
      { unfold bind at 1, diag at 1, emit at 1. unfold bind at 1. rewrite delay_unfold.
        change (env (log ?e w)) with (env w). rewrite E. reflexivity. }
      rewrite Hrun.
      assert (Hn1 : n = List.length (env w1)) by (cbn in *; lia).
      destruct (IH (f s) w1 Hn1) as (k & Hk & Hall & Hst & Hret & Htr & Htk & Hspin).
      change (env w1) with rest in *.
      assert (Hsh : forall j, turns (S j) (s, f :: rest) = turns j (f s, rest)).
      { intros j. rewrite turns_S, <- turns_shift. reflexivity. }
      exists (S k). split; [lia|]. split.
      { intros [|j] Hj; [exact Hi|]. rewrite Hsh. apply Hall. lia. }
      rewrite Hsh. split; [exact Hst|]. split; [exact Hret|].
      split.
      { rewrite Htr. unfold w1. cbn [trace set_env log].
        rewrite <- !app_assoc. cbn [app].
        destruct (returns _); rewrite polls_S; reflexivity. }
      split; [rewrite Htk; reflexivity|].
      intros Hf. rewrite (Hspin Hf). reflexivity.
    + exists 0%nat. cbn. rewrite Hi. cbn. rewrite app_nil_r.
      repeat split; auto; try lia.
Qed.

(** X7.  A caller of [interrupt] that finds an interrupt in flight is not
    the actor.  It prints the debug line and sleeps 100 ms for as long as
    [interrupting] is set, reading the flag once before each sleep; it
    makes no system call and writes nothing to the object, which is at
    every moment as the other threads have made it.  It returns after the
    first sleep that ends with the flag clear, and it never returns if the
    other threads finish with the flag still set. *)
Theorem interrupt_waits (s : Stream) (w : World) :
  interrupting s = true ->
  let o := interrupt s w in
  exists k : nat,
    (k <= List.length (env w))%nat /\
    (forall j, (j < k)%nat -> interrupting (fst (turns j (s, env w))) = true) /\
    state_of o = fst (turns k (s, env w)) /\
    returns o = negb (interrupting (state_of o)) /\
    since w (world_of o) =
      Diag " interrupting socket" :: polls (if returns o then k else S k) /\
    tick (world_of o) = tick w /\
    (returns o = false -> k = List.length (env w)).
Proof.
  intros Hi o. subst o. unfold interrupt. rewrite interrupt_over_unfold. cbv zeta.
  rewrite Hi. rewrite andb_false_r. cbn [andb]. unfold while_interrupting.
  set (w0 := log (Diag " interrupting socket") w).
  destruct (await_polls (List.length (env w0)) s w0 eq_refl)
    as (k & Hk & Hall & Hst & Hret & Htr & Htk & Hspin).
  exists k. change (env w0) with (env w) in *.
  repeat split; auto.
  apply since_app. rewrite Htr. unfold w0. rewrite trace_log, <- app_assoc. reflexivity.
Qed.

(** X8.  With no interrupt in flight, [interrupt] returns, and a second
    [interrupt] then does nothing: it prints the debug line, makes no
    system call, starts no unblock sequence and leaves the object as the
    first call left it.  The other threads are any under which [happy]
    only falls and [closed] only rises. *)
Theorem interrupt_twice (s : Stream) (w : World) :
  Forall tame (env w) -> interrupting s = false ->
  exists (s1 : Stream) (w1 : World),
    interrupt s w = Ret tt s1 w1 /\
    interrupt s1 w1 = Ret tt s1 (log (Diag " interrupting socket") w1) /\
    (interrupt ;; interrupt) s w = Ret tt s1 (log (Diag " interrupting socket") w1).
Proof.
  intros Ht Hi.
  destruct (interrupt_returns s w Hi) as (s1 & w1 & Hrun & Hi1).
  assert (Hinv : interrupting s = true -> closed s = true) by (rewrite Hi; discriminate).
  destruct (interrupt_dead s w Ht Hinv) as [Hd _]. rewrite Hrun in Hd. cbn in Hd.
  assert (H2 : interrupt s1 w1 = Ret tt s1 (log (Diag " interrupting socket") w1)).
  { apply interrupt_idle; [|exact Hi1].
    destruct Hd as [H|H]; rewrite H; [reflexivity|apply andb_false_r]. }
  exists s1, w1. split; [exact Hrun|]. split; [exact H2|].
  unfold bind. rewrite Hrun. exact H2.
Qed.

(** ** What the calls leave alone *)

Section Frame.

Variable I : Stream -> Stream -> Prop.
Hypothesis I_refl : forall s, I s s.
Hypothesis I_trans : forall s1 s2 s3, I s1 s2 -> I s2 s3 -> I s1 s3.

Ltac frame_instance :=
  first [ exact (rely_refl _ I_refl) | exact (rely_trans _ I_trans)
        | exact (rely_emit _ I_refl) | exact (rely_ask _ I_refl)
        | exact (rely_yield _ I_refl) | exact (rely_modify I)
        | exact (rely_private _ I_refl) | exact Logic.I | assumption ].

Lemma frame_bind {A B} (m : M A) (k : A -> M B) :
  keeps (rely I) m -> (forall a, keeps (rely I) (k a)) -> keeps (rely I) (bind m k).
Proof. apply keeps_bind. exact (rely_trans _ I_trans). Qed.

Lemma frame_ret {A} (a : A) : keeps (rely I) (ret a).
Proof. apply keeps_ret. exact (rely_refl _ I_refl). Qed.

Lemma frame_get : keeps (rely I) get.
Proof. apply keeps_get. exact (rely_refl _ I_refl). Qed.

Lemma frame_open (sender : bool) :
  within I (set_openedAsReader (negb sender)) ->
  (forall v, within I (set_reader_fd v)) -> (forall v, within I (set_sender_fd v)) ->
  keeps (rely I) (open sender).
Proof.
  intros H1 H2 H3.
  apply keeps_open with (sound := within I); frame_instance.
Qed.

Lemma frame_read (len : Z) :
  within I (set_happy false) -> keeps (rely I) (read len).
Proof.
  intros H1. apply keeps_read with (sound := within I); frame_instance.
Qed.

Lemma frame_interrupt :
  within I (set_closed true) -> (forall v, within I (set_interrupting v)) ->
  keeps (rely I) interrupt.
Proof.
  intros H1 H2.
  assert (Hlock : within I (fun s => set_closed true (set_interrupting true s)))
    by (intros s; exact (I_trans _ _ _ (H2 true s) (H1 (set_interrupting true s)))).
  pose proof (H2 false) as Hunlock.
  apply keeps_interrupt with (sound := within I) (trusted := fun _ _ => True);
    frame_instance.
Qed.

Lemma frame_close :
  (forall v, within I (set_reader_fd v)) -> (forall v, within I (set_sender_fd v)) ->
  within I (set_closed true) -> (forall v, within I (set_interrupting v)) ->
  within I (set_happy false) ->
  keeps (rely I) close.
Proof.
  intros H1 H2 H3 H4 H5.
  assert (Hlock : within I (fun s => set_closed true (set_interrupting true s)))
    by (intros s; exact (I_trans _ _ _ (H4 true s) (H3 (set_interrupting true s)))).
  pose proof (H4 false) as Hunlock.
  apply keeps_close with (sound := within I) (trusted := fun _ _ => True);
    frame_instance.
Qed.

Lemma frame_write (b : list Byte.byte) :
  (forall v, within I (set_reader_fd v)) -> (forall v, within I (set_sender_fd v)) ->
  within I (set_closed true) -> (forall v, within I (set_interrupting v)) ->
  within I (set_happy false) ->
  keeps (rely I) (write b).
Proof.
  intros H1 H2 H3 H4 H5.
  assert (Hlock : within I (fun s => set_closed true (set_interrupting true s)))
    by (intros s; exact (I_trans _ _ _ (H4 true s) (H3 (set_interrupting true s)))).
  pose proof (H4 false) as Hunlock.
  apply keeps_write with (sound := within I) (trusted := fun _ _ => True);
    frame_instance.
Qed.

(** A sequence of calls keeps what each of its calls keeps. *)
Lemma frame_run (P : call -> bool) :
  (forall c, P c = true -> keeps (rely I) (run_call c)) ->
  forall cs, forallb P cs = true -> keeps (rely I) (run cs).
Proof.
  intros HP. induction cs as [|c cs IH]; cbn [run forallb]; intros H.
  - apply frame_ret.
  - apply andb_true_iff in H. destruct H as [Hc Hcs].
    apply frame_bind; [apply HP, Hc|intros _; apply IH, Hcs].
Qed.

End Frame.

Lemma same_tap_refl s : same_tap s s.
Proof. repeat split. Qed.

Lemma same_tap_trans s1 s2 s3 : same_tap s1 s2 -> same_tap s2 s3 -> same_tap s1 s3.
Proof. unfold same_tap. intuition congruence. Qed.



Ltac frame_call refl trans :=
  repeat first [ apply (frame_ret _ refl) | apply (frame_get _ refl)
               | apply (frame_bind _ trans); [|intros ?]
               | apply rely_modify
               | intros ?; repeat split ].

Lemma transport_same_tap (c : call) :
  transport c = true -> keeps (rely same_tap) (run_call c).
Proof.
  destruct c; try discriminate; intros _; cbn [run_call];
    unfold flush, isOk, reset, beginPacket, endPacket, getMonitor,
      getLocalAddress, getRemoteAddress.
  - apply (frame_bind _ same_tap_trans); [|intros ?; apply (frame_ret _ same_tap_refl)].
    apply (frame_open _ same_tap_refl same_tap_trans); intros; intros ?; repeat split.
  - apply (frame_bind _ same_tap_trans); [|intros ?; apply (frame_ret _ same_tap_refl)].
    apply (frame_read _ same_tap_refl same_tap_trans); intros ?; repeat split.
  - apply (frame_write _ same_tap_refl same_tap_trans); intros; intros ?; repeat split.
  - frame_call same_tap_refl same_tap_trans.
  - apply (frame_interrupt _ same_tap_refl same_tap_trans); intros; intros ?; repeat split.
  - apply (frame_close _ same_tap_refl same_tap_trans); intros; intros ?; repeat split.
  - frame_call same_tap_refl same_tap_trans.
  - frame_call same_tap_refl same_tap_trans.
  - frame_call same_tap_refl same_tap_trans.
  - frame_call same_tap_refl same_tap_trans.
  - frame_call same_tap_refl same_tap_trans.
  - frame_call same_tap_refl same_tap_trans.
  - frame_call same_tap_refl same_tap_trans.
Qed.

Lemma run_same_tap (cs : list call) :
  forallb transport cs = true -> keeps (rely same_tap) (run cs).
Proof.
  apply (frame_run _ same_tap_refl same_tap_trans transport transport_same_tap).
Qed.

Lemma run_same_name (cs : list call) : keeps (rely same_name) (run cs).
Proof.
  assert (Hrefl : forall s, same_name s s) by reflexivity.
  assert (Htrans : forall s1 s2 s3, same_name s1 s2 -> same_name s2 s3 -> same_name s1 s3)
    by (unfold same_name; congruence).
  apply keeps_run with (sound := within same_name) (trusted := fun _ _ => True).
  1: exact (rely_refl _ Hrefl).
  1: exact (rely_trans _ Htrans).
  1: exact (rely_emit _ Hrefl).
  1: exact (rely_ask _ Hrefl).
  1: exact (rely_yield _ Hrefl).
  1: exact (rely_modify same_name).
  1: exact (rely_private _ Hrefl).
  all: first [ exact I | intros; intros ?; reflexivity ].
Qed.

(** X9.  The monitor buffer and the two addresses are written by their own
    setters and by nothing else: whatever is opened, read, written,
    interrupted or closed in between, and whether or not those calls
    return, [getMonitor] gives the bytes of the last [setMonitor] (none
    after [removeMonitor]) and the address getters give what was last set.
    The monitor is not a tap on the data, and [open] derives no address
    from the socket.  The socket name is written by nothing at all, the
    setters included.  The other threads are any that leave these four
    fields alone. *)
Theorem tap_and_addresses_kept (cs : list call) (s : Stream) (w : World) :
  Forall (within same_tap) (env w) ->
  forallb transport cs = true ->
  same_tap s (state_of (run cs s w)) /\
  (forall data s' w',
     (setMonitor data ;; run cs) s w = Ret tt s' w' ->
     getMonitor s' w' = Ret data s' w') /\
  (forall s' w',
     (removeMonitor ;; run cs) s w = Ret tt s' w' ->
     getMonitor s' w' = Ret [] s' w') /\
  (forall a s' w',
     (setLocalAddress a ;; run cs) s w = Ret tt s' w' ->
     getLocalAddress s' w' = Ret a s' w') /\
  (forall a s' w',
     (setRemoteAddress a ;; run cs) s w = Ret tt s' w' ->
     getRemoteAddress s' w' = Ret a s' w') /\
  (forall cs' : list call, socketPath (state_of (run cs' s w)) = socketPath s).
Proof.
  intros He Hcs.
  assert (H : forall s0, same_tap s0 (state_of (run cs s0 w)))
    by (intros s0; apply (run_same_tap cs Hcs s0 w He)).
  split; [apply H|].
  assert (Hname : forall cs' : list call,
            socketPath (state_of (run cs' s w)) = socketPath s).
  { intros cs'. apply (run_same_name cs' s w).
    eapply Forall_impl; [|exact He]. intros f Hf x. apply Hf. }
  enough (Hrest : (forall data s' w',
                     (setMonitor data ;; run cs) s w = Ret tt s' w' ->
                     getMonitor s' w' = Ret data s' w') /\
                  (forall s' w',
                     (removeMonitor ;; run cs) s w = Ret tt s' w' ->
                     getMonitor s' w' = Ret [] s' w') /\
                  (forall a s' w',
                     (setLocalAddress a ;; run cs) s w = Ret tt s' w' ->
                     getLocalAddress s' w' = Ret a s' w') /\
                  (forall a s' w',
                     (setRemoteAddress a ;; run cs) s w = Ret tt s' w' ->
                     getRemoteAddress s' w' = Ret a s' w'))
    by (destruct Hrest as (R1 & R2 & R3 & R4); auto).
  repeat split; intros;
    match goal with
    | Hrun : (?m ;; run cs) s w = Ret tt ?s' ?w' |- _ =>
        unfold bind, setMonitor, removeMonitor, setLocalAddress, setRemoteAddress,
          modify in Hrun;
        match type of Hrun with
        | run cs ?s0 w = _ =>
            destruct (H s0) as (_ & Hm & Hl & Hr); rewrite Hrun in Hm, Hl, Hr;
            cbn in Hm, Hl, Hr
        end
    end;
    unfold getMonitor, getLocalAddress, getRemoteAddress, bind, get, ret;
    congruence.
Qed.



(** ** One thread alone *)

Lemma quiet_run (cs : list call) : keeps quiet (run cs).
Proof.
  apply keeps_run with (sound := fun _ => True) (trusted := fun _ _ => True);
    try exact Logic.I; try (intros; exact Logic.I).
  - intros s w E. exact E.
  - intros s1 w1 s2 w2 s3 w3 H12 H23 E. auto.
  - intros e s w E. exact E.
  - intros s w E. exact E.
  - intros s w E. unfold yield. rewrite E. exact E.
  - intros f _ s w E. exact E.
  - intros A m tmp _ s w E. rewrite private_unfold.
    destruct (m tmp (set_env [] w)); cbn; [|exact E].
    rewrite E. reflexivity.
Qed.

Lemma same_interrupting_open (sender : bool) :
  keeps (rely same_interrupting) (open sender).
Proof.
  apply frame_open; try (intros; intros ?; reflexivity).
  - intros ?; reflexivity.
  - unfold same_interrupting. congruence.
Qed.

Lemma same_interrupting_read (len : Z) :
  keeps (rely same_interrupting) (read len).
Proof.
  apply frame_read; try (intros ?; reflexivity).
  unfold same_interrupting. congruence.
Qed.

Lemma total_read (len : Z) : total (read len).
Proof. unfold read, sys_read, diag, emit, modify, get, ask. total_all. Qed.

(** With no interrupt in flight [close] returns, and none is in flight
    then. *)
Lemma close_returns (s : Stream) (w : World) :
  interrupting s = false ->
  exists s' w', close s w = Ret tt s' w' /\ interrupting s' = false.
Proof.
  intros Hi. unfold close, close_over. unfold bind at 1, get. unfold bind at 1.
  destruct (reader_fd s >? 0).
  - unfold bind at 1. fold interrupt.
    destruct (interrupt_returns s w Hi) as (s1 & w1 & Hrun & Hi1).
    rewrite Hrun.
    unfold bind at 1, modify at 1. unfold bind at 1, while_interrupting.
    rewrite await_idle by exact Hi1.
    unfold bind at 1, get. unfold bind at 1.
    change (openedAsReader (set_closed true s1)) with (openedAsReader s1).
    destruct (openedAsReader s1); eexists _, _; (split; [reflexivity|exact Hi1]).
  - eexists _, _. split; [reflexivity|exact Hi].
Qed.

Lemma write_returns (b : list Byte.byte) (s : Stream) (w : World) :
  interrupting s = false -> env w = [] ->
  exists s' w', write b s w = Ret tt s' w' /\ interrupting s' = false.
Proof.
  intros Hi E. unfold write. rewrite write_over_unfold. cbv zeta.
  destruct (reader_fd s <? 0); [apply close_returns, Hi|].
  match goal with
  | |- context [resumed ?e s w] => destruct (resumed_alone e s w E) as [Hs _]; rewrite Hs
  end.
  destruct (to_int _ <? 0); [|eexists _, _; split; [reflexivity|exact Hi]].
  destruct (negb _); [apply close_returns, Hi|].
  eexists _, _; split; [reflexivity|exact Hi].
Qed.

Lemma run_call_alone (c : call) (s : Stream) (w : World) :
  interrupting s = false -> env w = [] ->
  exists s' w', run_call c s w = Ret tt s' w' /\ interrupting s' = false.
Proof.
  intros Hi E.
  assert (Hnil : Forall (within same_interrupting) (env w)) by (rewrite E; constructor).
  destruct c; cbn [run_call];
    try (eexists _, _; split; [reflexivity|exact Hi]).
  - destruct (same_interrupting_open sender s w Hnil) as [Hk _].
    pose proof (total_open sender s w) as Ht.
    unfold bind. destruct (open sender s w); [|discriminate Ht].
    eexists _, _. split; [reflexivity|]. cbn in Hk. rewrite Hk. exact Hi.
  - destruct (same_interrupting_read len s w Hnil) as [Hk _].
    pose proof (total_read len s w) as Ht.
    unfold bind. destruct (read len s w); [|discriminate Ht].
    eexists _, _. split; [reflexivity|]. cbn in Hk. rewrite Hk. exact Hi.
  - apply write_returns; assumption.
  - apply interrupt_returns, Hi.
  - apply close_returns, Hi.
Qed.

(** X11.  On an object that one thread uses alone, with no interrupt in
    flight, every call returns: no sequence of calls waits in the polling
    loop of [interrupt] or of [close], and no call returns with an
    interrupt in flight. *)
Theorem alone_never_waits (cs : list call) (s : Stream) (w : World) :
  interrupting s = false -> env w = [] ->
  exists s' w',
    run cs s w = Ret tt s' w' /\ interrupting s' = false /\ env w' = [].
Proof.
  revert s w. induction cs as [|c cs IH]; intros s w Hi E.
  - exists s, w. repeat split; assumption.
  - cbn [run]. unfold bind.
    destruct (run_call_alone c s w Hi E) as (s1 & w1 & Hrun & Hi1).
    pose proof (quiet_run [c] s w E) as E1.
    cbn [run] in E1. unfold bind in E1. rewrite Hrun in *. cbn in E1.
    apply IH; assumption.
Qed.

(** ** Descriptors shut down and closed by the unblock sequence *)

Lemma count_calm tr :
  Forall calm tr -> count is_shutdown tr = 0%nat /\ count is_closefd tr = 0%nat.
Proof.
  induction 1 as [|e tr (H1 & H2) _ (I1 & I2)]; [auto|].
  unfold count in *. cbn. rewrite H1, H2. auto.
Qed.

Lemma retries_calm addr fails : Forall calm (retries addr fails).
Proof.
  induction fails as [|[fd r] fails IH]; cbn; [constructor|].
  repeat constructor. exact IH.
Qed.

(** [close] on the throwaway object shuts down and closes its descriptor
    once if that is above 0, and leaves the sentinel behind. *)
Lemma tmp_close_closes (tmp : Stream) (w : World) :
  openedAsReader tmp = false -> interrupting tmp = false ->
  exists tmp' w' tr,
    tmp_close tmp w = Ret tt tmp' w' /\ trace w' = trace w ++ tr /\
    count is_shutdown tr = due (reader_fd tmp) /\
    count is_closefd tr = due (reader_fd tmp) /\
    due (reader_fd tmp') = 0%nat.
Proof.
  intros Hr Hi. unfold tmp_close. rewrite close_sender by assumption.
  unfold due. destruct (reader_fd tmp >? 0) eqn:Hpos.
  - eexists _, _, [Diag _; Shutdown _; CloseFd _].
    split; [reflexivity|].
    split; [cbn; rewrite <- !app_assoc; reflexivity|]. cbn. auto.
  - eexists _, _, []. split; [reflexivity|].
    split; [now rewrite app_nil_r|]. cbn. rewrite Hpos. auto.
Qed.

(** So does [write] on it when it ends as [close]; else it closes nothing. *)
Lemma tmp_write_closes (tmp : Stream) (w : World) :
  openedAsReader tmp = false -> interrupting tmp = false -> env w = [] ->
  exists tmp' w' tr,
    tmp_write empty tmp w = Ret tt tmp' w' /\ trace w' = trace w ++ tr /\
    (count is_shutdown tr + due (reader_fd tmp') = due (reader_fd tmp))%nat /\
    (count is_closefd tr + due (reader_fd tmp') = due (reader_fd tmp))%nat.
Proof.
  intros Hr Hi E. unfold tmp_write. rewrite write_over_unfold.
  destruct (reader_fd tmp <? 0) eqn:Hneg.
  - destruct (tmp_close_closes tmp w Hr Hi) as (tmp' & w' & tr & Hrun & Ht & C1 & C2 & C3).
    exists tmp', w', tr. unfold tmp_close in Hrun.
    split; [exact Hrun|]. split; [exact Ht|]. lia.
  - cbv zeta.
    set (a := os w (tick w)).
    set (e := WriteFd (io_fd tmp) empty (ret_val a) (errno a)).
    destruct (resumed_alone e tmp w E) as [Hs He].
    pose proof (resumed_trace e tmp w) as Ht.
    rewrite Hs.
    destruct (to_int (ret_val a) <? 0).
    + set (d := Diag "unixSock::write:Packet payload").
      destruct (negb (errno_after_perror a =? ETIMEDOUT)).
      * destruct (tmp_close_closes tmp (log d (snd (resumed e tmp w))) Hr Hi)
          as (tmp' & w' & tr & Hrun & Htr & C1 & C2 & C3).
        exists tmp', w', ([e; d] ++ tr). unfold tmp_close in Hrun.
        split; [exact Hrun|].
        split; [rewrite Htr, trace_log, Ht, <- !app_assoc; reflexivity|].
        rewrite !count_app. cbn. lia.
      * exists tmp, (log d (snd (resumed e tmp w))), [e; d].
        split; [reflexivity|].
        split; [rewrite trace_log, Ht, <- !app_assoc; reflexivity|].
        cbn. auto.
    + exists tmp, (snd (resumed e tmp w)), [e].
      split; [reflexivity|]. split; [exact Ht|]. cbn. auto.
Qed.

(** [open(true)] creates one socket and shuts down and closes nothing,
    whether it connects or not. *)
Lemma open_sender_log (s : Stream) (w : World) :
  let fd := ret_val (os w (tick w)) in
  exists b s' w' tr,
    open true s w = Ret b s' w' /\
    trace w' = trace w ++ Socket fd :: tr /\
    Forall calm tr /\ Forall plain tr /\
    (env w = [] -> s' = set_reader_fd fd (set_openedAsReader false s) /\ env w' = []).
Proof.
  intros fd. rewrite open_sender_unfold. cbv zeta. fold fd.
  set (s0 := set_reader_fd fd (set_openedAsReader false s)).
  set (w0 := log (Socket fd) (next w)).
  set (addr := make_addr (socketPath s)).
  destruct (fd =? -1).
  - eexists false, s0, _, [Diag _].
    split; [reflexivity|].
    split; [subst w0; cbn; rewrite <- app_assoc; reflexivity|].
    split; [repeat constructor|]. split; [repeat constructor|].
    intros E. split; [reflexivity|exact E].
  - destruct (connect_loop_shape 5 addr 0 s0 w0 eq_refl)
      as (n & s' & w' & fails & last & Hrun & Htr & Hf & Hn & Hlast & Hq).
    rewrite Hrun.
    destruct (retries_events addr 0 fails) as [_ Hpl].
    pose proof (retries_calm addr fails) as Hcalm.
    assert (Hl : Forall calm last /\ Forall plain last).
    { destruct Hlast as [[_ [fd' ->]]|[_ ->]]; split; repeat constructor. }
    destruct Hl as [Hlc Hlp].
    destruct (n >=? 5).
    + eexists false, s', _, (retries addr fails ++ last ++ [Diag _]).
      split; [reflexivity|].
      split; [rewrite trace_log, Htr; subst w0; cbn; rewrite <- !app_assoc; reflexivity|].
      split; [repeat (apply Forall_app; split); auto; repeat constructor|].
      split; [repeat (apply Forall_app; split); auto; repeat constructor|].
      intros E. destruct (Hq E) as (-> & E' & _). split; [reflexivity|exact E'].
    + exists true, s', w', (retries addr fails ++ last).
      split; [reflexivity|].
      split; [rewrite Htr; subst w0; cbn; rewrite <- !app_assoc; reflexivity|].
      split; [apply Forall_app; split; auto|].
      split; [apply Forall_app; split; auto|].
      intros E. destruct (Hq E) as (-> & E' & _). split; [reflexivity|exact E'].
Qed.

(** One turn of the loop of [interrupt] opens one socket, which it never
    closes, and shuts down and closes the peer handle of the object once if
    that handle is above 0: in [tmp.write], when that ends as [close], or
    else in [tmp.close]. *)
Lemma attempt_closes (s : Stream) (w : World) :
  let peer := sender_fd (fst (turns 1 (s, env w))) in
  exists s' w' tr,
    attempt s w = Ret tt s' w' /\
    trace w' = trace w ++ tr /\
    count is_socket tr = 1%nat /\
    count is_shutdown tr = due peer /\
    count is_closefd tr = due peer.
Proof.
  intros peer.
  unfold attempt, attempt_with. unfold bind at 1, get. unfold bind at 1.
  rewrite private_unfold.
  destruct (open_sender_log (UnixSockTwoWayStream (socketPath s)) (set_env [] w))
    as (b & tmp1 & w1 & tr1 & Hrun1 & Ht1 & Hc1 & Hp1 & Hq1).
  destruct (Hq1 eq_refl) as [Htmp1 _]. clear Hq1.
  assert (Hr1 : openedAsReader tmp1 = false) by (rewrite Htmp1; reflexivity).
  assert (Hi1 : interrupting tmp1 = false) by (rewrite Htmp1; reflexivity).
  clear Htmp1.
  rewrite Hrun1. clear Hrun1.
  set (p1 := turn (s, env w)).
  unfold bind at 1, get. unfold bind at 1. cbn [snd fst].
  change (sender_fd (fst p1)) with peer.
  set (tmp2 := set_reader_fd peer tmp1).
  assert (Hr2 : openedAsReader tmp2 = false) by exact Hr1.
  assert (Hi2 : interrupting tmp2 = false) by exact Hi1.
  assert (Hok2 : tmp_ok peer tmp2) by (unfold tmp_ok; cbn; auto).
  rewrite private_unfold.
  set (w2 := set_env [] (set_env (snd p1) w1)).
  destruct (tmp_write_closes tmp2 w2 Hr2 Hi2 eq_refl)
    as (tmp3 & w3 & tr3 & Hrun3 & Ht3 & Hd3 & Hc3).
  destruct (tmp_write_run SunAbstract peer tmp2 w2 Hok2 eq_refl)
    as (tmp3' & w3' & tr3' & Hrun3' & Hok3 & _ & Ht3' & _ & Hs3 & _).
  rewrite Hrun3 in Hrun3'. inversion Hrun3'; subst tmp3' w3'. clear Hrun3'.
  assert (tr3' = tr3) as -> by (apply (app_inv_head (trace w2)); congruence).
  rewrite Hrun3. clear Hrun3.
  change (due (reader_fd tmp2)) with (due peer) in Hd3, Hc3.
  destruct Hok3 as (Hr3 & Hi3 & _).
  change (env (set_env (snd p1) w1)) with (snd p1).
  change (turn (fst p1, snd p1)) with (turn p1). set (p2 := turn p1).
  unfold bind at 1. rewrite private_unfold. unfold flush at 1, ret at 1.
  change (env (set_env (snd p2) w3)) with (snd p2).
  change (turn (fst p2, snd p2)) with (turn p2). set (p3 := turn p2).
  unfold bind at 1. rewrite private_unfold. cbn [snd].
  set (w4 := set_env [] (set_env (snd p3) (set_env [] (set_env (snd p2) w3)))).
  destruct (tmp_close_closes tmp3 w4 Hr3 Hi3)
    as (tmp5 & w5 & tr5 & Hrun5 & Ht5 & Hd5 & Hc5 & Hz5).
  destruct (tmp_close_run SunAbstract (reader_fd tmp3) tmp3 w4)
    as (tmp5' & w5' & tr5' & Hrun5' & Hok5 & _ & Ht5' & _ & Hpl5);
    [unfold tmp_ok; auto|].
  rewrite Hrun5 in Hrun5'. inversion Hrun5'; subst tmp5' w5'. clear Hrun5'.
  assert (tr5' = tr5) as -> by (apply (app_inv_head (trace w4)); congruence).
  rewrite Hrun5. clear Hrun5.
  destruct Hok5 as (Hr5 & Hi5 & _).
  change (env (set_env (snd p3) (set_env [] (set_env (snd p2) w3)))) with (snd p3).
  change (turn (fst p3, snd p3)) with (turn p3). set (p4 := turn p3).
  unfold bind at 1, get. unfold bind at 1.
  unfold w4 in Ht5. unfold w2 in Ht3. cbn [trace set_env] in Ht1, Ht3, Ht5.
  destruct (count_calm tr1 Hc1) as (A1 & A2).
  destruct (count_plain tr1 Hp1) as (Hs1 & _).
  destruct (count_plain tr5 Hpl5) as (B1 & _).
  destruct (happy (fst p4)).
  - rewrite delay_turn.
    change (env (set_env (snd p4) w5)) with (snd p4).
    change (turn (fst p4, snd p4)) with (turn p4). set (p5 := turn p4).
    unfold bind at 1. rewrite private_unfold. cbn [snd].
    set (w6 := set_env [] (set_env (snd p5) (log (Delay 250) (set_env (snd p4) w5)))).
    destruct (tmp_close_closes tmp5 w6 Hr5 Hi5)
      as (tmp7 & w7 & tr7 & Hrun7 & Ht7 & Hd7 & Hc7 & _).
    destruct (tmp_close_run SunAbstract (reader_fd tmp5) tmp5 w6)
      as (tmp7' & w7' & tr7' & Hrun7' & _ & _ & Ht7' & _ & Hpl7);
      [unfold tmp_ok; auto|].
    rewrite Hrun7 in Hrun7'. inversion Hrun7'; subst tmp7' w7'. clear Hrun7'.
    assert (tr7' = tr7) as -> by (apply (app_inv_head (trace w6)); congruence).
    rewrite Hrun7. clear Hrun7. unfold w6 in Ht7. cbn [trace set_env log] in Ht7.
    destruct (count_plain tr7 Hpl7) as (C1 & _).
    eexists _, _, ([Socket (ret_val (os w (tick w)))] ++
                   tr1 ++ tr3 ++ tr5 ++ [Delay 250] ++ tr7).
    split; [reflexivity|].
    split; [cbn [trace set_env]; rewrite Ht7, Ht5, Ht3, Ht1, <- !app_assoc; reflexivity|].
    rewrite !count_app, Hs1, Hs3, B1, C1, A1, A2.
    rewrite Hz5 in Hd7, Hc7. rewrite Hd7, Hc7.
    cbn. repeat split; lia.
  - unfold ret at 1. unfold bind at 1. rewrite private_unfold. cbn [snd].
    set (w6 := set_env [] (set_env (snd p4) w5)).
    destruct (tmp_close_closes tmp5 w6 Hr5 Hi5)
      as (tmp7 & w7 & tr7 & Hrun7 & Ht7 & Hd7 & Hc7 & _).
    destruct (tmp_close_run SunAbstract (reader_fd tmp5) tmp5 w6)
      as (tmp7' & w7' & tr7' & Hrun7' & _ & _ & Ht7' & _ & Hpl7);
      [unfold tmp_ok; auto|].
    rewrite Hrun7 in Hrun7'. inversion Hrun7'; subst tmp7' w7'. clear Hrun7'.
    assert (tr7' = tr7) as -> by (apply (app_inv_head (trace w6)); congruence).
    rewrite Hrun7. clear Hrun7. unfold w6 in Ht7. cbn [trace set_env log] in Ht7.
    destruct (count_plain tr7 Hpl7) as (C1 & _).
    eexists _, _, ([Socket (ret_val (os w (tick w)))] ++ tr1 ++ tr3 ++ tr5 ++ tr7).
    split; [reflexivity|].
    split; [cbn [trace set_env]; rewrite Ht7, Ht5, Ht3, Ht1, <- !app_assoc; reflexivity|].
    rewrite !count_app, Hs1, Hs3, B1, C1, A1, A2.
    rewrite Hz5 in Hd7, Hc7. rewrite Hd7, Hc7.
    cbn. repeat split; lia.
Qed.

Lemma due_times (peer : Z) (n : nat) : (due peer + due peer * n = due peer * S n)%nat.
Proof. lia. Qed.

Lemma unblock_loop_closes (peer : Z) (ct : nat) :
  forall (s : Stream) (w : World),
    Forall bystander (env w) -> sender_fd s = peer ->
    exists s' w' tr,
      unblock_loop ct s w = Ret tt s' w' /\
      trace w' = trace w ++ tr /\
      count is_shutdown tr = (due peer * count is_socket tr)%nat /\
      count is_closefd tr = (due peer * count is_socket tr)%nat.
Proof.
  induction ct as [|ct IH]; intros s w Hby Hp.
  - exists s, w, []. cbn. rewrite app_nil_r. repeat split; lia.
  - cbn [unblock_loop]. unfold bind at 1, get.
    destruct (happy s) eqn:Hh.
    + unfold bind at 1.
      destruct (attempt_run s w) as (w1 & tr1 & Hrun & He1 & _).
      destruct (attempt_closes s w) as (s1' & w1' & tr1' & Hrun' & Ht1 & Hs1 & Hd1 & Hc1).
      rewrite Hrun in Hrun'. inversion Hrun'; subst s1' w1'. clear Hrun'.
      rewrite Hrun. clear Hrun.
      destruct (turns_bystander 1 s (env w) Hby) as (_ & Hp0 & _).
      rewrite Hp0, Hp in Hd1, Hc1.
      set (k := if happy (fst (turns 4 (s, env w))) then 6%nat else 5%nat) in *.
      destruct (turns_bystander k s (env w) Hby) as (_ & Hf1 & Hby1).
      rewrite <- He1 in Hby1.
      destruct (IH (fst (turns k (s, env w))) w1 Hby1)
        as (s' & w' & tr & Hrun & Ht & Hd & Hc); [congruence|].
      exists s', w', (tr1' ++ tr).
      split; [exact Hrun|].
      split; [rewrite Ht, Ht1, <- app_assoc; reflexivity|].
      rewrite !count_app, Hs1, Hd1, Hc1, Hd, Hc. cbn [Nat.add].
      split; apply due_times.
    + exists s, w, []. rewrite app_nil_r.
      split; [reflexivity|]. split; [reflexivity|]. cbn. split; lia.
Qed.

(** The unblock sequence of an actor that is a receiver. *)
Lemma unblock_closes (s : Stream) (w : World) :
  Forall bystander (env w) ->
  exists s' w' tr,
    unblock s w = Ret tt s' w' /\
    trace w' = trace w ++ tr /\
    Forall (unblock_event (make_addr (socketPath s)) (sender_fd s)) tr /\
    count is_shutdown tr = (due (sender_fd s) * count is_socket tr)%nat /\
    count is_closefd tr = (due (sender_fd s) * count is_socket tr)%nat /\
    (env w = [] -> happy s = true ->
     s' = s /\ env w' = [] /\ count is_socket tr = 3%nat).
Proof.
  intros Hby. unfold unblock, bind.
  destruct (unblock_loop_run (make_addr (socketPath s)) (sender_fd s) 3 s w Hby eq_refl eq_refl)
    as (s1 & w1 & tr1 & Hrun & Ht1 & Hev & _ & _ & _ & _ & Hq & _).
  destruct (unblock_loop_closes (sender_fd s) 3 s w Hby eq_refl)
    as (s1' & w1' & tr1' & Hrun' & Ht1' & Hd & Hc).
  rewrite Hrun in Hrun'. inversion Hrun'; subst s1' w1'. clear Hrun'.
  assert (tr1' = tr1) as -> by (apply (app_inv_head (trace w)); congruence).
  rewrite Hrun.
  exists s1, (log (Diag "dgram interrupt done") w1), (tr1 ++ [Diag "dgram interrupt done"]).
  split; [reflexivity|].
  split; [rewrite trace_log, Ht1, <- app_assoc; reflexivity|].
  split; [apply Forall_app; split; [exact Hev|repeat constructor]|].
  rewrite !count_app. cbn. rewrite !Nat.add_0_r.
  split; [exact Hd|]. split; [exact Hc|].
  intros E Hh. destruct (Hq E Hh) as (-> & E' & C & _). auto.
Qed.

Lemma same_peer_refl s : same_peer s s.
Proof. reflexivity. Qed.

Lemma same_peer_trans s1 s2 s3 : same_peer s1 s2 -> same_peer s2 s3 -> same_peer s1 s3.
Proof. unfold same_peer. congruence. Qed.

Lemma interrupt_same_peer : keeps (rely same_peer) interrupt.
Proof.
  apply (frame_interrupt _ same_peer_refl same_peer_trans); intros; intros ?; reflexivity.
Qed.

(** X12.  What wakes the reader: each attempt of the unblock sequence shuts
    down and closes the accepted peer handle of the object once, provided
    the handle is above 0 (in [tmp.write] when that fails and ends as
    [close], else in [tmp.close]); with the handle at 0 or below nothing is
    shut down or closed at all.  So three attempts close the same
    descriptor number three times, while the object goes on holding that
    number in [sender_fd]; the sockets the attempts create are not closed
    unless they bear that number.  The other threads are any that leave the
    socket name and the peer handle alone. *)
Theorem unblock_closes_peer (s : Stream) (w : World) :
  Forall bystander (env w) ->
  negb (closed s) && negb (interrupting s) && happy s && openedAsReader s = true ->
  let o := interrupt s w in
  let tr := since w (world_of o) in
  returns o = true /\
  sender_fd (state_of o) = sender_fd s /\
  count is_shutdown tr = (due (sender_fd s) * count is_socket tr)%nat /\
  count is_closefd tr = (due (sender_fd s) * count is_socket tr)%nat /\
  Forall (fun e => forall fd, e = Shutdown fd \/ e = CloseFd fd -> fd = sender_fd s) tr /\
  (env w = [] -> count is_socket tr = 3%nat).
Proof.
  intros Hby Hact o tr.
  assert (Hpeer : sender_fd (state_of o) = sender_fd s).
  { apply (interrupt_same_peer s w).
    eapply Forall_impl; [|exact Hby]. intros f Hf x. apply Hf. }
  split; [|split; [exact Hpeer|]]; subst tr o; clear Hpeer;
    unfold interrupt; rewrite interrupt_over_unfold; cbv zeta;
    apply andb_true_iff in Hact; destruct Hact as [Hact Hr]; rewrite Hact, Hr;
    set (s0 := set_closed true (set_interrupting true s));
    set (w0 := log (Diag " interrupting socket") w);
    destruct (unblock_closes s0 w0 Hby) as (s1 & w1 & tr1 & Hrun & Ht & Hev & Hd & Hc & Hq);
    rewrite Hrun; [reflexivity|].
  cbn [world_of].
  assert (Hs : since w w1 = Diag " interrupting socket" :: tr1).
  { apply since_app. rewrite Ht. unfold w0. rewrite trace_log, <- app_assoc. reflexivity. }
  rewrite Hs. change (Diag " interrupting socket" :: tr1)
    with ([Diag " interrupting socket"] ++ tr1).
  rewrite !count_app. cbn [count filter is_shutdown is_closefd is_socket List.length Nat.add].
  change (sender_fd s0) with (sender_fd s) in *.
  change (socketPath s0) with (socketPath s) in *.
  split; [exact Hd|]. split; [exact Hc|]. split.
  - apply Forall_app. split.
    + constructor; [|constructor]. intros fd [H|H]; discriminate H.
    + eapply Forall_impl; [|exact Hev].
      intros e He fd [H|H]; subst e; cbn in He; exact He.
  - intros E. apply (Hq E).
    apply andb_true_iff in Hact. apply Hact.
Qed.

(** ** [close] on a receiver *)

(** [close] once its [interrupt] has returned with no interrupt in flight. *)
Lemma close_after_interrupt (s s1 : Stream) (w w1 : World) :
  0 < reader_fd s ->
  interrupt s w = Ret tt s1 w1 -> interrupting s1 = false ->
  close s w =
  if openedAsReader s1 then
    Ret tt (set_happy false (set_sender_fd (-1) (set_closed true s1)))
        (log (Unlink (socketPath s1))
           (log (CloseFd (sender_fd s1)) (log (Shutdown (sender_fd s1)) w1)))
  else
    Ret tt (set_happy false (set_reader_fd (-1) (set_closed true s1)))
        (log (CloseFd (reader_fd s1)) (log (Shutdown (reader_fd s1)) w1)).
Proof.
  intros Hfd Hrun Hi1.
  unfold close, close_over. unfold bind at 1, get. unfold bind at 1.
  destruct (Z.gtb_spec (reader_fd s) 0); [|lia].
  unfold bind at 1. fold interrupt. rewrite Hrun.
  unfold bind at 1, modify at 1. unfold bind at 1, while_interrupting.
  rewrite await_idle by exact Hi1.
  unfold bind at 1, get. unfold bind at 1.
  change (openedAsReader (set_closed true s1)) with (openedAsReader s1).
  destruct (openedAsReader s1); reflexivity.
Qed.

(** [close] on a receiver that one thread uses alone. *)
Lemma close_receiver_log (s : Stream) (w : World) :
  openedAsReader s = true -> interrupting s = false -> 0 < reader_fd s ->
  env w = [] ->
  exists (w' : World) (tr : list event),
    close s w = Ret tt (set_happy false (set_sender_fd (-1) (set_closed true s))) w' /\
    since w w' =
      [Diag " interrupting socket"] ++ tr ++
      [Shutdown (sender_fd s); CloseFd (sender_fd s); Unlink (socketPath s)] /\
    Forall (unblock_event (make_addr (socketPath s)) (sender_fd s)) tr /\
    count is_socket tr = (if negb (closed s) && happy s then 3 else 0)%nat /\
    count is_closefd tr = (due (sender_fd s) * count is_socket tr)%nat /\
    env w' = [].
Proof.
  intros Hr Hi Hfd E.
  destruct (negb (closed s) && happy s) eqn:Hact.
  - assert (Hact' : negb (closed s) && negb (interrupting s) && happy s = true).
    { rewrite Hi. apply andb_true_iff in Hact. destruct Hact as [-> ->]. reflexivity. }
    set (s0 := set_closed true (set_interrupting true s)).
    set (w0 := log (Diag " interrupting socket") w).
    destruct (unblock_closes s0 w0) as (s1 & w1 & tr1 & Hrun & Ht & Hev & Hd & Hc & Hq).
    { unfold w0. cbn. rewrite E. constructor. }
    destruct Hq as (-> & E1 & Hs3); [exact E|apply andb_true_iff in Hact; apply Hact|].
    assert (Hint : interrupt s w = Ret tt (set_interrupting false s0) w1).
    { unfold interrupt. rewrite interrupt_over_unfold. cbv zeta.
      rewrite Hact', Hr. fold s0 w0. rewrite Hrun. reflexivity. }
    rewrite (close_after_interrupt s _ w w1 Hfd Hint eq_refl).
    change (openedAsReader (set_interrupting false s0)) with (openedAsReader s).
    rewrite Hr.
    change (sender_fd s0) with (sender_fd s) in *.
    change (socketPath s0) with (socketPath s) in *.
    eexists _, tr1.
    split; [f_equal; destruct s; cbn in *; subst; reflexivity|].
    split.
    { apply since_app. rewrite !trace_log, Ht. unfold w0. rewrite trace_log.
      rewrite <- !app_assoc. reflexivity. }
    split; [exact Hev|]. split; [exact Hs3|]. split; [exact Hc|exact E1].
  - assert (Hact' : negb (closed s) && negb (interrupting s) && happy s = false).
    { rewrite Hi. rewrite andb_true_r. exact Hact. }
    pose proof (interrupt_idle s w Hact' Hi) as Hint.
    rewrite (close_after_interrupt s _ w _ Hfd Hint Hi). rewrite Hr.
    eexists _, [].
    split; [reflexivity|].
    split; [apply since_app; rewrite !trace_log, <- !app_assoc; reflexivity|].
    split; [constructor|]. split; [reflexivity|]. split; [cbn; lia|exact E].
Qed.

(** Only the peer handle is shut down or closed in such a log. *)
Lemma only_peer_closed (addr : sockaddr_un) (peer fd : Z) (path : string)
      (tr : list event) :
  Forall (unblock_event addr peer) tr -> fd <> peer ->
  ~ In (Shutdown fd)
      ([Diag " interrupting socket"] ++ tr ++ [Shutdown peer; CloseFd peer; Unlink path]) /\
  ~ In (CloseFd fd)
      ([Diag " interrupting socket"] ++ tr ++ [Shutdown peer; CloseFd peer; Unlink path]).
Proof.
  intros Hev Hne. rewrite Forall_forall in Hev. cbn [app].
  split; intros [H|H]; try discriminate H;
    apply in_app_or in H; destruct H as [H|H];
    try (apply Hev in H; cbn in H; contradiction);
    cbn in H; intuition congruence.
Qed.

(** X13.  [close] on an object opened as receiver that one thread uses
    alone: after [interrupt] (with its unblock sequence, if the object was
    open and happy) it shuts down and closes the accepted peer handle,
    unlinks the socket name, and leaves the object closed, unhappy and with
    the sentinel in [sender_fd].  The listening socket in [reader_fd] is
    neither shut down nor closed, and its number stays in [reader_fd].  If
    the unblock sequence ran on a peer handle above 0, that handle had been
    closed three times before. *)
Theorem close_receiver (s : Stream) (w : World) :
  openedAsReader s = true -> interrupting s = false -> 0 < reader_fd s ->
  env w = [] ->
  exists (w' : World) (tr : list event),
    close s w = Ret tt (set_happy false (set_sender_fd (-1) (set_closed true s))) w' /\
    since w w' =
      [Diag " interrupting socket"] ++ tr ++
      [Shutdown (sender_fd s); CloseFd (sender_fd s); Unlink (socketPath s)] /\
    Forall (unblock_event (make_addr (socketPath s)) (sender_fd s)) tr /\
    count is_socket tr = (if negb (closed s) && happy s then 3 else 0)%nat /\
    count is_closefd (since w w') = S (due (sender_fd s) * count is_socket tr) /\
    (reader_fd s <> sender_fd s ->
     ~ In (Shutdown (reader_fd s)) (since w w') /\
     ~ In (CloseFd (reader_fd s)) (since w w')) /\
    env w' = [].
Proof.
  intros Hr Hi Hfd E.
  destruct (close_receiver_log s w Hr Hi Hfd E)
    as (w' & tr & Hrun & Hs & Hev & Hn & Hc & E').
  exists w', tr. rewrite Hs.
  split; [exact Hrun|]. split; [reflexivity|]. split; [exact Hev|].
  split; [exact Hn|]. split.
  - rewrite !count_app, Hc. cbn. lia.
  - split; [|exact E']. intros Hne. eapply only_peer_closed; eassumption.
Qed.

(** ** [interrupt] on an object used by one thread *)

(** X14.  [interrupt] on an object that one thread uses alone, with no
    interrupt in flight.  If the object is open and happy it is marked
    closed, and that is all that changes: [happy] stays true, so [isOk]
    still answers true after [interrupt], and the descriptors and the role
    are as before.  Otherwise nothing changes.  For a sender the call logs
    nothing but its debug line. *)
Theorem interrupt_alone (s : Stream) (w : World) :
  env w = [] -> interrupting s = false ->
  let s' := if negb (closed s) && happy s then set_closed true s else s in
  exists w' : World,
    interrupt s w = Ret tt s' w' /\
    env w' = [] /\
    isOk s' w' = Ret (happy s) s' w' /\
    (openedAsReader s = false -> w' = log (Diag " interrupting socket") w).
Proof.
  intros E Hi s'.
  assert (Hok : forall w', isOk s' w' = Ret (happy s) s' w').
  { intros w'. subst s'. unfold isOk, bind, get, ret.
    destruct (negb (closed s) && happy s); reflexivity. }
  destruct (openedAsReader s) eqn:Hr.
  - destruct (negb (closed s) && happy s) eqn:Hact.
    + assert (Hact' : negb (closed s) && negb (interrupting s) && happy s = true).
      { rewrite Hi. apply andb_true_iff in Hact. destruct Hact as [-> ->]. reflexivity. }
      set (s0 := set_closed true (set_interrupting true s)).
      set (w0 := log (Diag " interrupting socket") w).
      destruct (unblock_closes s0 w0) as (s1 & w1 & tr1 & Hrun & _ & _ & _ & _ & Hq).
      { unfold w0. cbn. rewrite E. constructor. }
      destruct Hq as (-> & E1 & _); [exact E|apply andb_true_iff in Hact; apply Hact|].
      exists w1. split.
      { unfold interrupt. rewrite interrupt_over_unfold. cbv zeta.
        rewrite Hact', Hr. fold s0 w0. rewrite Hrun. f_equal.
        subst s' s0. destruct s; cbn in *; subst; reflexivity. }
      split; [exact E1|]. split; [apply Hok|discriminate].
    + assert (Hact' : negb (closed s) && negb (interrupting s) && happy s = false).
      { rewrite Hi. rewrite andb_true_r. exact Hact. }
      exists (log (Diag " interrupting socket") w).
      split; [apply interrupt_idle; assumption|].
      split; [exact E|]. split; [apply Hok|discriminate].
  - exists (log (Diag " interrupting socket") w).
    split; [apply interrupt_sender; assumption|].
    split; [exact E|]. split; [apply Hok|reflexivity].
Qed.

(** ** From [open] to [close] *)

Lemma since_extends (w w' : World) :
  (exists tr, trace w' = trace w ++ tr) -> trace w' = trace w ++ since w w'.
Proof. intros [tr H]. rewrite (since_app w w' tr H). exact H. Qed.

Lemma since_chain (w w1 w2 : World) :
  (exists tr, trace w1 = trace w ++ tr) -> (exists tr, trace w2 = trace w1 ++ tr) ->
  since w w2 = since w w1 ++ since w1 w2.
Proof.
  intros H1 H2. apply since_app.
  rewrite (since_extends w1 w2 H2), (since_extends w w1 H1), <- app_assoc. reflexivity.
Qed.

(** [open], in either role, returns, having created one socket and shut
    down or closed nothing. *)
Lemma open_log (sender : bool) (s : Stream) (w : World) :
  exists b s' w',
    open sender s w = Ret b s' w' /\
    (exists tr, trace w' = trace w ++ tr) /\
    Forall calm (since w w') /\ count is_socket (since w w') = 1%nat.
Proof.
  destruct sender.
  - destruct (open_sender_log s w) as (b & s' & w' & tr & Hrun & Ht & Hc & Hp & _).
    exists b, s', w'. split; [exact Hrun|]. split; [eexists; exact Ht|].
    rewrite (since_app _ _ _ Ht).
    split; [constructor; [split; reflexivity|exact Hc]|].
    destruct (count_plain tr Hp) as (C & _).
    change (Socket ?fd :: tr) with ([Socket fd] ++ tr). rewrite count_app, C. reflexivity.
  - pose proof (total_open false s w) as Htot.
    pose proof (extends_open false s w) as Hext.
    pose proof (open_receiver_since s w) as Hs. cbv zeta in Hs.
    destruct (open false s w) as [b s' w'|]; [|discriminate Htot].
    cbn [state_of world_of] in *.
    exists b, s', w'. split; [reflexivity|]. split; [exact Hext|].
    rewrite Hs. unfold unlinked.
    destruct (socketPath s);
      destruct (ret_val (os w (tick w)) =? -1);
      destruct (ret_val (os w (S (tick w))) =? -1);
      destruct (ret_val (os w (S (S (tick w)))) =? -1);
      destruct (ret_val (os w (S (S (S (tick w))))) =? -1);
      (split; [repeat constructor|reflexivity]).
Qed.

(** X15.  [open] never shuts down or closes a descriptor, in either role
    and whatever it returns.  Called again on an object that holds a
    socket it creates a second one: after two calls of [open], which both
    return, two sockets have been created and none has been closed. *)
Theorem open_never_closes (a b : bool) (s : Stream) (w : World) :
  let o := (open a ;; open b) s w in
  returns o = true /\
  count is_socket (since w (world_of o)) = 2%nat /\
  count is_shutdown (since w (world_of o)) = 0%nat /\
  count is_closefd (since w (world_of o)) = 0%nat /\
  Forall calm (since w (world_of (open a s w))).
Proof.
  intros o. subst o. unfold bind.
  destruct (open_log a s w) as (b1 & s1 & w1 & Hrun1 & He1 & Hc1 & Hn1).
  rewrite Hrun1.
  destruct (open_log b s1 w1) as (b2 & s2 & w2 & Hrun2 & He2 & Hc2 & Hn2).
  rewrite Hrun2. cbn [returns world_of].
  rewrite (since_chain w w1 w2 He1 He2), !count_app, Hn1, Hn2.
  destruct (count_calm _ Hc1) as (A1 & A2). destruct (count_calm _ Hc2) as (B1 & B2).
  rewrite A1, A2, B1, B2. repeat split. exact Hc1.
Qed.

(** X16.  A sender that one thread uses alone gives back the socket it
    created: whether [open(true)] has connected or has given up after its
    attempts, the socket it created (above 0) is the descriptor a following
    [close] shuts down and closes, once, and nothing else is shut down or
    closed between the two. *)
Theorem sender_socket_released (s : Stream) (w : World) :
  interrupting s = false -> env w = [] ->
  0 < ret_val (os w (tick w)) ->
  exists (s' : Stream) (w' : World) (tr : list event),
    (open true ;; close) s w = Ret tt s' w' /\
    since w w' =
      Socket (ret_val (os w (tick w))) :: tr ++
      [Diag " interrupting socket";
       Shutdown (ret_val (os w (tick w))); CloseFd (ret_val (os w (tick w)))] /\
    Forall calm tr /\
    reader_fd s' = -1 /\ closed s' = true /\ happy s' = false.
Proof.
  intros Hi E Hfd. unfold bind.
  destruct (open_sender_log s w) as (b & s1 & w1 & tr & Hrun & Ht & Hc & _ & Hq).
  destruct (Hq E) as [-> E1]. rewrite Hrun.
  unfold close. rewrite close_sender by (cbn; auto).
  cbn [reader_fd set_reader_fd].
  destruct (Z.gtb_spec (ret_val (os w (tick w))) 0); [|lia].
  eexists _, _, tr. split; [reflexivity|].
  split; [apply since_app; rewrite !trace_log, Ht, <- !app_assoc; reflexivity|].
  split; [exact Hc|]. repeat split.
Qed.

(** X17.  A receiver that one thread uses alone does not give back the
    socket it created.  After an [open(false)] that succeeded, [close]
    shuts down and closes the accepted handle and unlinks the socket name;
    the listening socket is neither shut down nor closed by either call,
    and its number is still in [reader_fd] when [close] has returned. *)
Theorem receiver_socket_leaked (s : Stream) (w : World) :
  interrupting s = false -> env w = [] ->
  let fd := ret_val (os w (tick w)) in
  let r1 := ret_val (os w (S (tick w))) in
  let r2 := ret_val (os w (S (S (tick w)))) in
  let r3 := ret_val (os w (S (S (S (tick w))))) in
  0 < fd -> r1 <> -1 -> r2 <> -1 -> r3 <> -1 -> r3 <> fd ->
  exists (s' : Stream) (w' : World),
    (open false ;; close) s w = Ret tt s' w' /\
    reader_fd s' = fd /\ sender_fd s' = -1 /\
    In (CloseFd r3) (since w w') /\
    In (Unlink (socketPath s)) (since w w') /\
    ~ In (Shutdown fd) (since w w') /\
    ~ In (CloseFd fd) (since w w').
Proof.
  intros Hi E fd r1 r2 r3 Hfd H1 H2 H3 Hne.
  pose proof (extends_open false s w) as Hext.
  pose proof (open_receiver_since s w) as Hs. cbv zeta in Hs.
  unfold bind. rewrite open_receiver_unfold in *. cbv zeta in *.
  fold fd r1 r2 r3 in Hs, Hext |- *.
  assert (F0 : (fd =? -1) = false) by (apply Z.eqb_neq; lia).
  apply Z.eqb_neq in H1, H2, H3. rewrite F0, H1, H2, H3 in *.
  set (s0 := set_reader_fd fd (set_openedAsReader true s)) in *.
  match type of Hs with
  | context [resumed ?e s0 ?w3] =>
      destruct (resumed_alone e s0 w3) as [Hs4 Hw4];
        [cbn; destruct (socketPath s); exact E|];
      set (w4 := snd (resumed e s0 w3)) in *
  end.
  rewrite Hs4. cbn [world_of state_of] in Hs, Hext.
  destruct (close_receiver_log (set_sender_fd r3 s0) w4)
    as (w' & tr & Hrun & Hsc & Hev & _ & _ & _); [reflexivity|exact Hi|exact Hfd|exact Hw4|].
  pose proof (extends_close (set_sender_fd r3 s0) w4) as Hext2.
  rewrite Hrun in *. cbn [world_of state_of] in Hext2.
  eexists _, w'. split; [reflexivity|].
  split; [reflexivity|]. split; [reflexivity|].
  rewrite (since_chain w w4 w' Hext Hext2), Hs, Hsc.
  change (sender_fd (set_sender_fd r3 s0)) with r3 in *.
  change (socketPath (set_sender_fd r3 s0)) with (socketPath s) in *.
  destruct (only_peer_closed _ r3 fd (socketPath s) tr Hev) as [N1 N2]; [congruence|].
  assert (Hopen : forall e, (e = Shutdown fd \/ e = CloseFd fd) ->
                    ~ In e (Socket fd :: unlinked (socketPath s) ++
                            [Bind fd (make_addr (socketPath s)) r1; Listen fd 2 r2;
                             Accept fd r3])).
  { intros e He [H|H]; [destruct He; subst e; discriminate H|].
    apply in_app_or in H. destruct H as [H|H].
    - unfold unlinked in H. destruct (socketPath s); cbn in H;
        destruct He; subst e; intuition discriminate.
    - cbn in H. destruct He; subst e; intuition discriminate. }
  split; [apply in_or_app; right; apply in_or_app; right; apply in_or_app; right;
          cbn; auto|].
  split; [apply in_or_app; right; apply in_or_app; right; apply in_or_app; right;
          cbn; auto|].
  split; intros H; apply in_app_or in H; destruct H as [H|H];
    first [ exact (Hopen _ (or_introl eq_refl) H)
          | exact (Hopen _ (or_intror eq_refl) H)
          | exact (N1 H) | exact (N2 H) ].
Qed.

(** ** The interrupt flag and the closed flag *)

Lemma guard_kept_refl s : guard_kept s s.
Proof. intros H. exact H. Qed.

Lemma guard_kept_trans s1 s2 s3 : guard_kept s1 s2 -> guard_kept s2 s3 -> guard_kept s1 s3.
Proof. unfold guard_kept. auto. Qed.

(** X18.  [interrupting] is never set without [closed]: the locked section
    of [interrupt] sets the two together, [interrupting] is cleared on its
    own, and nothing clears [closed].  So at every point of every sequence
    of calls, on an object that started that way (as a new one does), also
    where a call waits for ever, an interrupt in flight means a closed
    object.  The other threads are any that keep to this, as the methods
    do. *)
Theorem interrupting_implies_closed (cs : list call) (s : Stream) (w : World) :
  Forall (within guard_kept) (env w) ->
  guarded s ->
  guarded (state_of (run cs s w)).
Proof.
  intros He Hg.
  assert (H : keeps (rely guard_kept) (run cs)).
  { apply keeps_run with (sound := within guard_kept) (trusted := fun _ _ => True).
    1: exact (rely_refl _ guard_kept_refl).
    1: exact (rely_trans _ guard_kept_trans).
    1: exact (rely_emit _ guard_kept_refl).
    1: exact (rely_ask _ guard_kept_refl).
    1: exact (rely_yield _ guard_kept_refl).
    1: exact (rely_modify guard_kept).
    1: exact (rely_private _ guard_kept_refl).
    all: first [ exact I
               | intros; intros x Hx Hi; cbn in *; first [ reflexivity | discriminate | auto ] ]. }
  destruct (H s w He) as [Hk _]. exact (Hk Hg).
Qed.

(** ** End of stream and read errors *)

(** X19.  End of stream is final, a read error is not.  After a [read]
    whose [::read] answered zero bytes, whatever calls follow, every [read]
    gives -1 at once and makes no system call.  After a [read] whose
    [::read] answered an error on an object not closed meanwhile, the
    object is as it was and the next [read] makes a new [::read] on the same
    descriptor.  The other threads are any under which [happy] only falls
    and [closed] only rises (none, for the second part). *)
Theorem read_eof_is_final (len len' : Z) (s : Stream) (w : World) :
  closed s = false -> happy s = true ->
  let r := ret_val (os w (tick w)) in
  (to_int r = 0 -> Forall tame (env w) ->
   forall (cs : list call) (s' : Stream) (w' : World),
     (read len ;; run cs) s w = Ret tt s' w' ->
     read len' s' w' = Ret (-1) s' w') /\
  (to_int r < 0 -> env w = [] ->
   exists tail,
     since w (world_of ((read len ;; read len') s w)) =
     ReadFd (io_fd s) len r :: Diag "unixSock::read():Packet payload" ::
     ReadFd (io_fd s) len' (ret_val (os w (S (tick w)))) :: tail).
Proof.
  intros Hc Hh r. split.
  - intros Hr Ht cs s' w'. unfold bind.
    rewrite read_unfold, Hc, Hh. cbn [negb orb]. cbv zeta. fold r.
    assert (Hres : Forall tame (env (snd (resumed (ReadFd (io_fd s) len r) s w)))).
    { unfold resumed. destruct (env w) as [|f rest] eqn:E; cbn.
      - rewrite E. constructor.
      - inversion Ht; assumption. }
    destruct (resumed (ReadFd (io_fd s) len r) s w) as [s1 w1]. cbn [snd] in Hres.
    rewrite Hr. rewrite orb_true_r.
    intros Hrun.
    destruct (run_flags_le cs (set_happy false s1) w1 Hres) as [Hle _].
    rewrite Hrun in Hle. cbn in Hle.
    apply read_dead, (dead_le (set_happy false s1)); [exact Hle|right; reflexivity].
  - intros Hr E. unfold bind.
    rewrite read_unfold, Hc, Hh. cbn [negb orb]. cbv zeta. fold r.
    destruct (resumed_alone (ReadFd (io_fd s) len r) s w E) as [Hs1 He1].
    pose proof (resumed_trace (ReadFd (io_fd s) len r) s w) as Ht1.
    assert (Htk : tick (snd (resumed (ReadFd (io_fd s) len r) s w)) = S (tick w) /\
                  os (snd (resumed (ReadFd (io_fd s) len r) s w)) = os w).
    { unfold resumed. destruct (env w); split; reflexivity. }
    destruct Htk as [Htk Hos].
    destruct (resumed (ReadFd (io_fd s) len r) s w) as [s1 w1].
    cbn [fst snd] in *. subst s1. rewrite Hc. cbn [orb].
    destruct (Z.eqb_spec (to_int r) 0) as [H0|_]; [lia|].
    destruct (Z.ltb_spec (to_int r) 0) as [_|]; [|lia].
    set (w2 := log (Diag "unixSock::read():Packet payload") w1).
    rewrite read_unfold, Hc, Hh. cbn [negb orb]. cbv zeta.
    change (os w2) with (os w1). change (tick w2) with (tick w1). rewrite Hos, Htk.
    set (r' := ret_val (os w (S (tick w)))).
    pose proof (resumed_trace (ReadFd (io_fd s) len' r') s w2) as Ht2.
    destruct (resumed (ReadFd (io_fd s) len' r') s w2) as [s3 w3]. cbn [snd] in Ht2.
    unfold w2 in Ht2. rewrite trace_log, Ht1 in Ht2.
    destruct (closed s3 || (to_int r' =? 0)).
    + exists []. apply since_app. cbn [world_of]. rewrite Ht2, <- !app_assoc. reflexivity.
    + destruct (to_int r' <? 0).
      * exists [Diag "unixSock::read():Packet payload"]. apply since_app.
        cbn [world_of]. rewrite trace_log, Ht2, <- !app_assoc. reflexivity.
      * exists []. apply since_app. cbn [world_of]. rewrite Ht2, <- !app_assoc.
        reflexivity.
Qed.

(** ** [close] while an interrupt is in flight *)

(** When [interrupt] returns, no interrupt is in flight. *)
Lemma interrupt_leaves_idle (s s1 : Stream) (w w1 : World) :
  interrupt s w = Ret tt s1 w1 -> interrupting s1 = false.
Proof.
  intros Hrun. destruct (interrupting s) eqn:Hi.
  - unfold interrupt in Hrun. rewrite interrupt_over_unfold in Hrun. cbv zeta in Hrun.
    rewrite Hi, andb_false_r in Hrun. cbn [andb] in Hrun.
    unfold while_interrupting in Hrun.
    set (w0 := log (Diag " interrupting socket") w) in Hrun.
    destruct (await_polls (List.length (env w0)) s w0 eq_refl)
      as (k & _ & _ & _ & Hret & _).
    rewrite Hrun in Hret. cbn in Hret.
    destruct (interrupting s1); [discriminate Hret|reflexivity].
  - destruct (interrupt_returns s w Hi) as (s2 & w2 & Hrun' & Hi2).
    rewrite Hrun in Hrun'. inversion Hrun'; subst. exact Hi2.
Qed.

(** X20.  [close] on a descriptor above 0 waits exactly as long as its
    [interrupt] does: it returns if and only if [interrupt] returns, so a
    [close] (or the destructor) that meets an interrupt in flight hangs
    for ever when the actor never clears [interrupting].  When it returns
    the object is closed and unhappy, with no interrupt in flight. *)
Theorem close_waits_for_interrupt (s : Stream) (w : World) :
  0 < reader_fd s ->
  returns (close s w) = returns (interrupt s w) /\
  returns (destructor s w) = returns (interrupt s w) /\
  (forall s' w', close s w = Ret tt s' w' ->
     closed s' = true /\ happy s' = false /\ interrupting s' = false).
Proof.
  intros Hfd.
  assert (H : returns (close s w) = returns (interrupt s w) /\
              (forall s' w', close s w = Ret tt s' w' ->
                 closed s' = true /\ happy s' = false /\ interrupting s' = false)).
  { destruct (interrupt s w) as [[] s1 w1|s1 w1] eqn:Hint.
    - pose proof (interrupt_leaves_idle s s1 w w1 Hint) as Hi1.
      rewrite (close_after_interrupt s s1 w w1 Hfd Hint Hi1).
      destruct (openedAsReader s1); (split; [reflexivity|]);
        intros s' w' H; inversion H; subst; cbn; auto.
    - assert (Hc : close s w = Spin s1 w1).
      { unfold close, close_over. unfold bind at 1, get. unfold bind at 1.
        destruct (Z.gtb_spec (reader_fd s) 0); [|lia].
        unfold bind at 1. fold interrupt. rewrite Hint. reflexivity. }
      rewrite Hc. split; [reflexivity|]. intros s' w' H. discriminate H. }
  destruct H as [H1 H2]. split; [exact H1|]. split; [exact H1|exact H2].
Qed.

(** * Worked examples *)

(** ** The theorems at work on concrete objects *)

(** [interrupt] on the receiver: it is the actor and comes back with
    [interrupting] false. *)
Lemma interrupt_actor_witness :
  exists w',
    interrupt a_receiver (world (skipn 4 receiver_script) []) =
    Ret tt (set_closed true a_receiver) w'.
Proof.
  destruct (interrupt_actor a_receiver (world (skipn 4 receiver_script) []))
    as (_ & _ & Hact & _).
  destruct (Hact eq_refl) as (_ & s' & w' & Hrun & _ & _ & Hq).
  exists w'. rewrite Hrun, (Hq eq_refl). reflexivity.
Defined.

(** While the receiver works through two calls another thread marks it
    unhappy and then closed; neither flag ever goes back. *)
Lemma flags_monotonic_witness :
  Forall tame [set_happy false; set_closed true] /\
  let w := world receiver_script [set_happy false; set_closed true] in
  let s := UnixSockTwoWayStream test_sock in
  let s1 := state_of (run [Open false; Read 16] s w) in
  let s2 := state_of (run ([Open false; Read 16] ++ [Close; Open true; IsOk]) s w) in
  ((happy s1 = true -> happy s = true) /\ (closed s = true -> closed s1 = true)) /\
  ((happy s2 = true -> happy s1 = true) /\ (closed s1 = true -> closed s2 = true)).
Proof.
  assert (H : Forall tame [set_happy false; set_closed true]).
  { repeat constructor; cbn; auto; discriminate. }
  split; [exact H|].
  exact (flags_monotonic [Open false; Read 16] [Close; Open true; IsOk]
           (UnixSockTwoWayStream test_sock)
           (world receiver_script [set_happy false; set_closed true]) H).
Defined.


(** A new object, opened as sender or as receiver, is happy and not closed
    after [open], as it was before. *)
Lemma open_keeps_flags_witness :
  Forall neutral [] /\
  exists b s' w',
    open true (UnixSockTwoWayStream test_sock) (world [(3, 0); (0, 0)] []) = Ret b s' w' /\
    happy s' = true /\ closed s' = false /\ openedAsReader s' = false.
Proof.
  split; [constructor|].
  exact (open_keeps_flags true (UnixSockTwoWayStream test_sock)
           (world [(3, 0); (0, 0)] []) (Forall_nil neutral)).
Defined.

(** End of stream, and a read error, on the receiver's peer handle. *)
Lemma read_contract_witness :
  read 16 a_receiver (world [(0, 0)] []) =
  Ret (-1) (set_happy false a_receiver)
      (log (ReadFd 4 16 0) (next (world [(0, 0)] []))) /\
  read 16 a_receiver (world [(-1, 4)] []) =
  Ret (-1) a_receiver
      (log (Diag "unixSock::read():Packet payload")
         (log (ReadFd 4 16 (-1)) (next (world [(-1, 4)] [])))).
Proof.
  pose proof (proj2 (read_contract 16 a_receiver (world [(0, 0)] [])) eq_refl eq_refl)
    as (_ & _ & _ & H0 & _).
  pose proof (proj2 (read_contract 16 a_receiver (world [(-1, 4)] [])) eq_refl eq_refl)
    as (_ & _ & _ & _ & _ & Hneg & _).
  split; [exact (H0 eq_refl)|exact (Hneg eq_refl eq_refl)].
Defined.

(** A write of the sender that times out. *)
Lemma write_failure_witness :
  errno (os a_clobbering 0) = ETIMEDOUT /\
  errno_after_perror (os a_clobbering 0) <> ETIMEDOUT /\
  exists w',
    write [Byte.x01] a_sender a_clobbering =
    Ret tt (set_happy false (set_reader_fd (-1) (set_closed true a_sender))) w' /\
    isOk (set_happy false (set_reader_fd (-1) (set_closed true a_sender))) w' =
    Ret false (set_happy false (set_reader_fd (-1) (set_closed true a_sender))) w'.
Proof.
  assert (H1 : 0 <= reader_fd a_sender) by (cbn; lia).
  assert (H2 : to_int (ret_val (os a_clobbering 0)) < 0) by (vm_compute; reflexivity).
  assert (H3 : errno (os a_clobbering 0) = ETIMEDOUT) by reflexivity.
  assert (H4 : errno_after_perror (os a_clobbering 0) <> ETIMEDOUT) by (vm_compute; discriminate).
  split; [exact H3|]. split; [exact H4|].
  destruct (write_failure [Byte.x01] a_sender a_clobbering H1 H2)
    as (_ & _ & _ & _ & Hdiv & _).
  destruct (Hdiv H3 H4) as [Hrun _].
  eexists. rewrite Hrun. split; vm_compute; reflexivity.
Defined.

(** Three refused connections, then one accepted. *)
Lemma open_sender_retries_witness :
  ret_val (os (world [(3, 0); (-1, 111); (-1, 111); (-1, 111); (0, 0)] []) 0) <> -1 /\
  exists b s' w' (fails : list (Z * Z)) last,
    open true (UnixSockTwoWayStream test_sock)
      (world [(3, 0); (-1, 111); (-1, 111); (-1, 111); (0, 0)] []) = Ret b s' w' /\
    connect_failures
      (since (world [(3, 0); (-1, 111); (-1, 111); (-1, 111); (0, 0)] []) w')
    = List.length fails /\
    (b = true -> exists fd, last = [Connect fd (SunPath test_sock) 0]).
Proof.
  assert (H : ret_val (os (world [(3, 0); (-1, 111); (-1, 111); (-1, 111); (0, 0)] []) 0)
              <> -1) by (vm_compute; discriminate).
  split; [exact H|].
  destruct (open_sender_retries (UnixSockTwoWayStream test_sock)
              (world [(3, 0); (-1, 111); (-1, 111); (-1, 111); (0, 0)] []) H)
    as (b & s' & w' & fails & last & Hrun & _ & _ & Hlast & _ & _ & Hk & _).
  exists b, s', w', fails, last. auto.
Defined.

(** The receiver is closed by another thread while it is blocked in
    [read]: the 10 bytes that arrive are not delivered.  And after its own
    [interrupt], or [close], a [read] gives -1 at once. *)
Lemma read_after_interrupt_or_close_witness :
  read 16 a_receiver (world [(10, 0)] [set_closed true]) =
  Ret (-1) (set_happy false (set_closed true a_receiver))
      (set_env [] (log (ReadFd 4 16 10) (next (world [(10, 0)] [set_closed true])))) /\
  (exists s' w',
     (interrupt ;; run []) a_receiver (world (skipn 4 receiver_script) []) = Ret tt s' w' /\
     read 16 s' w' = Ret (-1) s' w') /\
  (exists s' w',
     (close ;; run [IsOk]) a_receiver (world (skipn 4 receiver_script) []) = Ret tt s' w' /\
     read 16 s' w' = Ret (-1) s' w').
Proof.
  pose proof (read_after_interrupt_or_close 16 a_receiver
                (world [(10, 0)] [set_closed true])) as [Ha _].
  pose proof (read_after_interrupt_or_close 16 a_receiver
                (world (skipn 4 receiver_script) [])) as (_ & Hb & Hc).
  split; [exact (Ha eq_refl eq_refl eq_refl)|]. split.
  - assert (E : exists s' w',
               (interrupt ;; run []) a_receiver (world (skipn 4 receiver_script) [])
               = Ret tt s' w') by (eexists _, _; vm_compute; reflexivity).
    destruct E as (s' & w' & E). exists s', w'. split; [exact E|].
    exact (Hb [] s' w' (Forall_nil tame)
             (fun H => False_ind _ (Bool.diff_false_true H)) E).
  - assert (E : exists s' w',
               (close ;; run [IsOk]) a_receiver (world (skipn 4 receiver_script) [])
               = Ret tt s' w') by (eexists _, _; vm_compute; reflexivity).
    destruct E as (s' & w' & E). exists s', w'. split; [exact E|].
    exact (Hc [IsOk] s' w' (Forall_nil tame) E).
Defined.

(** A receiver whose accepted peer handle is the sentinel writes on -1. *)
Lemma write_guard_reader_fd_only_witness :
  exists tail,
    since (world [(-1, 9)] [])
      (world_of (write [Byte.x01] (set_sender_fd (-1) a_receiver) (world [(-1, 9)] [])))
    = WriteFd (-1) [Byte.x01] (-1) 9 :: tail.
Proof.
  refine (proj2 (proj2 (write_guard_reader_fd_only [Byte.x01]
                          (set_sender_fd (-1) a_receiver) (world [(-1, 9)] [])))
            eq_refl eq_refl _).
  cbn. lia.
Defined.

(** ** The further properties at work *)

(** The socket name of the examples fits [sun_path] and is used as it is. *)
Lemma socket_name_cut_witness :
  exists tail : list event,
    since (world receiver_script [])
      (world_of (open false (UnixSockTwoWayStream test_sock) (world receiver_script []))) =
    Socket 3 :: Unlink test_sock :: Bind 3 (SunPath test_sock) 0 :: tail.
Proof.
  destruct (socket_name_cut false (UnixSockTwoWayStream test_sock) (world receiver_script []))
    as (p & fd & r & tail & _ & _ & _ & Hid & Hs & _); [discriminate|discriminate|].
  assert (Hp : p = test_sock) by (apply Hid; [reflexivity|cbn; lia]).
  rewrite Hp in Hs. rewrite Hs. exists tail.
  pose proof Hs as Hc.
  rewrite open_receiver_since in Hc. cbn in Hc. injection Hc as Hfd Hr _.
  rewrite <- Hfd, <- Hr. reflexivity.
Defined.

(** A name of 135 characters: the receiver unlinks the name and binds its first 107 characters. *)
Lemma open_receiver_long_name_witness :
  (107 < String.length (c_str long_sock))%nat /\
  exists (p : string) (tail : list event),
    String.length p = 107%nat /\ p <> c_str long_sock /\
    since (world [(3, 0); (0, 0); (0, 0); (4, 0)] [])
      (world_of (open false (UnixSockTwoWayStream long_sock)
                   (world [(3, 0); (0, 0); (0, 0); (4, 0)] []))) =
    Socket 3 :: Unlink long_sock :: Bind 3 (SunPath p) 0 :: tail.
Proof.
  assert (Hlen : (107 < String.length (c_str long_sock))%nat) by (vm_compute; lia).
  split; [exact Hlen|].
  destruct (open_receiver_long_name (UnixSockTwoWayStream long_sock)
              (world [(3, 0); (0, 0); (0, 0); (4, 0)] []) Hlen)
    as (p & tail & H1 & _ & H2 & H3); [discriminate|].
  exists p, tail. repeat split; assumption.
Defined.

(** The sender closed twice, and written to after [close]. *)
Lemma close_twice_sender_witness :
  (close ;; close) a_sender (world [] []) = close a_sender (world [] []) /\
  (close ;; write [Byte.x01]) a_sender (world [] []) = close a_sender (world [] []).
Proof.
  destruct (close_twice_sender [Byte.x01] a_sender (world [] []) eq_refl eq_refl)
    as (_ & H1 & _ & H3).
  split; [exact H1|]. apply H3. discriminate.
Defined.

(** A new object, never opened, is closed without a system call. *)
Lemma close_needs_descriptor_witness :
  close (UnixSockTwoWayStream test_sock) (world [] []) =
  Ret tt (set_happy false (UnixSockTwoWayStream test_sock)) (world [] []).
Proof.
  apply (close_needs_descriptor [] (UnixSockTwoWayStream test_sock) (world [] [])).
  cbn. lia.
Defined.

(** A short write of the sender: one byte of two. *)
Lemma write_passes_witness :
  write [Byte.x01; Byte.x02] a_sender (world [(1, 0)] []) =
  Ret tt a_sender (log (WriteFd 3 [Byte.x01; Byte.x02] 1 0) (next (world [(1, 0)] []))).
Proof.
  apply (write_passes [Byte.x01; Byte.x02] a_sender (world [(1, 0)] [])).
  - cbn. lia.
  - vm_compute. discriminate.
Defined.

(** A waiter whose actor clears the flag during the second sleep. *)
Lemma interrupt_waits_witness :
  let w := world [] [fun x => x; set_interrupting false] in
  let o := interrupt a_waiter w in
  exists k : nat,
    (k <= List.length (env w))%nat /\
    (forall j, (j < k)%nat -> interrupting (fst (turns j (a_waiter, env w))) = true) /\
    state_of o = fst (turns k (a_waiter, env w)) /\
    returns o = negb (interrupting (state_of o)) /\
    since w (world_of o) =
      Diag " interrupting socket" :: polls (if returns o then k else S k) /\
    tick (world_of o) = tick w /\
    (returns o = false -> k = List.length (env w)).
Proof.
  exact (interrupt_waits a_waiter (world [] [fun x => x; set_interrupting false]) eq_refl).
Defined.

(** The sender interrupted twice. *)
Lemma interrupt_twice_witness :
  exists s1 w1,
    interrupt a_sender (world [] []) = Ret tt s1 w1 /\
    interrupt s1 w1 = Ret tt s1 (log (Diag " interrupting socket") w1).
Proof.
  destruct (interrupt_twice a_sender (world [] [])) as (s1 & w1 & H1 & H2 & _).
  - constructor.
  - reflexivity.
  - exists s1, w1. split; assumption.
Defined.

(** The monitor buffer of a receiver that is opened, read and closed. *)
Lemma tap_and_addresses_kept_witness :
  monitor (state_of (run [Open false; Read 16; Close]
                       (set_monitor [Byte.x2a] (UnixSockTwoWayStream test_sock))
                       (world receiver_script []))) =
  monitor (set_monitor [Byte.x2a] (UnixSockTwoWayStream test_sock)).
Proof.
  destruct (tap_and_addresses_kept [Open false; Read 16; Close]
              (set_monitor [Byte.x2a] (UnixSockTwoWayStream test_sock))
              (world receiver_script []))
    as ((_ & H & _) & _); [constructor|reflexivity|].
  exact H.
Defined.


(** A whole life of a receiver, closed twice. *)
Lemma alone_never_waits_witness :
  exists s' w',
    run [Open false; Read 16; Write [Byte.x01]; Interrupt; Close; Close]
      (UnixSockTwoWayStream test_sock) (world receiver_script []) = Ret tt s' w' /\
    interrupting s' = false.
Proof.
  destruct (alone_never_waits
              [Open false; Read 16; Write [Byte.x01]; Interrupt; Close; Close]
              (UnixSockTwoWayStream test_sock) (world receiver_script []))
    as (s' & w' & H1 & H2 & _); [reflexivity|reflexivity|].
  exists s', w'. split; assumption.
Defined.

(** The receiver interrupts itself: three attempts, three closes of handle 4. *)
Lemma unblock_closes_peer_witness :
  Forall bystander [] /\
  let w := world (skipn 4 receiver_script) [] in
  let tr := since w (world_of (interrupt a_receiver w)) in
  count is_closefd tr = (due (sender_fd a_receiver) * count is_socket tr)%nat /\
  count is_socket tr = 3%nat.
Proof.
  split; [constructor|].
  pose proof (unblock_closes_peer a_receiver (world (skipn 4 receiver_script) [])
                (Forall_nil _) eq_refl) as (_ & _ & _ & H1 & _ & H2).
  split; [exact H1|exact (H2 eq_refl)].
Defined.

(** [close] on the receiver: handle 4 is closed a fourth time, socket 3 is not. *)
Lemma close_receiver_witness :
  exists w' tr,
    close a_receiver (world (skipn 4 receiver_script) []) =
    Ret tt (set_happy false (set_sender_fd (-1) (set_closed true a_receiver))) w' /\
    count is_socket tr = 3%nat /\
    count is_closefd (since (world (skipn 4 receiver_script) []) w') =
    S (due (sender_fd a_receiver) * count is_socket tr).
Proof.
  destruct (close_receiver a_receiver (world (skipn 4 receiver_script) []))
    as (w' & tr & H1 & _ & _ & H2 & H3 & _); [reflexivity|reflexivity|cbn; lia|reflexivity|].
  exists w', tr. repeat split; assumption.
Defined.

(** The receiver is still happy after [interrupt]. *)
Lemma interrupt_alone_witness :
  exists w',
    interrupt a_receiver (world (skipn 4 receiver_script) []) =
    Ret tt (set_closed true a_receiver) w' /\
    isOk (set_closed true a_receiver) w' = Ret true (set_closed true a_receiver) w'.
Proof.
  destruct (interrupt_alone a_receiver (world (skipn 4 receiver_script) []))
    as (w' & H1 & _ & H2 & _); [reflexivity|reflexivity|].
  exists w'. split; [exact H1|exact H2].
Defined.

(** A sender whose first connection attempt is refused. *)
Lemma sender_socket_released_witness :
  exists s' w' tr,
    (open true ;; close) (UnixSockTwoWayStream test_sock)
      (world [(3, 0); (-1, 111); (0, 0)] []) = Ret tt s' w' /\
    since (world [(3, 0); (-1, 111); (0, 0)] []) w' =
      Socket 3 :: tr ++ [Diag " interrupting socket"; Shutdown 3; CloseFd 3] /\
    reader_fd s' = -1.
Proof.
  destruct (sender_socket_released (UnixSockTwoWayStream test_sock)
              (world [(3, 0); (-1, 111); (0, 0)] []))
    as (s' & w' & tr & H1 & H2 & _ & H3 & _); [reflexivity|reflexivity|cbn; lia|].
  exists s', w', tr. repeat split; assumption.
Defined.

(** The receiver of the examples, opened and closed. *)
Lemma receiver_socket_leaked_witness :
  exists s' w',
    (open false ;; close) (UnixSockTwoWayStream test_sock) (world receiver_script [])
    = Ret tt s' w' /\
    reader_fd s' = 3 /\
    ~ In (CloseFd 3) (since (world receiver_script []) w').
Proof.
  destruct (receiver_socket_leaked (UnixSockTwoWayStream test_sock)
              (world receiver_script []))
    as (s' & w' & H1 & H2 & _ & _ & _ & _ & H3);
    [reflexivity|reflexivity|cbn; lia|cbn; lia|cbn; lia|cbn; lia|cbn; lia|].
  exists s', w'. repeat split; assumption.
Defined.

(** Another thread goes through the locked section while the receiver is blocked. *)
Lemma interrupting_implies_closed_witness :
  Forall (within guard_kept) [fun s => set_closed true (set_interrupting true s)] /\
  guarded (state_of (run [Open false; Read 16; Interrupt]
                       (UnixSockTwoWayStream test_sock)
                       (world receiver_script
                          [fun s => set_closed true (set_interrupting true s)]))).
Proof.
  assert (He : Forall (within guard_kept)
                 [fun s => set_closed true (set_interrupting true s)])
    by (repeat constructor).
  split; [exact He|].
  apply (interrupting_implies_closed [Open false; Read 16; Interrupt]
           (UnixSockTwoWayStream test_sock)
           (world receiver_script [fun s => set_closed true (set_interrupting true s)]) He).
  intros H. discriminate H.
Defined.

(** End of stream on the sender, then two more calls and a [read]. *)
Lemma read_eof_is_final_witness :
  exists s' w',
    (read 16 ;; run [IsOk; Write [Byte.x01]]) a_sender (world [(0, 0); (1, 0)] [])
    = Ret tt s' w' /\
    read 16 s' w' = Ret (-1) s' w'.
Proof.
  destruct (read_eof_is_final 16 16 a_sender (world [(0, 0); (1, 0)] []) eq_refl eq_refl)
    as [H _].
  assert (E : exists s' w',
             (read 16 ;; run [IsOk; Write [Byte.x01]]) a_sender
               (world [(0, 0); (1, 0)] []) = Ret tt s' w')
    by (eexists _, _; vm_compute; reflexivity).
  destruct E as (s' & w' & E). exists s', w'. split; [exact E|].
  exact (H eq_refl (Forall_nil _) _ s' w' E).
Defined.

(** [close] on a waiter whose actor clears the flag during the second sleep. *)
Lemma close_waits_for_interrupt_witness :
  returns (close a_waiter (world [] [fun x => x; set_interrupting false])) =
  returns (interrupt a_waiter (world [] [fun x => x; set_interrupting false])).
Proof.
  destruct (close_waits_for_interrupt a_waiter
              (world [] [fun x => x; set_interrupting false])) as [H _];
    [cbn; lia|exact H].
Defined.
